(** * Bond-Builder Arena: the simulation core of [components/Arena.tsx]

    A shallow embedding of the arena's game state (atoms, bonds, undo
    history, drag reference, drag-session set) and of the operations that
    mutate it: [spawnAtom], the bond attempt of [update], [checkMolecules],
    [undo], [handlePointerDown], [handlePointerUp] and the reset effect.

    Conventions of the embedding.
    - JavaScript numbers that hold counts ([currentBonds], [valency], score
      points, the clock) are [Z]; coordinates, velocities and the results
      of [Math.random()] are exact rationals [Q].
    - [Math.sqrt(dx*dx + dy*dy) < d] is written [dx*dx + dy*dy < d*d]
      (for [0 <= d] the two agree on exact numbers).
    - [Math.cos], [Math.sin] and [Math.atan2] are parameters ([Trig]).
    - [Math.random()] and [uuid()] are inputs: every event carries the
      values drawn while it is handled.
    - Steps 2 and 3 of [update] (force integration) only write the fields
      [x], [y], [vx], [vy] and [fxScale] of the atoms.  Their arithmetic is
      floating point with square roots; a tick therefore takes the outcome
      of the integration as an input ([physics]) and every statement below
      is proved for all such outcomes.
    - [particlesRef] and the canvas drawing are presentation only and are
      not part of the state. *)

From Stdlib Require Import ZArith QArith Qround Lqa String List Lia DecimalString.
From stdpp Require Import base decidable option list relations sets gmap strings.

Open Scope string_scope.
Open Scope list_scope.
Open Scope Z_scope.

(** ** types.ts *)

Module AtomType.

Inductive t : Type := H | O | N | C | Cl | S | P.

#[global] Instance eq_dec : EqDecision t.
Proof. solve_decision. Defined.

(** The enum's values are the strings ['H'], ['O'], ... *)
Definition to_string (ty : t) : string :=
  match ty with
  | H => "H" | O => "O" | N => "N" | C => "C"
  | Cl => "Cl" | S => "S" | P => "P"
  end.

End AtomType.

Record AtomDef : Type := {
  symbol : AtomType.t;
  valency : Z;
  color : string;
  radius : Q;
  mass : Q
}.

Record AtomEntity : Type := {
  atom_id : string;
  atom_type : AtomType.t;
  atom_x : Q;
  atom_y : Q;
  atom_vx : Q;
  atom_vy : Q;
  currentBonds : Z;
  bondedAtomIds : list string;
  isDragging : bool;
  fxScale : Q
}.

Record BondEntity : Type := {
  bond_id : string;
  atom1Id : string;
  atom2Id : string;
  stress : Q
}.

(** ** constants.ts *)

Definition ATOM_DEFS (ty : AtomType.t) : AtomDef :=
  match ty with
  | AtomType.H => {| symbol := AtomType.H; valency := 1; color := "#06B6D4"; radius := 20; mass := 1 |}
  | AtomType.O => {| symbol := AtomType.O; valency := 2; color := "#EF4444"; radius := 28; mass := 16 |}
  | AtomType.N => {| symbol := AtomType.N; valency := 3; color := "#3B82F6"; radius := 29; mass := 14 |}
  | AtomType.C => {| symbol := AtomType.C; valency := 4; color := "#1F2937"; radius := 30; mass := 12 |}
  | AtomType.Cl => {| symbol := AtomType.Cl; valency := 1; color := "#10B981"; radius := 27; mass := 35 |}
  | AtomType.S => {| symbol := AtomType.S; valency := 2; color := "#EAB308"; radius := 29; mass := 32 |}
  | AtomType.P => {| symbol := AtomType.P; valency := 3; color := "#F97316"; radius := 30; mass := 31 |}
  end.

Definition BOND_DISTANCE : Q := 70.

(** ** The arena's mutable state (the [useRef] cells of the component) *)

(** What the arena tells its collaborators while it handles an event, in
    the order of the calls. *)
Inductive Effect : Type :=
  | PlaySound (sound : string)
  | ScoreUpdate (points : Z)
  | IdentifyMolecule (composition : list (AtomType.t * Z))
  | ErrorEvent (msg : string).

#[global] Instance Effect_eq_dec : EqDecision Effect.
Proof. solve_decision. Defined.

(** The refs of the component, and [gameActive]: the prop that the parent
    passes in, whose changes are the events [SetGameActive] below. *)
Record State : Type := {
  atoms : list AtomEntity;
  bonds : list BondEntity;
  bondHistory : list string;
  lastSpawn : Z;
  draggedAtom : option string;
  mouse : Q * Q;
  dragSessionBondedPairs : gset string;
  gameActive : bool
}.

(** A string is truthy in JavaScript when it is not empty; [null] is falsy. *)
Definition truthy (o : option string) : bool :=
  match o with
  | Some s => negb (String.eqb s "")
  | None => false
  end.

Definition Qltb (a b : Q) : bool := negb (Qle_bool b a).

(** [Math.sqrt(dx*dx + dy*dy) < d] for the vector from [(ax, ay)] to
    [(bx, by)]. *)
Definition dist_lt (ax ay bx by_ d : Q) : bool :=
  let dx := (bx - ax)%Q in
  let dy := (by_ - ay)%Q in
  Qltb (dx * dx + dy * dy) (d * d).

(** [arr.find(p)] and [arr.findIndex(p)] in one: the first index whose
    element satisfies [p], with that element. *)
Fixpoint findFrom {A : Type} (p : A → bool) (i : nat) (l : list A) : option (nat * A) :=
  match l with
  | [] => None
  | a :: l' => if p a then Some (i, a) else findFrom p (Datatypes.S i) l'
  end.

Definition findIndexed {A : Type} (p : A → bool) (l : list A) : option (nat * A) :=
  findFrom p 0%nat l.

Definition has_id (i : string) (a : AtomEntity) : bool := String.eqb (atom_id a) i.

(** [atomsRef.current.find(a => a.id === id)] *)
Definition findAtom (ats : list AtomEntity) (i : string) : option AtomEntity :=
  snd <$> findIndexed (has_id i) ats.

(** ** spawnAtom *)

(** Weighted spawn chances: the [types] array. *)
Definition spawn_types : list AtomType.t :=
  [AtomType.H; AtomType.H; AtomType.H;
   AtomType.O; AtomType.O;
   AtomType.C; AtomType.C;
   AtomType.N;
   AtomType.Cl;
   AtomType.S;
   AtomType.P].

(** The values [spawnAtom] draws, in the order of its calls: four
    [Math.random()] for the type and the position, [uuid()] for the id,
    two [Math.random()] for the velocity. *)
Record SpawnDraws : Type := {
  rnd_type : Q;
  rnd_axis : Q;
  rnd_third : Q;
  rnd_fourth : Q;
  new_atom_id : string;
  rnd_vx : Q;
  rnd_vy : Q
}.

(** [types[Math.floor(Math.random() * types.length)]]; [None] when the
    index is outside the array (the lookup is [undefined] and the next
    line throws). *)
Definition pickType (r : Q) : option AtomType.t :=
  let i := Qfloor (r * 11) in
  if (0 <=? i)%Z then spawn_types !! Z.to_nat i else None.

Definition spawnPosition (width height rad : Q) (d : SpawnDraws) : Q * Q :=
  if Qltb (1 # 2) (rnd_axis d)
  then (if Qltb (1 # 2) (rnd_third d) then (- rad)%Q else (width + rad)%Q,
        (rnd_fourth d * height)%Q)
  else ((rnd_third d * width)%Q,
        if Qltb (1 # 2) (rnd_fourth d) then (- rad)%Q else (height + rad)%Q).

(** [container] is the bounding rectangle [(width, height)] of
    [containerRef.current], [None] when the ref is empty.  The result is
    [None] when the body throws. *)
Definition spawnAtom (container : option (Q * Q)) (d : SpawnDraws)
    (ats : list AtomEntity) : option (list AtomEntity) :=
  match container with
  | None => Some ats
  | Some (width, height) =>
      match pickType (rnd_type d) with
      | None => None
      | Some ty =>
          let def := ATOM_DEFS ty in
          let '(x, y) := spawnPosition width height (radius def) d in
          Some (ats ++ [ {| atom_id := new_atom_id d;
                            atom_type := ty;
                            atom_x := x;
                            atom_y := y;
                            atom_vx := (rnd_vx d - (1 # 2)) * 2;
                            atom_vy := (rnd_vy d - (1 # 2)) * 2;
                            currentBonds := 0;
                            bondedAtomIds := [];
                            isDragging := false;
                            fxScale := 0 |} ])
      end
  end.

(** ** checkMolecules *)

Definition isFull (a : AtomEntity) : bool :=
  (currentBonds a =? valency (ATOM_DEFS (atom_type a)))%Z.

Definition touches (i : string) (b : BondEntity) : bool :=
  String.eqb (atom1Id b) i || String.eqb (atom2Id b) i.

(** [bonds.filter(b => b.atom1Id === id || b.atom2Id === id)
         .map(b => b.atom1Id === id ? b.atom2Id : b.atom1Id)] *)
Definition neighbors (bs : list BondEntity) (i : string) : list string :=
  map (λ b, if String.eqb (atom1Id b) i then atom2Id b else atom1Id b)
      (List.filter (touches i) bs).

(** The inner [for (const nid of neighbors)] loop. *)
Definition visitNeighbor (ats : list AtomEntity)
    (vq : gset string * list AtomEntity) (nid : string) : gset string * list AtomEntity :=
  match findAtom ats nid with
  | Some nAtom =>
      if bool_decide (atom_id nAtom ∈ vq.1) then vq
      else ({[atom_id nAtom]} ∪ vq.1, vq.2 ++ [nAtom])
  | None => vq
  end.

Record Bfs : Type := {
  bfs_visited : gset string;
  bfs_queue : list AtomEntity;
  bfs_component : list AtomEntity;
  bfs_isStable : bool
}.

(** The [while (queue.length > 0)] loop.  Every turn takes one atom off the
    queue, and an atom is queued only when its id is new to [visited]; the
    loop is given one unit of fuel per turn and [bfsLoop_fuel_enough]
    shows that the number of atoms is always enough. *)
Fixpoint bfsLoop (fuel : nat) (ats : list AtomEntity) (bs : list BondEntity)
    (st : Bfs) : Bfs :=
  match bfs_queue st, fuel with
  | [], _ => st
  | _ :: _, 0%nat => st
  | current :: rest, Datatypes.S fuel' =>
      let vq := foldl (visitNeighbor ats) (bfs_visited st, rest)
                      (neighbors bs (atom_id current)) in
      bfsLoop fuel' ats bs
        {| bfs_visited := vq.1;
           bfs_queue := vq.2;
           bfs_component := bfs_component st ++ [current];
           bfs_isStable := if isFull current then bfs_isStable st else false |}
  end.

(** [composition[a.type] = (composition[a.type] || 0) + 1] on an object
    whose keys keep their insertion order. *)
Fixpoint bump (ty : AtomType.t) (c : list (AtomType.t * Z)) : list (AtomType.t * Z) :=
  match c with
  | [] => [(ty, 1)]
  | (ty', n) :: c' =>
      if decide (ty' = ty) then (ty', n + 1) :: c' else (ty', n) :: bump ty c'
  end.

Definition compositionOf (component : list AtomEntity) : list (AtomType.t * Z) :=
  foldl (λ c a, bump (atom_type a) c) [] component.

Record Scan : Type := {
  scan_visited : gset string;
  scan_toRemove : list string;
  scan_effects : list Effect
}.

(** What the arena emits for one stable component.  (The same block sets
    [fxScale] of the members and spawns particles at their positions; the
    members leave the store at the end of the call.) *)
Definition report (component : list AtomEntity) : list Effect :=
  [PlaySound "success";
   ScoreUpdate (Z.of_nat (length component) * 100);
   IdentifyMolecule (compositionOf component)].

(** One turn of [for (const atom of atomsRef.current)]. *)
Definition scanAtom (ats : list AtomEntity) (bs : list BondEntity)
    (sc : Scan) (atom : AtomEntity) : Scan :=
  if bool_decide (atom_id atom ∈ scan_visited sc) then sc
  else
    let r := bfsLoop (length ats) ats bs
               {| bfs_visited := {[atom_id atom]} ∪ scan_visited sc;
                  bfs_queue := [atom];
                  bfs_component := [];
                  bfs_isStable := true |} in
    if bfs_isStable r && (1 <? length (bfs_component r))%nat
    then {| scan_visited := bfs_visited r;
            scan_toRemove := scan_toRemove sc ++ map atom_id (bfs_component r);
            scan_effects := scan_effects sc ++ report (bfs_component r) |}
    else {| scan_visited := bfs_visited r;
            scan_toRemove := scan_toRemove sc;
            scan_effects := scan_effects sc |}.

Definition scanAll (ats : list AtomEntity) (bs : list BondEntity) : Scan :=
  foldl (scanAtom ats bs)
        {| scan_visited := ∅; scan_toRemove := []; scan_effects := [] |} ats.

Definition includes (l : list string) (i : string) : bool := bool_decide (i ∈ l).

Definition checkMolecules (s : State) : State * list Effect :=
  let sc := scanAll (atoms s) (bonds s) in
  let toRemoveAtoms := scan_toRemove sc in
  if (0 <? length toRemoveAtoms)%nat
  then ({| atoms := List.filter (λ a, negb (includes toRemoveAtoms (atom_id a))) (atoms s);
           bonds := List.filter (λ b, negb (includes toRemoveAtoms (atom1Id b))
                                      && negb (includes toRemoveAtoms (atom2Id b))) (bonds s);
           bondHistory := bondHistory s;
           lastSpawn := lastSpawn s;
           draggedAtom :=
             match draggedAtom s with
             | Some d => if truthy (Some d) && includes toRemoveAtoms d then None else Some d
             | None => None
             end;
           mouse := mouse s;
           dragSessionBondedPairs := dragSessionBondedPairs s;
           gameActive := gameActive s |},
        scan_effects sc)
  else (s, scan_effects sc).

(** ** update: one animation frame *)

(** What steps 2 and 3 leave in an atom. *)
Record Kinematics : Type := {
  k_x : Q;
  k_y : Q;
  k_vx : Q;
  k_vy : Q;
  k_fxScale : Q
}.

Definition setKinematics (k : Kinematics) (a : AtomEntity) : AtomEntity :=
  {| atom_id := atom_id a;
     atom_type := atom_type a;
     atom_x := k_x k;
     atom_y := k_y k;
     atom_vx := k_vx k;
     atom_vy := k_vy k;
     currentBonds := currentBonds a;
     bondedAtomIds := bondedAtomIds a;
     isDragging := isDragging a;
     fxScale := k_fxScale k |}.

(** What a frame reads from outside the state: the canvas (with its 2d
    context) and the container, each as [(width, height)] when present; the
    values of [Math.random()] and [uuid()]; the outcome of the force
    integration for the atom at each index. *)
Record TickEnv : Type := {
  canvas : option (Q * Q);
  container : option (Q * Q);
  draws : SpawnDraws;
  physics : nat → AtomEntity → Kinematics;
  new_bond_id : string
}.

(** Step 1.  [None] when [spawnAtom] throws. *)
Definition spawnStep (time : Z) (env : TickEnv) (s : State) : option State :=
  if (1500 <? time - lastSpawn s) && (length (atoms s) <? 18)%nat
  then ats ← spawnAtom (container env) (draws env) (atoms s);
       Some {| atoms := ats;
               bonds := bonds s;
               bondHistory := bondHistory s;
               lastSpawn := time;
               draggedAtom := draggedAtom s;
               mouse := mouse s;
               dragSessionBondedPairs := dragSessionBondedPairs s;
               gameActive := gameActive s |}
  else Some s.

(** Steps 2 and 3. *)
Definition physicsStep (env : TickEnv) (s : State) : State :=
  {| atoms := imap (λ i a, setKinematics (physics env i a) a) (atoms s);
     bonds := bonds s;
     bondHistory := bondHistory s;
     lastSpawn := lastSpawn s;
     draggedAtom := draggedAtom s;
     mouse := mouse s;
     dragSessionBondedPairs := dragSessionBondedPairs s;
     gameActive := gameActive s |}.

(** [[a, b].sort().join('-')] *)
Definition pairKey (a b : string) : string :=
  if String.leb a b then (a ++ "-" ++ b)%string else (b ++ "-" ++ a)%string.

(** The callback of [atomsRef.current.find] in step 4. *)
Definition isCandidate (session : gset string) (dragger target : AtomEntity) : bool :=
  if String.eqb (atom_id target) (atom_id dragger) then false
  else if (valency (ATOM_DEFS (atom_type target)) <=? currentBonds target) then false
  else dist_lt (atom_x dragger) (atom_y dragger) (atom_x target) (atom_y target)
               (BOND_DISTANCE + 10)
       && negb (bool_decide (pairKey (atom_id dragger) (atom_id target) ∈ session)).

(** The decision of step 4: the dragged atom and the neighbour it bonds
    with in this frame, each with its index in the store. *)
Definition bondAttempt (s : State) : option ((nat * AtomEntity) * (nat * AtomEntity)) :=
  match draggedAtom s with
  | Some dragged =>
      if truthy (Some dragged) then
        match findIndexed (has_id dragged) (atoms s) with
        | Some (i, dragger) =>
            if currentBonds dragger <? valency (ATOM_DEFS (atom_type dragger)) then
              match findIndexed (isCandidate (dragSessionBondedPairs s) dragger) (atoms s) with
              | Some (j, neighbor) => Some ((i, dragger), (j, neighbor))
              | None => None
              end
            else None
        | None => None
        end
      else None
  | None => None
  end.

Definition setCurrentBonds (n : Z) (a : AtomEntity) : AtomEntity :=
  {| atom_id := atom_id a;
     atom_type := atom_type a;
     atom_x := atom_x a;
     atom_y := atom_y a;
     atom_vx := atom_vx a;
     atom_vy := atom_vy a;
     currentBonds := n;
     bondedAtomIds := bondedAtomIds a;
     isDragging := isDragging a;
     fxScale := fxScale a |}.

(** [a.currentBonds++] *)
Definition incrBonds (a : AtomEntity) : AtomEntity := setCurrentBonds (currentBonds a + 1) a.

(** The body of [if (neighbor)] up to the call of [checkMolecules]. *)
Definition createBond (bondId : string) (i j : nat) (dragger neighbor : AtomEntity)
    (s : State) : State :=
  {| atoms := alter incrBonds j (alter incrBonds i (atoms s));
     bonds := bonds s ++ [ {| bond_id := bondId;
                              atom1Id := atom_id dragger;
                              atom2Id := atom_id neighbor;
                              stress := 0 |} ];
     bondHistory := bondHistory s ++ [bondId];
     lastSpawn := lastSpawn s;
     draggedAtom := draggedAtom s;
     mouse := mouse s;
     dragSessionBondedPairs :=
       {[pairKey (atom_id dragger) (atom_id neighbor)]} ∪ dragSessionBondedPairs s;
     gameActive := gameActive s |}.

(** Step 4. *)
Definition bondStep (env : TickEnv) (s : State) : State * list Effect :=
  match bondAttempt s with
  | Some ((i, dragger), (j, neighbor)) =>
      let '(s', effs) := checkMolecules (createBond (new_bond_id env) i j dragger neighbor s) in
      (s', PlaySound "pop" :: effs)
  | None => (s, [])
  end.

(** The frame up to step 4: [None] when [update] returns before it (the
    game is not active, the canvas or its context is missing) or is
    aborted by an exception in [spawnAtom]. *)
Definition beforeBondStep (time : Z) (env : TickEnv) (s : State) : option State :=
  if negb (gameActive s) then None
  else match canvas env with
       | None => None
       | Some _ => physicsStep env <$> spawnStep time env s
       end.

Definition update (time : Z) (env : TickEnv) (s : State) : State * list Effect :=
  match beforeBondStep time env s with
  | Some s2 => bondStep env s2
  | None => (s, [])
  end.

(** ** undo *)

Definition hasBondId (i : string) (b : BondEntity) : bool := String.eqb (bond_id b) i.

(** [a.currentBonds = Math.max(0, a.currentBonds - 1)] *)
Definition decrBonds (a : AtomEntity) : AtomEntity :=
  setCurrentBonds (Z.max 0 (currentBonds a - 1)) a.

(** [if (a) a.currentBonds = ...] for [a = atoms.find(p)]. *)
Definition decrFound (i : string) (ats : list AtomEntity) : list AtomEntity :=
  match findIndexed (has_id i) ats with
  | Some (k, _) => alter decrBonds k ats
  | None => ats
  end.

(** The [while] loop of [undo] on the history read from its end: [stack]
    is [bondHistoryRef.current] reversed, so that [pop()] takes the head.
    The result is what is left of the stack, the atoms and the bonds. *)
Fixpoint undoLoop (stack : list string) (ats : list AtomEntity) (bs : list BondEntity)
    : list string * list AtomEntity * list BondEntity :=
  match stack with
  | [] => ([], ats, bs)
  | lastBondId :: stack' =>
      match findIndexed (hasBondId lastBondId) bs with
      | Some (bondIndex, bond) =>
          if truthy (Some lastBondId)
          then (stack',
                decrFound (atom2Id bond) (decrFound (atom1Id bond) ats),
                delete bondIndex bs)
          else undoLoop stack' ats bs
      | None => undoLoop stack' ats bs
      end
  end.

Definition undo (s : State) : State :=
  let '(stack, ats, bs) := undoLoop (rev (bondHistory s)) (atoms s) (bonds s) in
  {| atoms := ats;
     bonds := bs;
     bondHistory := rev stack;
     lastSpawn := lastSpawn s;
     draggedAtom := draggedAtom s;
     mouse := mouse s;
     dragSessionBondedPairs := dragSessionBondedPairs s;
     gameActive := gameActive s |}.

(** ** Pointer input *)

Definition hitBy (x y : Q) (a : AtomEntity) : bool :=
  let dx := (atom_x a - x)%Q in
  let dy := (atom_y a - y)%Q in
  let r := (radius (ATOM_DEFS (atom_type a)) + 10)%Q in
  Qltb (dx * dx + dy * dy) (r * r).

Definition grab (a : AtomEntity) : AtomEntity :=
  {| atom_id := atom_id a;
     atom_type := atom_type a;
     atom_x := atom_x a;
     atom_y := atom_y a;
     atom_vx := 0;
     atom_vy := 0;
     currentBonds := currentBonds a;
     bondedAtomIds := bondedAtomIds a;
     isDragging := true;
     fxScale := fxScale a |}.

(** [rect] is the canvas' bounding rectangle [(left, top)], [None] when
    [canvasRef.current] is empty. *)
Definition handlePointerDown (rect : option (Q * Q)) (clientX clientY : Q) (s : State) : State :=
  match rect with
  | None => s
  | Some (rleft, rtop) =>
      let x := (clientX - rleft)%Q in
      let y := (clientY - rtop)%Q in
      match findIndexed (hitBy x y) (atoms s) with
      | Some (k, clicked) =>
          {| atoms := alter grab k (atoms s);
             bonds := bonds s;
             bondHistory := bondHistory s;
             lastSpawn := lastSpawn s;
             draggedAtom := Some (atom_id clicked);
             mouse := (x, y);
             dragSessionBondedPairs := ∅;
             gameActive := gameActive s |}
      | None =>
          {| atoms := atoms s;
             bonds := bonds s;
             bondHistory := bondHistory s;
             lastSpawn := lastSpawn s;
             draggedAtom := draggedAtom s;
             mouse := (x, y);
             dragSessionBondedPairs := dragSessionBondedPairs s;
             gameActive := gameActive s |}
      end
  end.

Definition handlePointerMove (rect : option (Q * Q)) (clientX clientY : Q) (s : State) : State :=
  match rect with
  | None => s
  | Some (rleft, rtop) =>
      {| atoms := atoms s;
         bonds := bonds s;
         bondHistory := bondHistory s;
         lastSpawn := lastSpawn s;
         draggedAtom := draggedAtom s;
         mouse := ((clientX - rleft)%Q, (clientY - rtop)%Q);
         dragSessionBondedPairs := dragSessionBondedPairs s;
         gameActive := gameActive s |}
  end.

Definition setDragging (d : bool) (a : AtomEntity) : AtomEntity :=
  {| atom_id := atom_id a;
     atom_type := atom_type a;
     atom_x := atom_x a;
     atom_y := atom_y a;
     atom_vx := atom_vx a;
     atom_vy := atom_vy a;
     currentBonds := currentBonds a;
     bondedAtomIds := bondedAtomIds a;
     isDragging := d;
     fxScale := fxScale a |}.

Definition setVelocity (vx vy : Q) (a : AtomEntity) : AtomEntity :=
  {| atom_id := atom_id a;
     atom_type := atom_type a;
     atom_x := atom_x a;
     atom_y := atom_y a;
     atom_vx := vx;
     atom_vy := vy;
     currentBonds := currentBonds a;
     bondedAtomIds := bondedAtomIds a;
     isDragging := isDragging a;
     fxScale := fxScale a |}.

(** [bondsRef.current.some(b => (b.atom1Id === a && b.atom2Id === n) ||
                                (b.atom1Id === n && b.atom2Id === a))] *)
Definition isBonded (bs : list BondEntity) (a n : string) : bool :=
  existsb (λ b, (String.eqb (atom1Id b) a && String.eqb (atom2Id b) n)
                || (String.eqb (atom1Id b) n && String.eqb (atom2Id b) a)) bs.

(** The callback of [find] in [handlePointerUp]. *)
Definition isNearby (atom target : AtomEntity) : bool :=
  if String.eqb (atom_id target) (atom_id atom) then false
  else dist_lt (atom_x atom) (atom_y atom) (atom_x target) (atom_y target)
               (BOND_DISTANCE + 20).

(** [`${n}`] for an integer [n]. *)
Definition numberToString (n : Z) : string := NilEmpty.string_of_int (Z.to_int n).

(** The "Hint Logic" of the shatter branch. *)
Definition rejectionMessage (atom nearby : AtomEntity) : string :=
  let targetDef := ATOM_DEFS (atom_type nearby) in
  let atomDef := ATOM_DEFS (atom_type atom) in
  if valency targetDef =? currentBonds nearby
  then (AtomType.to_string (symbol targetDef) ++ " is full! (Max "
        ++ numberToString (valency targetDef) ++ ")")%string
  else if valency atomDef =? currentBonds atom
  then (AtomType.to_string (symbol atomDef) ++ " is full!")%string
  else "Bond blocked or invalid!".

Section Trig.

(** [Math.cos], [Math.sin], [Math.atan2] *)
Variables (cos sin : Q → Q) (atan2 : Q → Q → Q).

(** [nudge] holds the two [Math.random()] values read by the "normal
    fling" branch. *)
Definition handlePointerUp (nudge : Q * Q) (s : State) : State * list Effect :=
  match draggedAtom s with
  | Some dragged =>
      if truthy (Some dragged) then
        let released (ats : list AtomEntity) :=
          {| atoms := ats;
             bonds := bonds s;
             bondHistory := bondHistory s;
             lastSpawn := lastSpawn s;
             draggedAtom := None;
             mouse := mouse s;
             dragSessionBondedPairs := dragSessionBondedPairs s;
             gameActive := gameActive s |} in
        match findIndexed (has_id dragged) (atoms s) with
        | Some (i, atom) =>
            let ats1 := alter (setDragging false) i (atoms s) in
            match findIndexed (isNearby atom) ats1 with
            | Some (j, nearby) =>
                if negb (isBonded (bonds s) (atom_id atom) (atom_id nearby)) then
                  let dx := (atom_x atom - atom_x nearby)%Q in
                  let dy := (atom_y atom - atom_y nearby)%Q in
                  let angle := atan2 dy dx in
                  let ats2 := alter (setVelocity (cos angle * 20) (sin angle * 20)) i ats1 in
                  let ats3 := alter (setVelocity (- cos angle * 10) (- sin angle * 10)) j ats2 in
                  (released ats3,
                   [PlaySound "shatter"; ErrorEvent (rejectionMessage atom nearby)])
                else
                  (released (alter (setVelocity ((nudge.1 - (1 # 2)) * 2)
                                                ((nudge.2 - (1 # 2)) * 2)) i ats1),
                   [])
            | None => (released ats1, [])
            end
        | None => (released (atoms s), [])
        end
      else (s, [])
  | None => (s, [])
  end.

(** ** The reset effect and the arena as a transition system *)

(** The effect that runs when [gameActive] becomes false. *)
Definition reset (s : State) : State :=
  {| atoms := [];
     bonds := [];
     bondHistory := [];
     lastSpawn := lastSpawn s;
     draggedAtom := draggedAtom s;
     mouse := mouse s;
     dragSessionBondedPairs := ∅;
     gameActive := false |}.

Definition activate (s : State) : State :=
  {| atoms := atoms s;
     bonds := bonds s;
     bondHistory := bondHistory s;
     lastSpawn := lastSpawn s;
     draggedAtom := draggedAtom s;
     mouse := mouse s;
     dragSessionBondedPairs := dragSessionBondedPairs s;
     gameActive := true |}.

Inductive Event : Type :=
  | Tick (time : Z) (env : TickEnv)
  | PointerDown (rect : option (Q * Q)) (clientX clientY : Q)
  | PointerMove (rect : option (Q * Q)) (clientX clientY : Q)
  | PointerUp (nudge : Q * Q)
  | Undo
  | SetGameActive (active : bool).

Definition step (s : State) (e : Event) : State * list Effect :=
  match e with
  | Tick time env => update time env s
  | PointerDown rect cx cy => (handlePointerDown rect cx cy s, [])
  | PointerMove rect cx cy => (handlePointerMove rect cx cy s, [])
  | PointerUp nudge => handlePointerUp nudge s
  | Undo => (undo s, [])
  | SetGameActive active => (if active then activate s else reset s, [])
  end.

(** The state after a sequence of events, with everything emitted on the
    way. *)
Fixpoint run (s : State) (es : list Event) : State * list Effect :=
  match es with
  | [] => (s, [])
  | e :: es' =>
      let '(s1, effs1) := step s e in
      let '(s2, effs2) := run s1 es' in
      (s2, effs1 ++ effs2)
  end.

(** The arena when the component has mounted. *)
Definition initial : State :=
  {| atoms := [];
     bonds := [];
     bondHistory := [];
     lastSpawn := 0;
     draggedAtom := None;
     mouse := (0%Q, 0%Q);
     dragSessionBondedPairs := ∅;
     gameActive := false |}.

End Trig.

(** * Vocabulary of the properties *)

(** ** The valency cap *)

Definition withinValency (a : AtomEntity) : Prop :=
  currentBonds a ≤ valency (ATOM_DEFS (atom_type a)).

(** ** Sample stores *)

Definition mkAtom (i : string) (ty : AtomType.t) (x y : Q) (n : Z) : AtomEntity :=
  {| atom_id := i; atom_type := ty; atom_x := x; atom_y := y;
     atom_vx := 0; atom_vy := 0; currentBonds := n;
     bondedAtomIds := []; isDragging := false; fxScale := 1 |}.

Definition mkBond (i a b : string) : BondEntity :=
  {| bond_id := i; atom1Id := a; atom2Id := b; stress := 0 |}.

Definition mkState (ats : list AtomEntity) (bs : list BondEntity) (hist : list string)
    (dragged : option string) : State :=
  {| atoms := ats; bonds := bs; bondHistory := hist; lastSpawn := 0;
     draggedAtom := dragged; mouse := (0%Q, 0%Q);
     dragSessionBondedPairs := ∅; gameActive := true |}.

(** An oxygen with one hydrogen; of the three recorded bonds only ["b2"]
    is still in the store. *)
Definition hydroxyl : State :=
  mkState [mkAtom "o1" AtomType.O 100 100 1; mkAtom "h1" AtomType.H 160 100 1]
          [mkBond "b2" "o1" "h1"]
          ["b1"; "b2"; "b3"] None.

(** Two loose atoms and a history whose bonds are all gone. *)
Definition loosePair : State :=
  mkState [mkAtom "o1" AtomType.O 100 100 0; mkAtom "h1" AtomType.H 300 100 0]
          [] ["b1"; "b3"] None.

(** ** Pointer release *)







(** ** Spawning *)

(** A [Math.random()] value. *)
Definition unitInterval (r : Q) : Prop := (0 <= r)%Q ∧ (r < 1)%Q.

Definition validDraws (d : SpawnDraws) : Prop :=
  unitInterval (rnd_type d) ∧ unitInterval (rnd_axis d) ∧ unitInterval (rnd_third d)
  ∧ unitInterval (rnd_fourth d) ∧ unitInterval (rnd_vx d) ∧ unitInterval (rnd_vy d).

(** [a] sits with its centre one radius outside one of the four edges of a
    [width] by [height] arena, anywhere along that edge. *)
Definition justOutsideEdge (width height : Q) (a : AtomEntity) : Prop :=
  let rad := radius (ATOM_DEFS (atom_type a)) in
  ((atom_x a == - rad ∨ atom_x a == width + rad) ∧ 0 <= atom_y a ∧ atom_y a < height)%Q
  ∨ ((atom_y a == - rad ∨ atom_y a == height + rad) ∧ 0 <= atom_x a ∧ atom_x a < width)%Q.

(** The velocity of [a] points into the arena across the edge [a] is
    outside of. *)
Definition movesInward (width height : Q) (a : AtomEntity) : Prop :=
  ((atom_x a < 0 → 0 < atom_vx a) ∧ (width < atom_x a → atom_vx a < 0)
   ∧ (atom_y a < 0 → 0 < atom_vy a) ∧ (height < atom_y a → atom_vy a < 0))%Q.

(** The velocity a spawn gives always points into the arena. *)
Definition spawnsInward : Prop :=
  ∀ time env s s1 a w h,
    spawnStep time env s = Some s1 → atoms s1 = atoms s ++ [a] →
    container env = Some (w, h) → validDraws (draws env) →
    movesInward w h a.

Definition stillPhysics (i : nat) (a : AtomEntity) : Kinematics :=
  {| k_x := atom_x a; k_y := atom_y a; k_vx := atom_vx a; k_vy := atom_vy a;
     k_fxScale := fxScale a |}.

(** Draws that put a hydrogen outside the left edge, moving left. *)
Definition leftOutward : SpawnDraws :=
  {| rnd_type := 0; rnd_axis := 3 # 4; rnd_third := 3 # 4; rnd_fourth := 1 # 2;
     new_atom_id := "k3x9q0a1z"; rnd_vx := 1 # 4; rnd_vy := 1 # 2 |}.

Definition leftOutwardEnv : TickEnv :=
  {| canvas := Some (800%Q, 600%Q); container := Some (800%Q, 600%Q);
     draws := leftOutward; physics := stillPhysics; new_bond_id := "b00000001" |}.

(** ** A short game: two atoms appear, one is dragged onto the other *)

(** Stand-ins for [Math.cos], [Math.sin] and [Math.atan2] in runs that
    never release an atom next to an unbonded one. *)
Definition cos0 : Q → Q := λ _, 1%Q.
Definition sin0 : Q → Q := λ _, 0%Q.
Definition atan20 : Q → Q → Q := λ _ _, 0%Q.

(** The integration leaves the atom at index [i] at rest at
    [(100 + 60 i, 100)]. *)
Definition rowPhysics (i : nat) (a : AtomEntity) : Kinematics :=
  {| k_x := 100 + 60 * inject_Z (Z.of_nat i); k_y := 100; k_vx := 0; k_vy := 0;
     k_fxScale := 1 |}.

Definition arena800 : option (Q * Q) := Some (800%Q, 600%Q).

Definition frame (ty_draw : Q) (atomId bondId : string) : TickEnv :=
  {| canvas := arena800; container := arena800;
     draws := {| rnd_type := ty_draw; rnd_axis := 3 # 4; rnd_third := 3 # 4;
                 rnd_fourth := 1 # 2; new_atom_id := atomId;
                 rnd_vx := 3 # 4; rnd_vy := 1 # 2 |};
     physics := rowPhysics; new_bond_id := bondId |}.

(** The game starts; a hydrogen and then an oxygen appear; the pointer
    goes down on the oxygen; in the next frame the two bond. *)
Definition firstBond : list Event :=
  [SetGameActive true;
   Tick 2000 (frame 0 "h7k2m9q1x" "b00000001");
   Tick 4000 (frame (3 # 11) "o4c8t3w6z" "b00000002");
   PointerDown (Some (0%Q, 0%Q)) 160 100;
   Tick 4016 (frame 0 "unused000" "b5r1v8n2d")].

(** The same game when [uuid()] hands out the empty string for the bond:
    [Math.random()] returned 0, whose base-36 form ["0"] has nothing from
    position 2 on for [substr(2, 9)] to take. *)
Definition emptyIdBond : list Event :=
  [SetGameActive true;
   Tick 2000 (frame 0 "h7k2m9q1x" "b00000001");
   Tick 4000 (frame (3 # 11) "o4c8t3w6z" "b00000002");
   PointerDown (Some (0%Q, 0%Q)) 160 100;
   Tick 4016 (frame 0 "unused000" "")].

(** ** bondedAtomIds *)

(** [bondedAtomIds] lists exactly the ids linked to the atom by a bond
    record. *)
Definition bondedIdsConsistent (s : State) : Prop :=
  ∀ a, a ∈ atoms s →
    ∀ j, j ∈ bondedAtomIds a ↔ isBonded (bonds s) (atom_id a) j = true.

(** ** Drag gestures *)

(** The pair of ids that [e] bonds when it is handled in state [s]. *)
Definition bondMade (s : State) (e : Event) : option (string * string) :=
  match e with
  | Tick time env =>
      s2 ← beforeBondStep time env s;
      match bondAttempt s2 with
      | Some ((_, dragger), (_, neighbor)) => Some (atom_id dragger, atom_id neighbor)
      | None => None
      end
  | _ => None
  end.

(** Two pairs of ids that are the same unordered pair. *)
Definition samePair (p q : string * string) : Prop :=
  p = q ∨ p = (q.2, q.1).

(** The events that can occur while a gesture lasts: every event but a
    pointer-down and a change of [gameActive]. *)
Definition withinGesture (e : Event) : Prop :=
  match e with
  | PointerDown _ _ _ | SetGameActive _ => False
  | _ => True
  end.

Section Gesture.

Variables (cos sin : Q → Q) (atan2 : Q → Q → Q).

(** The pairs bonded by the events [es], handled in order from [s]. *)
Fixpoint bondsMade (s : State) (es : list Event) : list (string * string) :=
  match es with
  | [] => []
  | e :: es' => option_list (bondMade s e) ++ bondsMade (step cos sin atan2 s e).1 es'
  end.

End Gesture.

(** Two oxygens side by side, the second under the pointer. *)
Definition twoOxygens : State :=
  mkState [mkAtom "oa" AtomType.O 100 100 0; mkAtom "ob" AtomType.O 160 100 0]
          [] [] None.

(** The pointer goes down on ["ob"] and three frames pass; it is released,
    goes down again, and a frame passes. *)
Definition dragTwice : list Event :=
  [PointerDown (Some (0%Q, 0%Q)) 160 100;
   Tick 10 (frame 0 "unused000" "b00000001");
   Tick 26 (frame 0 "unused000" "b00000002");
   Tick 42 (frame 0 "unused000" "b00000003");
   PointerUp (1 # 2, 1 # 2);
   PointerDown (Some (0%Q, 0%Q)) 160 100;
   Tick 58 (frame 0 "unused000" "b00000004")].

(** ** The bond graph *)

(** Some bond record joins the ids [i] and [j]. *)
Definition linked (bs : list BondEntity) (i j : string) : Prop :=
  ∃ b, b ∈ bs ∧ ((atom1Id b = i ∧ atom2Id b = j) ∨ (atom1Id b = j ∧ atom2Id b = i)).

(** The bond graph: its vertices are the ids of the stored atoms, its
    edges the bond records between two of them. *)
Definition adjacent (ats : list AtomEntity) (bs : list BondEntity) (i j : string) : Prop :=
  linked bs i j ∧ i ∈ map atom_id ats ∧ j ∈ map atom_id ats.

Definition connected (ats : list AtomEntity) (bs : list BondEntity) : relation string :=
  rtc (adjacent ats bs).

(** [b] is a stored atom of the connected component of [a]. *)
Definition inComponent (ats : list AtomEntity) (bs : list BondEntity)
    (a b : AtomEntity) : Prop :=
  b ∈ ats ∧ connected ats bs (atom_id a) (atom_id b).

(** The component of [a] is a stable molecule: every member is at full
    valency and [a] is not alone in it. *)
Definition stableComponent (ats : list AtomEntity) (bs : list BondEntity)
    (a : AtomEntity) : Prop :=
  (∀ b, inComponent ats bs a b → isFull b = true)
  ∧ (∃ b, inComponent ats bs a b ∧ b ≠ a).

(** The list [c] holds, once each, the atoms of one connected component,
    all of them full, and there are at least two. *)
Definition stableMolecule (ats : list AtomEntity) (bs : list BondEntity)
    (c : list AtomEntity) : Prop :=
  (∃ a, a ∈ c ∧ ∀ b, b ∈ c ↔ inComponent ats bs a b)
  ∧ NoDup c
  ∧ Forall (λ b, isFull b = true) c
  ∧ (2 ≤ length c)%nat.

(** [composition[ty] || 0] *)
Definition countIn (composition : list (AtomType.t * Z)) (ty : AtomType.t) : Z :=
  match List.find (λ p, bool_decide (p.1 = ty)) composition with
  | Some p => p.2
  | None => 0
  end.

(** How many atoms of type [ty] a component has. *)
Definition typeCount (ty : AtomType.t) (component : list AtomEntity) : Z :=
  Z.of_nat (length (List.filter (λ a, bool_decide (atom_type a = ty)) component)).

(** The invariant of the [while] loop that traverses from [a0] when the
    ids in [V0] were visited before: the visited ids are [V0] and those of
    the atoms taken so far or still queued; these atoms are stored, have
    distinct ids outside [V0] and are connected to [a0]; every stored
    neighbour of an atom already taken is visited; and [isStable] tells
    whether all atoms taken so far are full. *)
Definition bfsInvariant (ats : list AtomEntity) (bs : list BondEntity)
    (V0 : gset string) (a0 : AtomEntity) (st : Bfs) : Prop :=
  let seen := bfs_component st ++ bfs_queue st in
  bfs_visited st = V0 ∪ list_to_set (map atom_id seen)
  ∧ NoDup (map atom_id seen)
  ∧ (∀ a, a ∈ seen →
       a ∈ ats ∧ (atom_id a ∉ V0) ∧ connected ats bs (atom_id a0) (atom_id a))
  ∧ (∀ a j, a ∈ bfs_component st → adjacent ats bs (atom_id a) j → j ∈ bfs_visited st)
  ∧ bfs_isStable st = forallb isFull (bfs_component st)
  ∧ a0 ∈ seen.

(** The invariant of the [for] loop of [checkMolecules] once the atoms
    [handled] have been dealt with, [comps] being the components reported so
    far: the effects and the ids marked for removal are those of [comps],
    which are stable molecules without a shared atom; the visited ids are
    closed under adjacency and contain the ids of [handled]; and every stable
    molecule with a visited id is reported. *)
Definition scanInvariant (ats : list AtomEntity) (bs : list BondEntity)
    (handled : list AtomEntity) (comps : list (list AtomEntity)) (sc : Scan) : Prop :=
  scan_effects sc = flat_map report comps
  ∧ scan_toRemove sc = flat_map (map atom_id) comps
  ∧ NoDup (map atom_id (concat comps))
  ∧ (∀ c, c ∈ comps →
       stableMolecule ats bs c ∧ ∀ b, b ∈ c → atom_id b ∈ scan_visited sc)
  ∧ (∀ i j, adjacent ats bs i j → i ∈ scan_visited sc → j ∈ scan_visited sc)
  ∧ (∀ a, a ∈ handled → atom_id a ∈ scan_visited sc)
  ∧ (∀ a, a ∈ ats → atom_id a ∈ scan_visited sc → stableComponent ats bs a →
       ∃ c, c ∈ comps ∧ a ∈ c).

(** ** Bond counts *)

(** How many bond records reference the id [i]. *)
Definition degree (bs : list BondEntity) (i : string) : Z :=
  Z.of_nat (length (List.filter (touches i) bs)).

(** The sum of [currentBonds] over the atoms. *)
Definition totalBonds (ats : list AtomEntity) : Z :=
  foldr (λ a n, currentBonds a + n) 0 ats.

(** The store is consistent: the atoms have distinct ids, every bond joins
    two different stored atoms, and every atom counts the bond records that
    reference it. *)
Definition consistent (s : State) : Prop :=
  NoDup (map atom_id (atoms s))
  ∧ Forall (λ b, atom1Id b ≠ atom2Id b
                 ∧ atom1Id b ∈ map atom_id (atoms s)
                 ∧ atom2Id b ∈ map atom_id (atoms s)) (bonds s)
  ∧ Forall (λ a, currentBonds a = degree (bonds s) (atom_id a)) (atoms s).

(** What the bond bookkeeping and the detector read of an atom. *)
Definition core (a : AtomEntity) : string * Z * AtomType.t :=
  (atom_id a, currentBonds a, atom_type a).

Section Fresh.

Variables (cos sin : Q → Q) (atan2 : Q → Q → Q).

(** [uuid()] gives every frame of the run an atom id that no stored atom
    has at that moment. *)
Fixpoint freshSpawns (s : State) (es : list Event) : Prop :=
  match es with
  | [] => True
  | e :: es' =>
      match e with
      | Tick _ env => new_atom_id (draws env) ∉ map atom_id (atoms s)
      | _ => True
      end
      ∧ freshSpawns (step cos sin atan2 s e).1 es'
  end.

End Fresh.

(** ** Sample molecules *)

(** Water ready to be detected, next to a loose carbon: two hydrogens
    bonded to one oxygen, every slot of the three filled. *)
Definition water : State :=
  mkState [mkAtom "h1" AtomType.H 100 100 1; mkAtom "o1" AtomType.O 160 100 2;
           mkAtom "h2" AtomType.H 220 100 1; mkAtom "c1" AtomType.C 400 300 0]
          [mkBond "b1" "h1" "o1"; mkBond "b2" "o1" "h2"]
          ["b1"; "b2"] (Some "o1").

(** ** Pending molecules *)

(** The component of the id [i] is a stable molecule. *)
Definition stableId (ats : list AtomEntity) (bs : list BondEntity) (i : string) : Prop :=
  (∀ b, b ∈ ats → connected ats bs i (atom_id b) → isFull b = true)
  ∧ (∃ j, j ≠ i ∧ connected ats bs i j).

(** No stored atom is in a stable molecule. *)
Definition noPending (s : State) : Prop :=
  ∀ i, i ∈ map atom_id (atoms s) → ¬ stableId (atoms s) (bonds s) i.

(** The detector finds nothing to do in [s]: the store is as a scan
    leaves it. *)
Definition scanned (s : State) : Prop := checkMolecules s = (s, []).

(** A store with a finished hydrogen molecule that no scan has removed
    yet, next to a hydroxyl group whose bond is the newest of the history. *)
Definition unscanned : State :=
  mkState [mkAtom "ha" AtomType.H 100 100 1; mkAtom "hb" AtomType.H 160 100 1;
           mkAtom "o1" AtomType.O 400 100 1; mkAtom "h1" AtomType.H 460 100 1]
          [mkBond "b1" "ha" "hb"; mkBond "b2" "o1" "h1"]
          ["b1"; "b2"] None.

(** Every well-formed store is scanned once [undo] has handled it. *)
Definition undoFollowedByScan : Prop :=
  ∀ s, consistent s → Forall withinValency (atoms s) → scanned (undo s).

(** * The rest of the arena, the services and the scoreboard

    What the embedding above leaves out of [components/Arena.tsx], with
    the same conventions: steps 2 and 3 of [update] as the code computes
    them, on exact rationals and with [Math.sqrt] as a parameter, so that
    the outcome a frame takes in can be the computed one ([integrated]);
    the particles of [createExplosion] and step 5; the grouping of the
    bonds and the one write to the store of the drawing code of step 6.
    Then the three services of [services/geminiService.ts], with the model
    and [JSON.parse] as parameters that may throw, and the statistics of
    [App.tsx]: the scoreboard fed by the arena and the countdown. *)

From Stdlib Require Import Ascii.
From Stdlib Require Qabs.

(** ** Bond ids and the undo history *)

(** [uuid()] gives every frame of the run a bond id that is not the empty
    string. *)
Definition namedBonds (es : list Event) : Prop :=
  Forall (λ e, match e with
               | Tick _ env => new_bond_id env ≠ ""
               | _ => True
               end) es.

(** The undo history covers the store: the ids of the stored bonds are,
    counted with their multiplicity, among the entries of the history, and
    none of them is the empty string. *)
Definition historyCovers (s : State) : Prop :=
  map bond_id (bonds s) ⊆+ bondHistory s ∧ ("" ∉ map bond_id (bonds s)).

(** Nothing is left of a game. *)
Definition emptied (s : State) : Prop :=
  atoms s = [] ∧ bonds s = [] ∧ bondHistory s = [] ∧ dragSessionBondedPairs s = ∅.

(** The bond records between the ids [a] and [n]; [isBonded] asks whether
    there is one. *)
Definition bondsBetween (bs : list BondEntity) (a n : string) : list BondEntity :=
  List.filter (λ b, (String.eqb (atom1Id b) a && String.eqb (atom2Id b) n)
                    || (String.eqb (atom1Id b) n && String.eqb (atom2Id b) a)) bs.

(** The characters of [uuid()] are digits of base 36; an id has no ['-']. *)
Definition dashFree (i : string) : Prop := "-"%char ∉ list_ascii_of_string i.

(** ** App.tsx: the scoreboard *)

Definition GAME_DURATION : Z := 120.

Record GameStats : Type := {
  score : Z;
  moleculesBuilt : Z;
  timeLeft : Z;
  gameOver : bool
}.

(** The updater of [handleScore], the [onScoreUpdate] of the arena. *)
Definition handleScore (points : Z) (prev : GameStats) : GameStats :=
  {| score := score prev + points;
     moleculesBuilt := moleculesBuilt prev + 1;
     timeLeft := timeLeft prev;
     gameOver := gameOver prev |}.

(** What the events emitted by the arena do to the statistics. *)
Definition scoreboard (effs : list Effect) (st : GameStats) : GameStats :=
  foldl (λ st e, match e with
                 | ScoreUpdate points => handleScore points st
                 | _ => st
                 end) st effs.

(** The points of the [ScoreUpdate] events. *)
Definition pointsOf (effs : list Effect) : Z :=
  foldr (λ e n, match e with
                | ScoreUpdate points => points + n
                | _ => n
                end) 0 effs.

Definition isScoreUpdate (e : Effect) : bool :=
  match e with
  | ScoreUpdate _ => true
  | _ => false
  end.

(** The updater of the one-second interval; the flag tells whether it
    calls [setGameActive(false)]. *)
Definition countdown (prev : GameStats) : GameStats * bool :=
  if timeLeft prev <=? 1
  then ({| score := score prev;
           moleculesBuilt := moleculesBuilt prev;
           timeLeft := 0;
           gameOver := true |}, true)
  else ({| score := score prev;
           moleculesBuilt := moleculesBuilt prev;
           timeLeft := timeLeft prev - 1;
           gameOver := gameOver prev |}, false).

(** One second of the timer effect on [gameActive] and the statistics: the
    interval exists only while [gameActive && stats.timeLeft > 0]. *)
Definition second (g : bool * GameStats) : bool * GameStats :=
  if g.1 && (0 <? timeLeft g.2)
  then let '(st, stop) := countdown g.2 in (if stop then false else g.1, st)
  else g.

(** The statistics that [startGame] sets. *)
Definition freshStats : GameStats :=
  {| score := 0; moleculesBuilt := 0; timeLeft := GAME_DURATION; gameOver := false |}.

(** The second oxygen of [twoOxygens] under the pointer, held. *)
Definition heldOxygen : State := handlePointerDown (Some (0%Q, 0%Q)) 160 100 twoOxygens.

(** [undo] pressed [n] times. *)
Definition undoTimes (n : nat) (s : State) : State := Nat.iter n undo s.

(** A [ScoreUpdate] carries 100 points per atom of a molecule of at least
    two atoms. *)
Definition fairPoints (e : Effect) : Prop :=
  match e with
  | ScoreUpdate points => ∃ k, points = 100 * k ∧ 2 ≤ k
  | _ => True
  end.

(** ** update, steps 2 and 3: the force integration *)

Definition BOND_STRENGTH : Q := 1 # 10.
Definition WORLD_FRICTION : Q := 98 # 100.
Definition REPULSION_FORCE : Q := 5 # 10.

(** The two wall tests of one axis, on the coordinate and the velocity:
    [if (c < lo) { c = lo; v *= -1; } if (c > hi) { c = hi; v *= -1; }] *)
Definition bounce (lo hi : Q) (cv : Q * Q) : Q * Q :=
  let cv1 := if Qltb cv.1 lo then (lo, cv.2 * - (1))%Q else cv in
  if Qltb hi cv1.1 then (hi, cv1.2 * - (1))%Q else cv1.

(** [if (atom.fxScale < 1) atom.fxScale += 0.05] *)
Definition grow (fx : Q) : Q := if Qltb fx 1 then (fx + (5 # 100))%Q else fx.

(** The callback of the [forEach] of step 2, on a canvas of [width] by
    [height] with the pointer at [m]. *)
Definition integrate (width height : Q) (m : Q * Q) (atom : AtomEntity) : AtomEntity :=
  let def := ATOM_DEFS (atom_type atom) in
  let xv :=
    if isDragging atom
    then (atom_x atom, (m.1 - atom_x atom) * (2 # 10))%Q
    else let b := bounce (radius def) (width - radius def) (atom_x atom, atom_vx atom) in
         (b.1, b.2 * WORLD_FRICTION)%Q in
  let yv :=
    if isDragging atom
    then (atom_y atom, (m.2 - atom_y atom) * (2 # 10))%Q
    else let b := bounce (radius def) (height - radius def) (atom_y atom, atom_vy atom) in
         (b.1, b.2 * WORLD_FRICTION)%Q in
  setKinematics {| k_x := xv.1 + xv.2;
                   k_y := yv.1 + yv.2;
                   k_vx := xv.2;
                   k_vy := yv.2;
                   k_fxScale := grow (fxScale atom) |} atom.

(** The pairs [(i, j)] with [i < j < n], in the order of the two nested
    [for] loops of step 3. *)
Definition indexPairs (n : nat) : list (nat * nat) :=
  flat_map (λ i, map (pair i) (seq (Datatypes.S i) (n - Datatypes.S i))) (seq 0 n).

Section Forces.

(** [Math.sqrt] *)
Variable sqrt : Q → Q.

(** The body of the inner loop of step 3 for the atoms at [i] and [j].
    The result is [None] when the spring branch divides by a distance of 0:
    the quotient is then not a number, which the rationals cannot hold. *)
Definition pairForce (bs : list BondEntity) (ats : list AtomEntity) (ij : nat * nat)
    : option (list AtomEntity) :=
  match ats !! ij.1, ats !! ij.2 with
  | Some a, Some b =>
      let dx := (atom_x b - atom_x a)%Q in
      let dy := (atom_y b - atom_y a)%Q in
      let dist := sqrt (dx * dx + dy * dy)%Q in
      if isBonded bs (atom_id a) (atom_id b) then
        if Qeq_bool dist 0 then None
        else
          let offset := (dist - BOND_DISTANCE)%Q in
          let force := (offset * BOND_STRENGTH)%Q in
          let fx := ((dx / dist) * force)%Q in
          let fy := ((dy / dist) * force)%Q in
          let ma := mass (ATOM_DEFS (atom_type a)) in
          let mb := mass (ATOM_DEFS (atom_type b)) in
          let ats1 :=
            if negb (isDragging a)
            then alter (λ a, setVelocity (atom_vx a + fx / ma) (atom_vy a + fy / ma) a) ij.1 ats
            else ats in
          Some (if negb (isDragging b)
                then alter (λ b, setVelocity (atom_vx b - fx / mb) (atom_vy b - fy / mb) b)
                           ij.2 ats1
                else ats1)
      else
        let minDist := (radius (ATOM_DEFS (atom_type a)) + radius (ATOM_DEFS (atom_type b))
                        + 10)%Q in
        if Qltb dist minDist && Qltb 0 dist then
          let force := ((minDist - dist) * REPULSION_FORCE)%Q in
          let fx := ((dx / dist) * force)%Q in
          let fy := ((dy / dist) * force)%Q in
          let ats1 :=
            if negb (isDragging a)
            then alter (λ a, setVelocity (atom_vx a - fx) (atom_vy a - fy) a) ij.1 ats
            else ats in
          Some (if negb (isDragging b)
                then alter (λ b, setVelocity (atom_vx b + fx) (atom_vy b + fy) b) ij.2 ats1
                else ats1)
        else Some ats
  | _, _ => Some ats
  end.

(** Step 3: the two nested loops. *)
Definition forces (bs : list BondEntity) (ats : list AtomEntity) : option (list AtomEntity) :=
  foldl (λ acc ij, ats' ← acc; pairForce bs ats' ij) (Some ats) (indexPairs (length ats)).

(** Steps 2 and 3 on a canvas of size [wh]. *)
Definition integration (wh : Q * Q) (s : State) : option (list AtomEntity) :=
  forces (bonds s) (map (integrate wh.1 wh.2 (mouse s)) (atoms s)).

End Forces.

Definition kinematicsOf (a : AtomEntity) : Kinematics :=
  {| k_x := atom_x a; k_y := atom_y a; k_vx := atom_vx a; k_vy := atom_vy a;
     k_fxScale := fxScale a |}.

(** The outcome of the integration, as a frame takes it in: the atom at
    index [i] gets what the integration left at index [i]. *)
Definition outcome (ats' : list AtomEntity) (i : nat) (a : AtomEntity) : Kinematics :=
  match ats' !! i with
  | Some a' => kinematicsOf a'
  | None => kinematicsOf a
  end.

(** The frame [env] with the integration replaced by [phys]. *)
Definition withPhysics (phys : nat → AtomEntity → Kinematics) (env : TickEnv) : TickEnv :=
  {| canvas := canvas env;
     container := container env;
     draws := draws env;
     physics := phys;
     new_bond_id := new_bond_id env |}.

(** The two atoms are the same but for position, velocity and [fxScale]. *)
Definition sameButKinematics (a a' : AtomEntity) : Prop :=
  atom_id a' = atom_id a ∧ atom_type a' = atom_type a
  ∧ currentBonds a' = currentBonds a ∧ bondedAtomIds a' = bondedAtomIds a
  ∧ isDragging a' = isDragging a.

(** A stand-in for [Math.sqrt] that is exact on the squares of the
    naturals. *)
Definition sqrtFloor (q : Q) : Q := inject_Z (Z.sqrt (Qfloor q)).

(** Step 6, "Draw Atoms": the one write of the drawing code to the store,
    [if (atom.fxScale > 1.1) atom.fxScale -= 0.02]. *)
Definition settle (a : AtomEntity) : AtomEntity :=
  setKinematics {| k_x := atom_x a; k_y := atom_y a; k_vx := atom_vx a; k_vy := atom_vy a;
                   k_fxScale := if Qltb (11 # 10) (fxScale a)
                                then (fxScale a - (2 # 100))%Q else fxScale a |} a.

Section Integrated.

Variables (cos sin : Q → Q) (atan2 : Q → Q → Q) (sqrt : Q → Q).

(** Every frame of the run takes in what steps 2 and 3 compute on the
    store they find. *)
Fixpoint integrated (s : State) (es : list Event) : Prop :=
  match es with
  | [] => True
  | e :: es' =>
      match e with
      | Tick time env =>
          ∀ wh s1, gameActive s = true → canvas env = Some wh →
                   spawnStep time env s = Some s1 →
                   ∃ ats', integration sqrt wh s1 = Some ats'
                           ∧ ∀ i a, atoms s1 !! i = Some a →
                                    physics env i a = outcome ats' i a
      | _ => True
      end
      ∧ integrated (step cos sin atan2 s e).1 es'
  end.

End Integrated.

(** [a'] is [a] with another velocity; with the same, if [a] is being
    dragged. *)
Definition pushed (a a' : AtomEntity) : Prop :=
  (∃ vx vy, a' = setVelocity vx vy a) ∧ (isDragging a = true → a' = a).

(** [Math.sqrt(dx * dx + dy * dy)] for the vector from [a] to [b]. *)
Definition distance (sqrt : Q → Q) (a b : AtomEntity) : Q :=
  sqrt ((atom_x b - atom_x a) * (atom_x b - atom_x a)
        + (atom_y b - atom_y a) * (atom_y b - atom_y a))%Q.

(** The range of [fxScale] in the store. *)
Definition fxSettled (a : AtomEntity) : Prop := (0 <= fxScale a ∧ fxScale a < 21 # 20)%Q.

(** The frame [env] at [time] in state [s], taking in what steps 2 and 3
    compute (with [sqrtFloor] for the square root). *)
Definition integratedFrame (time : Z) (env : TickEnv) (s : State) : TickEnv :=
  match canvas env, spawnStep time env s with
  | Some wh, Some s1 =>
      match integration sqrtFloor wh s1 with
      | Some ats' => withPhysics (outcome ats') env
      | None => env
      end
  | _, _ => env
  end.

(** A hydrogen that has crossed the left wall of the canvas, still moving
    left. *)
Definition stray : AtomEntity :=
  {| atom_id := "h1"; atom_type := AtomType.H; atom_x := 15; atom_y := 300;
     atom_vx := - (2); atom_vy := 1; currentBonds := 0; bondedAtomIds := [];
     isDragging := false; fxScale := 19 # 20 |}.

(** The stray hydrogen, and an oxygen that is dragged towards the pointer. *)
Definition inFlight : State :=
  {| atoms := [ stray;
                {| atom_id := "o1"; atom_type := AtomType.O; atom_x := 400; atom_y := 300;
                   atom_vx := 0; atom_vy := 0; currentBonds := 0; bondedAtomIds := [];
                   isDragging := true; fxScale := 1 |} ];
     bonds := []; bondHistory := []; lastSpawn := 0; draggedAtom := Some "o1";
     mouse := (500%Q, 200%Q); dragSessionBondedPairs := ∅; gameActive := true |}.

(** The game starts, a hydrogen appears and two frames pass, each taking
    in what steps 2 and 3 compute. *)
Definition settledRun : list Event :=
  let s0 := activate initial in
  let env1 := integratedFrame 2000 (frame 0 "h7k2m9q1x" "b00000001") s0 in
  let s1 := (update 2000 env1 s0).1 in
  let env2 := integratedFrame 2016 (frame 0 "unused000" "b00000002") s1 in
  [SetGameActive true; Tick 2000 env1; Tick 2016 env2].

(** ** Particles: createExplosion and step 5 of update *)

Record Particle : Type := {
  particle_id : string;
  particle_x : Q;
  particle_y : Q;
  particle_vx : Q;
  particle_vy : Q;
  life : Q;
  maxLife : Q;
  particle_color : string;
  particle_size : Q
}.

(** What [createExplosion] draws for one particle, in the order of the
    calls: [uuid()], then [Math.random()] for [vx], [vy], the colour (read
    only when [isShatter]) and the size. *)
Record ParticleDraws : Type := {
  new_particle_id : string;
  rnd_pvx : Q;
  rnd_pvy : Q;
  rnd_shade : Q;
  rnd_size : Q
}.

Definition createExplosion (x y : Q) (color : string) (isShatter : bool)
    (draw : nat → ParticleDraws) (particles : list Particle) : list Particle :=
  let count := if isShatter then 20%nat else 15%nat in
  let speed : Q := if isShatter then 15%Q else 10%Q in
  particles
  ++ map (λ i, {| particle_id := new_particle_id (draw i);
                  particle_x := x;
                  particle_y := y;
                  particle_vx := (rnd_pvx (draw i) - (1 # 2)) * speed;
                  particle_vy := (rnd_pvy (draw i) - (1 # 2)) * speed;
                  life := 1;
                  maxLife := 1;
                  particle_color :=
                    if isShatter
                    then (if Qltb (1 # 2) (rnd_shade (draw i)) then "#EF4444" else "#FFFFFF")
                    else color;
                  particle_size := rnd_size (draw i) * 5 + 2 |})
         (seq 0 count).

(** The callback of the [forEach] of step 5. *)
Definition drift (p : Particle) : Particle :=
  {| particle_id := particle_id p;
     particle_x := particle_x p + particle_vx p;
     particle_y := particle_y p + particle_vy p;
     particle_vx := particle_vx p;
     particle_vy := particle_vy p;
     life := life p - (2 # 100);
     maxLife := maxLife p;
     particle_color := particle_color p;
     particle_size := particle_size p * (95 # 100) |}.

(** Step 5: the dead particles are dropped, the others move and fade. *)
Definition particleStep (particles : list Particle) : list Particle :=
  map drift (List.filter (λ p, Qltb 0 (life p)) particles).

(** The draws of [createExplosion] are values of [Math.random()]. *)
Definition validParticleDraws (draw : nat → ParticleDraws) : Prop :=
  ∀ i, unitInterval (rnd_pvx (draw i)) ∧ unitInterval (rnd_pvy (draw i))
       ∧ unitInterval (rnd_shade (draw i)) ∧ unitInterval (rnd_size (draw i)).

(** A particle as [createExplosion] makes it at [(x, y)]. *)
Definition sparkAt (x y : Q) (color : string) (isShatter : bool) (p : Particle) : Prop :=
  let half : Q := if isShatter then (15 # 2)%Q else 5%Q in
  particle_x p = x ∧ particle_y p = y ∧ life p = 1%Q ∧ maxLife p = 1%Q
  ∧ (- half <= particle_vx p ∧ particle_vx p < half)%Q
  ∧ (- half <= particle_vy p ∧ particle_vy p < half)%Q
  ∧ (2 <= particle_size p ∧ particle_size p < 7)%Q
  ∧ (if isShatter
     then particle_color p = "#EF4444" ∨ particle_color p = "#FFFFFF"
     else particle_color p = color).

Definition steadyDraw (i : nat) : ParticleDraws :=
  {| new_particle_id := "p00000000"; rnd_pvx := 3 # 4; rnd_pvy := 1 # 4;
     rnd_shade := 3 # 4; rnd_size := 1 # 2 |}.

(** ** services/geminiService.ts *)

(** The outcome of a call that can throw (of a promise that can reject). *)
Inductive Outcome (A : Type) : Type :=
  | Returned (a : A)
  | Thrown.

Arguments Returned {A} a.
Arguments Thrown {A}.

(** [try { body } catch { handler }] *)
Definition tryCatch {A : Type} (body handler : Outcome A) : Outcome A :=
  match body with
  | Returned a => Returned a
  | Thrown => handler
  end.

Definition andThen {A B : Type} (o : Outcome A) (f : A → Outcome B) : Outcome B :=
  match o with
  | Returned a => f a
  | Thrown => Thrown
  end.

(** What a prompt of the service carries; the rest of each prompt is a
    fixed text. *)
Inductive Request : Type :=
  | IdentifyRequest (compString : string)
  | ChallengeRequest (difficulty : Z)
  | HintRequest (counts : list (AtomType.t * Z)).

Record MoleculeResult : Type := {
  name : string;
  formula : string;
  fact : string
}.

(** What [identifyMoleculeWithGemini] resolves to: [null], the value that
    [JSON.parse] returned (it is not validated), or the fallback record. *)
Inductive Identified (J : Type) : Type :=
  | NoAnswer
  | Parsed (j : J)
  | Fallback (m : MoleculeResult).

Arguments NoAnswer {J}.
Arguments Parsed {J} j.
Arguments Fallback {J} m.

(** [Object.entries(composition).map(([el, count]) => `${el}:${count}`).join(', ')] *)
Definition compString (composition : list (AtomType.t * Z)) : string :=
  String.concat ", "
    (map (λ p, (AtomType.to_string p.1 ++ ":" ++ numberToString p.2)%string) composition).

Section Gemini.

(** [ai.models.generateContent], up to the [text] of the response (which
    can be [undefined]); [JSON.parse]; [String.prototype.trim]. *)
Variable generateContent : Request → Outcome (option string).
Context {J : Type}.
Variable JSON_parse : string → Outcome J.
Variable trim : string → string.

Definition identifyMoleculeWithGemini (composition : list (AtomType.t * Z))
    : Outcome (Identified J) :=
  tryCatch
    (andThen (generateContent (IdentifyRequest (compString composition))) (λ text,
       match text with
       | Some t => if truthy (Some t)
                   then andThen (JSON_parse t) (λ j, Returned (Parsed j))
                   else Returned NoAnswer
       | None => Returned NoAnswer
       end))
    (Returned (Fallback {| name := "Unknown Molecule";
                           formula := "???";
                           fact := "A mysterious bond formed in the void." |})).

Definition getLevelChallenge (difficulty : Z) : Outcome string :=
  tryCatch
    (andThen (generateContent (ChallengeRequest difficulty)) (λ text,
       Returned (if truthy text then default "" text else "Bond atoms to survive!")))
    (Returned "Bond atoms together to create stable molecules!").

(** The [reduce] of [getRecipeHint]. *)
Definition recipeCounts (availableAtoms : list AtomType.t) : list (AtomType.t * Z) :=
  foldl (λ acc ty, bump ty acc) [] availableAtoms.

(** [availableAtoms] is what the arena's [getAtomTypes] returns. *)
Definition getRecipeHint (availableAtoms : list AtomType.t) : Outcome string :=
  if (length availableAtoms =? 0)%nat then Returned "Wait for atoms to spawn!"
  else
    tryCatch
      (andThen (generateContent (HintRequest (recipeCounts availableAtoms))) (λ text,
         let trimmed := trim <$> text in
         Returned (if truthy trimmed then default "" trimmed
                   else "Try connecting different atoms!")))
      (Returned "Experiment with bonds!").

End Gemini.

(** [getAtomTypes] of the arena's handle. *)
Definition getAtomTypes (s : State) : list AtomType.t := map atom_type (atoms s).

(** The sum of the counts of a composition. *)
Definition totalCount (composition : list (AtomType.t * Z)) : Z :=
  foldr (λ p n, p.2 + n) 0 composition.

(** ** update, step 6: the lines of the bonds *)





Section Lines.

(** [Math.sqrt] *)
Variable sqrt : Q → Q.






End Lines.




(** ** The dragging flags *)

(** Every atom that is flagged as dragged is the one that the drag
    reference names. *)
Definition tracked (s : State) : Prop :=
  ∀ a, a ∈ atoms s → isDragging a = true → draggedAtom s = Some (atom_id a).

Section Pointer.

Variables (cos sin : Q → Q) (atan2 : Q → Q → Q).

(** Input from a single pointer: it goes down only when nothing is held. *)
Fixpoint freeHand (s : State) (es : list Event) : Prop :=
  match es with
  | [] => True
  | e :: es' =>
      match e with
      | PointerDown _ _ _ => draggedAtom s = None
      | _ => True
      end
      ∧ freeHand (step cos sin atan2 s e).1 es'
  end.

End Pointer.

(** Two pointers: the second goes down on ["oa"] while ["ob"] is held, then
    both are lifted. *)
Definition twoPointers : list Event :=
  [PointerDown (Some (0%Q, 0%Q)) 160 100;
   PointerDown (Some (0%Q, 0%Q)) 100 100;
   PointerUp (1 # 2, 1 # 2);
   PointerUp (1 # 2, 1 # 2)].

(** * Properties *)

Arguments truthy : simpl never.

(** ** Searching an array *)

Lemma findFrom_Some {A : Type} (p : A → bool) (l : list A) (i k : nat) (a : A) :
  findFrom p i l = Some (k, a) →
  ∃ n : nat, k = (i + n)%nat ∧ l !! n = Some a ∧ p a = true
             ∧ ∀ (m : nat) (b : A), (m < n)%nat → l !! m = Some b → p b = false.
Proof.
  revert i. induction l as [|x l IH]; intros i Hf; simpl in Hf; [discriminate|].
  destruct (p x) eqn:Hpx.
  - inversion Hf; subst. exists 0%nat. repeat split; [lia|done|]. intros m b Hm; lia.
  - destruct (IH _ Hf) as (n & -> & Hn & Hpa & Hmin).
    exists (Datatypes.S n). repeat split; [lia|done|done|].
    intros [|m] b Hm Hb; simpl in Hb.
    + congruence.
    + apply (Hmin m); [lia|done].
Qed.

Lemma findIndexed_Some {A : Type} (p : A → bool) (l : list A) (k : nat) (a : A) :
  findIndexed p l = Some (k, a) →
  l !! k = Some a ∧ p a = true
  ∧ ∀ (m : nat) (b : A), (m < k)%nat → l !! m = Some b → p b = false.
Proof.
  intros Hf. destruct (findFrom_Some _ _ _ _ _ Hf) as (n & -> & ?). done.
Qed.

Lemma findFrom_None {A : Type} (p : A → bool) (l : list A) (i : nat) :
  findFrom p i l = None ↔ ∀ a, a ∈ l → p a = false.
Proof.
  revert i. induction l as [|x l IH]; intros i; simpl.
  - split; [|done]. intros _ a Ha. by apply elem_of_nil in Ha.
  - destruct (p x) eqn:Hpx.
    + split; [done|]. intros Hall. rewrite Hall in Hpx; [done|]. by left.
    + rewrite IH. split.
      * intros Hall a Ha. apply elem_of_cons in Ha as [->|Ha]; auto.
      * intros Hall a Ha. apply Hall. by right.
Qed.

Lemma findIndexed_None {A : Type} (p : A → bool) (l : list A) :
  findIndexed p l = None ↔ ∀ a, a ∈ l → p a = false.
Proof. apply findFrom_None. Qed.

Lemma findFrom_first {A : Type} (p : A → bool) (l : list A) (i n : nat) (a : A) :
  l !! n = Some a → p a = true →
  (∀ (m : nat) (b : A), (m < n)%nat → l !! m = Some b → p b = false) →
  findFrom p i l = Some ((i + n)%nat, a).
Proof.
  revert i n. induction l as [|x l IH]; intros i n Hn Hp Hmin; [done|].
  destruct n as [|n]; simpl in *.
  - inversion Hn; subst. rewrite Hp. do 2 f_equal. lia.
  - rewrite (Hmin 0%nat x); [|lia|done].
    rewrite (IH (Datatypes.S i) n); [do 2 f_equal; lia|done|done|].
    intros m b Hm Hb. apply (Hmin (Datatypes.S m)); [lia|done].
Qed.

Lemma findIndexed_first {A : Type} (p : A → bool) (l : list A) (n : nat) (a : A) :
  l !! n = Some a → p a = true →
  (∀ (m : nat) (b : A), (m < n)%nat → l !! m = Some b → p b = false) →
  findIndexed p l = Some (n, a).
Proof. intros. by apply (findFrom_first p l 0%nat n). Qed.

Lemma findAtom_Some (ats : list AtomEntity) (i : string) (a : AtomEntity) :
  findAtom ats i = Some a → a ∈ ats ∧ atom_id a = i.
Proof.
  unfold findAtom. destruct (findIndexed (has_id i) ats) as [[k b]|] eqn:Hf; [|done].
  intros [= ->]. apply findIndexed_Some in Hf as (Hk & Hid & _).
  split; [by eapply list_elem_of_lookup_2|]. by apply String.eqb_eq.
Qed.

Lemma findAtom_None (ats : list AtomEntity) (i : string) :
  findAtom ats i = None ↔ i ∉ map atom_id ats.
Proof.
  unfold findAtom. destruct (findIndexed (has_id i) ats) as [[k b]|] eqn:Hf; simpl.
  - split; [done|]. intros Hn. exfalso. apply Hn.
    apply findIndexed_Some in Hf as (Hk & Hid & _).
    apply String.eqb_eq in Hid as <-.
    apply list_elem_of_fmap. exists b. split; [done|]. by eapply list_elem_of_lookup_2.
  - split; [|done]. intros _ Hin. apply list_elem_of_fmap in Hin as (a & -> & Ha).
    rewrite findIndexed_None in Hf. specialize (Hf a Ha).
    unfold has_id in Hf. by rewrite String.eqb_refl in Hf.
Qed.

(** ** Properties of the stored atoms that every operation keeps *)

Lemma valency_pos (ty : AtomType.t) : 1 ≤ valency (ATOM_DEFS ty).
Proof. destruct ty; simpl; lia. Qed.

Lemma bondAttempt_Some (s : State) (i j : nat) (dragger neighbor : AtomEntity) :
  bondAttempt s = Some ((i, dragger), (j, neighbor)) →
  atoms s !! i = Some dragger ∧ atoms s !! j = Some neighbor ∧ i ≠ j
  ∧ atom_id dragger ≠ atom_id neighbor
  ∧ draggedAtom s = Some (atom_id dragger)
  ∧ currentBonds dragger < valency (ATOM_DEFS (atom_type dragger))
  ∧ currentBonds neighbor < valency (ATOM_DEFS (atom_type neighbor))
  ∧ pairKey (atom_id dragger) (atom_id neighbor) ∉ dragSessionBondedPairs s.
Proof.
  unfold bondAttempt. intros Hb.
  destruct (draggedAtom s) as [dragged|]; [|done].
  destruct (truthy (Some dragged)); [|done].
  destruct (findIndexed (has_id dragged) (atoms s)) as [[i' d]|] eqn:Hd; [|done].
  destruct (currentBonds d <? valency (ATOM_DEFS (atom_type d))) eqn:Hcap; [|done].
  destruct (findIndexed (isCandidate (dragSessionBondedPairs s) d) (atoms s))
    as [[j' n]|] eqn:Hn; [|done].
  inversion Hb; subst; clear Hb.
  apply findIndexed_Some in Hd as (Hi & Hid & _).
  apply findIndexed_Some in Hn as (Hj & Hc & _).
  apply String.eqb_eq in Hid. apply Z.ltb_lt in Hcap.
  unfold isCandidate in Hc.
  destruct (String.eqb (atom_id neighbor) (atom_id dragger)) eqn:Hne; [done|].
  apply String.eqb_neq in Hne.
  destruct (valency (ATOM_DEFS (atom_type neighbor)) <=? currentBonds neighbor) eqn:Hfull; [done|].
  apply Z.leb_gt in Hfull.
  apply andb_true_iff in Hc as [_ Hsess].
  apply negb_true_iff, bool_decide_eq_false in Hsess.
  repeat split; try done; congruence.
Qed.

Lemma checkMolecules_atoms_sub (s : State) (a : AtomEntity) :
  a ∈ atoms (checkMolecules s).1 → a ∈ atoms s.
Proof.
  unfold checkMolecules. case_match; simpl; [|done].
  rewrite list_elem_of_In, filter_In, <- list_elem_of_In. tauto.
Qed.

Lemma undo_atoms (s : State) : atoms (undo s) = (undoLoop (rev (bondHistory s)) (atoms s) (bonds s)).1.2.
Proof. unfold undo. by destruct (undoLoop _ _ _) as [[? ?] ?]. Qed.

Lemma undo_bonds (s : State) : bonds (undo s) = (undoLoop (rev (bondHistory s)) (atoms s) (bonds s)).2.
Proof. unfold undo. by destruct (undoLoop _ _ _) as [[? ?] ?]. Qed.

Section Arena.

Variables (cos sin : Q → Q) (atan2 : Q → Q → Q).

(** An invariant of every step is an invariant of every run. *)
Lemma run_invariant (P : State → Prop) :
  (∀ s e, P s → P (step cos sin atan2 s e).1) →
  ∀ es s, P s → P (run cos sin atan2 s es).1.
Proof.
  intros Hstep es. induction es as [|e es IH]; intros s Hs; simpl; [done|].
  specialize (Hstep s e Hs). destruct (step cos sin atan2 s e) as [s1 effs1].
  specialize (IH s1 Hstep). by destruct (run cos sin atan2 s1 es).
Qed.

Section StoredAtoms.

(** [P] holds of a fresh atom and survives every write the arena makes to
    an atom; a bond is only ever added to an atom with a free slot. *)
Variable P : AtomEntity → Prop.
Hypothesis P_fresh : ∀ a, currentBonds a = 0 → bondedAtomIds a = [] → P a.
Hypothesis P_kinematics : ∀ k a, P a → P (setKinematics k a).
Hypothesis P_incr :
  ∀ a, P a → currentBonds a < valency (ATOM_DEFS (atom_type a)) → P (incrBonds a).
Hypothesis P_decr : ∀ a, P a → P (decrBonds a).
Hypothesis P_grab : ∀ a, P a → P (grab a).
Hypothesis P_dragging : ∀ d a, P a → P (setDragging d a).
Hypothesis P_velocity : ∀ vx vy a, P a → P (setVelocity vx vy a).

Local Abbreviation stored s := (Forall P (atoms s)).

Lemma stored_alter (f : AtomEntity → AtomEntity) (k : nat) (l : list AtomEntity) :
  (∀ a, P a → P (f a)) → Forall P l → Forall P (alter f k l).
Proof. intros Hf Hl. apply Forall_alter; auto. Qed.

Lemma stored_checkMolecules (s : State) : stored s → stored (checkMolecules s).1.
Proof.
  rewrite !Forall_forall. intros Hs a Ha.
  by apply Hs, checkMolecules_atoms_sub.
Qed.

Lemma stored_createBond (s : State) (bid : string) (i j : nat) (dragger neighbor : AtomEntity) :
  bondAttempt s = Some ((i, dragger), (j, neighbor)) →
  stored s → stored (createBond bid i j dragger neighbor s).
Proof.
  intros Hb Hs. apply bondAttempt_Some in Hb as (Hi & Hj & Hij & _ & _ & Hd & Hn & _).
  unfold createBond; simpl.
  apply Forall_alter.
  - apply Forall_alter; [done|]. intros x Hx Px. rewrite Hi in Hx. inversion Hx; subst.
    by apply P_incr.
  - intros x Hx Px. rewrite list_lookup_alter_ne in Hx by done.
    rewrite Hj in Hx. inversion Hx; subst. by apply P_incr.
Qed.

Lemma stored_bondStep (env : TickEnv) (s : State) : stored s → stored (bondStep env s).1.
Proof.
  intros Hs. unfold bondStep.
  destruct (bondAttempt s) as [[[i d] [j n]]|] eqn:Hb; [|done].
  pose proof (stored_checkMolecules _ (stored_createBond s (new_bond_id env) _ _ _ _ Hb Hs)) as Hc.
  by destruct (checkMolecules _).
Qed.

Lemma stored_spawnStep (time : Z) (env : TickEnv) (s s1 : State) :
  spawnStep time env s = Some s1 → stored s → stored s1.
Proof.
  unfold spawnStep. case_match; [|by intros [= <-]].
  unfold spawnAtom. destruct (container env) as [[w h]|]; simpl.
  - destruct (pickType _) as [ty|]; simpl; [|done].
    destruct (spawnPosition _ _ _ _) as [x y]. intros [= <-] Hs.
    simpl. apply Forall_app. split; [done|].
    apply Forall_singleton. by apply P_fresh.
  - by intros [= <-].
Qed.

Lemma stored_physicsStep (env : TickEnv) (s : State) : stored s → stored (physicsStep env s).
Proof.
  unfold physicsStep; simpl. rewrite !Forall_lookup.
  intros Hs i a. rewrite list_lookup_imap.
  destruct (atoms s !! i) as [b|] eqn:Hb; [|done]. simpl. intros [= <-].
  apply P_kinematics. by apply (Hs i b).
Qed.

Lemma stored_update (time : Z) (env : TickEnv) (s : State) :
  stored s → stored (update time env s).1.
Proof.
  intros Hs. unfold update, beforeBondStep.
  destruct (negb (gameActive s)); [done|].
  destruct (canvas env); [|done].
  destruct (spawnStep time env s) as [s1|] eqn:Hsp; [|done]. simpl.
  by eapply stored_bondStep, stored_physicsStep, stored_spawnStep.
Qed.

Lemma stored_decrFound (i : string) (ats : list AtomEntity) :
  Forall P ats → Forall P (decrFound i ats).
Proof.
  intros Hats. unfold decrFound.
  destruct (findIndexed (has_id i) ats) as [[k a]|]; [|done].
  by apply stored_alter.
Qed.

Lemma stored_undoLoop (stack : list string) (ats : list AtomEntity) (bs : list BondEntity) :
  Forall P ats → Forall P (undoLoop stack ats bs).1.2.
Proof.
  induction stack as [|b stack IH]; intros Hats; simpl; [done|].
  destruct (findIndexed (hasBondId b) bs) as [[k bond]|]; [|by apply IH].
  destruct (truthy (Some b)); [|by apply IH]. simpl.
  by do 2 apply stored_decrFound.
Qed.

Lemma stored_undo (s : State) : stored s → stored (undo s).
Proof. rewrite undo_atoms. apply stored_undoLoop. Qed.

Lemma stored_handlePointerDown (rect : option (Q * Q)) (cx cy : Q) (s : State) :
  stored s → stored (handlePointerDown rect cx cy s).
Proof.
  unfold handlePointerDown. destruct rect as [[l t]|]; [|done].
  destruct (findIndexed _ _) as [[k c]|]; [|done].
  simpl. intros Hs. by apply stored_alter.
Qed.

Lemma stored_handlePointerUp (nudge : Q * Q) (s : State) :
  stored s → stored (handlePointerUp cos sin atan2 nudge s).1.
Proof.
  unfold handlePointerUp. intros Hs.
  destruct (draggedAtom s) as [d|]; [|done].
  destruct (truthy (Some d)); [|done].
  destruct (findIndexed (has_id d) (atoms s)) as [[i a]|]; [|done].
  destruct (findIndexed (isNearby a) _) as [[j n]|].
  - destruct (negb _); simpl; repeat apply stored_alter; auto.
  - simpl. apply stored_alter; auto.
Qed.

Lemma stored_step (s : State) (e : Event) :
  stored s → stored (step cos sin atan2 s e).1.
Proof.
  intros Hs. destruct e as [time env|rect cx cy|rect cx cy|nudge| |active]; simpl.
  - by apply stored_update.
  - by apply stored_handlePointerDown.
  - unfold handlePointerMove. by destruct rect as [[? ?]|].
  - by apply stored_handlePointerUp.
  - by apply stored_undo.
  - destruct active; [done|]. by apply Forall_nil_2.
Qed.

Lemma stored_run (es : list Event) (a : AtomEntity) :
  a ∈ atoms (run cos sin atan2 initial es).1 → P a.
Proof.
  intros Ha.
  pose proof (run_invariant (λ s, stored s) stored_step es initial (Forall_nil_2 _)) as Hst.
  simpl in Hst. rewrite Forall_forall in Hst. by apply Hst.
Qed.

End StoredAtoms.

(** C1.  In every state the arena reaches, no atom holds more bonds than
    the valency of its type; and step 4 of a frame picks a pair to bond
    only when the dragged atom and the chosen neighbour both have a free
    slot, a frame that picks no pair leaving the store as it was. *)
Theorem valency_never_exceeded (es : list Event) :
  (∀ a, a ∈ atoms (run cos sin atan2 initial es).1 →
        currentBonds a ≤ valency (ATOM_DEFS (atom_type a)))
  ∧ (∀ s i j dragger neighbor,
        bondAttempt s = Some ((i, dragger), (j, neighbor)) →
        atoms s !! i = Some dragger ∧ atoms s !! j = Some neighbor
        ∧ currentBonds dragger < valency (ATOM_DEFS (atom_type dragger))
        ∧ currentBonds neighbor < valency (ATOM_DEFS (atom_type neighbor)))
  ∧ (∀ env s, bondAttempt s = None → bondStep env s = (s, [])).
Proof.
  split; [|split].
  - apply (stored_run withinValency); unfold withinValency; simpl; try done.
    + intros a -> _. pose proof (valency_pos (atom_type a)). lia.
    + intros a. lia.
    + intros a. pose proof (valency_pos (atom_type a)). lia.
  - intros s i j d n Hb. apply bondAttempt_Some in Hb. tauto.
  - intros env s Hb. unfold bondStep. by rewrite Hb.
Qed.

(** C8, as the code has it.  No operation of the arena writes
    [bondedAtomIds]: in every state the arena reaches the field is the
    empty array it was created with, for every atom, whatever bonds the
    atom has.  Which atoms are linked is recorded by the bond records
    alone. *)
Theorem bondedAtomIds_never_written (es : list Event) (a : AtomEntity) :
  a ∈ atoms (run cos sin atan2 initial es).1 → bondedAtomIds a = [].
Proof. by apply (stored_run (λ a, bondedAtomIds a = [])). Qed.

End Arena.

(** ** undo *)

Lemma findBond_None (bs : list BondEntity) (i : string) :
  i ∉ map bond_id bs → findIndexed (hasBondId i) bs = None.
Proof.
  intros Hn. apply findIndexed_None. intros b Hb.
  unfold hasBondId. apply String.eqb_neq. intros Heq. apply Hn.
  apply list_elem_of_fmap. by exists b.
Qed.

Lemma undoLoop_skip (stale rest : list string) (ats : list AtomEntity) (bs : list BondEntity) :
  (∀ i, i ∈ stale → i ∉ map bond_id bs) →
  undoLoop (stale ++ rest) ats bs = undoLoop rest ats bs.
Proof.
  induction stale as [|i stale IH]; intros Hstale; simpl; [done|].
  rewrite findBond_None by (apply Hstale; by left).
  apply IH. intros j Hj. apply Hstale. by right.
Qed.

Lemma undoLoop_exhausted (stack : list string) (ats : list AtomEntity) (bs : list BondEntity) :
  (∀ i, i ∈ stack → i ∉ map bond_id bs) →
  undoLoop stack ats bs = ([], ats, bs).
Proof.
  intros Hstale. rewrite <- (app_nil_r stack). by rewrite undoLoop_skip.
Qed.

Lemma truthy_nonempty (i : string) : i ≠ "" → truthy (Some i) = true.
Proof. intros Hi. unfold truthy. by apply negb_true_iff, String.eqb_neq. Qed.

(** [undo] on ids that are not empty.  It walks the history from its
    newest entry.  Entries whose bond is no longer in the store are
    dropped; at the first entry [id] whose bond record [bond] is still
    there (the first record with that id, at index [k]) it decrements the
    two atoms found under the bond's endpoint ids, never below 0, removes
    that one record, keeps the older entries and stops, provided [id] is
    not the empty string: the test of line 144 is
    [bondIndex !== -1 && lastBondId], and the empty string is falsy.  When
    no entry has a bond left, the atoms and bonds are untouched and the
    history ends up empty.  [undo] is a total function: it cannot throw.
    The last part spells out [decrFound]: the first atom with the id gets
    [max 0 (currentBonds - 1)], the others are left as they are. *)
Theorem undo_newest_extant_bond (s : State) :
  (∀ older newer id k bond,
      bondHistory s = older ++ id :: newer →
      Forall (λ i, i ∉ map bond_id (bonds s)) newer →
      id ≠ "" →
      bonds s !! k = Some bond → bond_id bond = id →
      Forall (λ b, bond_id b ≠ id) (take k (bonds s)) →
      undo s =
        {| atoms := decrFound (atom2Id bond) (decrFound (atom1Id bond) (atoms s));
           bonds := delete k (bonds s);
           bondHistory := older;
           lastSpawn := lastSpawn s;
           draggedAtom := draggedAtom s;
           mouse := mouse s;
           dragSessionBondedPairs := dragSessionBondedPairs s;
           gameActive := gameActive s |})
  ∧ (Forall (λ i, i ∉ map bond_id (bonds s)) (bondHistory s) →
      undo s =
        {| atoms := atoms s;
           bonds := bonds s;
           bondHistory := [];
           lastSpawn := lastSpawn s;
           draggedAtom := draggedAtom s;
           mouse := mouse s;
           dragSessionBondedPairs := dragSessionBondedPairs s;
           gameActive := gameActive s |})
  ∧ (∀ i ats k a,
      ats !! k = Some a → atom_id a = i →
      Forall (λ x, atom_id x ≠ i) (take k ats) →
      decrFound i ats !! k
      = Some (setCurrentBonds (Z.max 0 (currentBonds a - 1)) a)
      ∧ ∀ m, m ≠ k → decrFound i ats !! m = ats !! m).
Proof.
  split; [|split].
  - intros older newer id k bond Hhist Hstale Hid Hk Hbid Hfirst.
    rewrite Forall_forall in Hstale. rewrite Forall_lookup in Hfirst.
    unfold undo. rewrite Hhist, rev_app_distr. simpl. rewrite <- app_assoc. simpl.
    rewrite undoLoop_skip.
    2:{ intros i Hi. apply Hstale. by rewrite list_elem_of_In, in_rev, <- list_elem_of_In. }
    simpl.
    rewrite (findIndexed_first (hasBondId id) (bonds s) k bond).
    + rewrite truthy_nonempty by done. by rewrite rev_involutive.
    + done.
    + unfold hasBondId. by apply String.eqb_eq.
    + intros m b Hm Hb. unfold hasBondId. apply String.eqb_neq.
      apply (Hfirst m). by rewrite lookup_take_lt.
  - intros Hstale. rewrite Forall_forall in Hstale.
    unfold undo. rewrite undoLoop_exhausted; [done|].
    intros i Hi. apply Hstale. by rewrite list_elem_of_In, in_rev, <- list_elem_of_In.
  - intros i ats k a Hk Hid Hfirst. rewrite Forall_lookup in Hfirst.
    unfold decrFound. rewrite (findIndexed_first (has_id i) ats k a).
    + split; [by rewrite list_lookup_alter_eq, Hk|].
      intros m Hm. by rewrite list_lookup_alter_ne.
    + done.
    + unfold has_id. by apply String.eqb_eq.
    + intros m b Hm Hb. unfold has_id. apply String.eqb_neq.
      apply (Hfirst m). by rewrite lookup_take_lt.
Qed.

Lemma undo_newest_extant_bond_witness :
  (bondHistory hydroxyl = ["b1"] ++ "b2" :: ["b3"]
   ∧ Forall (λ i, i ∉ map bond_id (bonds hydroxyl)) ["b3"]
   ∧ bonds hydroxyl !! 0%nat = Some (mkBond "b2" "o1" "h1")
   ∧ undo hydroxyl =
       mkState [mkAtom "o1" AtomType.O 100 100 0; mkAtom "h1" AtomType.H 160 100 0]
               [] ["b1"] None)
  ∧ (Forall (λ i, i ∉ map bond_id (bonds loosePair)) (bondHistory loosePair)
     ∧ undo loosePair = mkState (atoms loosePair) [] [] None).
Proof.
  assert (H1 : Forall (λ i, i ∉ map bond_id (bonds hydroxyl)) ["b3"]) by compute_done.
  assert (H2 : Forall (λ i, i ∉ map bond_id (bonds loosePair)) (bondHistory loosePair))
    by compute_done.
  split; [split; [reflexivity|split; [exact H1|split; [reflexivity|]]]|split; [exact H2|]].
  - apply (proj1 (undo_newest_extant_bond hydroxyl) ["b1"] ["b3"] "b2" 0%nat
             (mkBond "b2" "o1" "h1")); [reflexivity|exact H1|discriminate|reflexivity|reflexivity|].
    apply Forall_nil_2.
  - apply (proj1 (proj2 (undo_newest_extant_bond loosePair)) H2).
Defined.

(** An entry of the history that is the empty string is dropped like a
    stale one, whether or not a bond carries that id. *)
Lemma undoLoop_skip_empty (stale rest : list string) (ats : list AtomEntity)
    (bs : list BondEntity) :
  (∀ i, i ∈ stale → i ∉ map bond_id bs ∨ i = "") →
  undoLoop (stale ++ rest) ats bs = undoLoop rest ats bs.
Proof.
  induction stale as [|i stale IH]; intros Hstale; simpl; [done|].
  assert (IH' : undoLoop (stale ++ rest) ats bs = undoLoop rest ats bs).
  { apply IH. intros j Hj. apply Hstale. by right. }
  destruct (Hstale i) as [Hi| ->]; [by left| |].
  - by rewrite findBond_None.
  - by destruct (findIndexed (hasBondId "") bs) as [[k b]|].
Qed.

(** C5.  The code fails the claim on a bond whose id is the empty string.
    In the game [emptyIdBond] the oxygen is dragged onto the hydrogen and
    [uuid()] returns the empty string for their bond: the store then holds
    that one bond, both atoms with [currentBonds = 1], and the history
    holds the one id.  The bond still exists, so [undo] should take it
    out and decrement both atoms.  It does not: [findIndex] finds the
    record, but the empty id is falsy in the test of line 144, so the
    entry is popped like a stale one.  [undo] leaves the atoms and the
    bond as they are and the history empty, and no later [undo] can reach
    the bond. *)
Theorem undo_skips_bond_with_empty_id :
  bonds (run cos0 sin0 atan20 initial emptyIdBond).1
  = [mkBond "" "o4c8t3w6z" "h7k2m9q1x"]
  ∧ map (λ a, (atom_id a, currentBonds a)) (atoms (run cos0 sin0 atan20 initial emptyIdBond).1)
    = [("h7k2m9q1x", 1); ("o4c8t3w6z", 1)]
  ∧ bondHistory (run cos0 sin0 atan20 initial emptyIdBond).1 = [""]
  ∧ undo (run cos0 sin0 atan20 initial emptyIdBond).1
    = {| atoms := atoms (run cos0 sin0 atan20 initial emptyIdBond).1;
         bonds := bonds (run cos0 sin0 atan20 initial emptyIdBond).1;
         bondHistory := [];
         lastSpawn := lastSpawn (run cos0 sin0 atan20 initial emptyIdBond).1;
         draggedAtom := draggedAtom (run cos0 sin0 atan20 initial emptyIdBond).1;
         mouse := mouse (run cos0 sin0 atan20 initial emptyIdBond).1;
         dragSessionBondedPairs :=
           dragSessionBondedPairs (run cos0 sin0 atan20 initial emptyIdBond).1;
         gameActive := gameActive (run cos0 sin0 atan20 initial emptyIdBond).1 |}
  ∧ bonds (undo (undo (run cos0 sin0 atan20 initial emptyIdBond).1))
    = [mkBond "" "o4c8t3w6z" "h7k2m9q1x"].
Proof. repeat split; by vm_compute. Qed.

(** ** Pointer release *)

Lemma Qltb_lt (a b : Q) : Qltb a b = true ↔ (a < b)%Q.
Proof.
  unfold Qltb. rewrite negb_true_iff. split.
  - intros Hle. apply Qnot_le_lt. intros Hba. apply Qle_bool_iff in Hba. congruence.
  - intros Hlt. destruct (Qle_bool b a) eqn:Hle; [|done].
    apply Qle_bool_iff in Hle. exfalso. by apply (Qlt_not_le a b).
Qed.


Section Release.

Variables (cos sin : Q → Q) (atan2 : Q → Q → Q).


End Release.



(** ** The spawner *)

(** The spawner gives a new atom a velocity that can point away from the
    arena: with these draws a hydrogen appears outside the left edge and
    moves further left. *)
Lemma spawn_velocity_can_point_outward : ¬ spawnsInward.
Proof.
  intros Hin.
  destruct (spawnStep 2000 leftOutwardEnv (activate initial)) as [s1|] eqn:Hstep; [|done].
  vm_compute in Hstep. inversion Hstep as [Hs1]. clear Hstep.
  assert (Hvalid : validDraws leftOutward) by (by vm_compute).
  destruct (Hin 2000 leftOutwardEnv (activate initial) s1
                {| atom_id := "k3x9q0a1z"; atom_type := AtomType.H;
                   atom_x := - (20); atom_y := (1 # 2) * 600;
                   atom_vx := ((1 # 4) - (1 # 2)) * 2; atom_vy := ((1 # 2) - (1 # 2)) * 2;
                   currentBonds := 0; bondedAtomIds := []; isDragging := false;
                   fxScale := 0 |} 800%Q 600%Q) as (Hleft & _).
  - by rewrite <- Hs1.
  - by rewrite <- Hs1.
  - reflexivity.
  - exact Hvalid.
  - simpl in Hleft. assert (0 < ((1 # 4) - (1 # 2)) * 2)%Q as Hlt by (apply Hleft; reflexivity).
    by vm_compute in Hlt.
Qed.

Lemma pickType_valid (r : Q) :
  unitInterval r →
  ∃ ty, pickType r = Some ty ∧ spawn_types !! Z.to_nat (Qfloor (r * 11)) = Some ty.
Proof.
  intros [H0 H1]. unfold pickType.
  assert (Hlo : (0 <= Qfloor (r * 11))%Z).
  { change 0%Z with (Qfloor 0). apply Qfloor_resp_le. lra. }
  assert (Hhi : (Qfloor (r * 11) < 11)%Z).
  { rewrite Zlt_Qlt. eapply Qle_lt_trans; [apply Qfloor_le|]. unfold inject_Z. lra. }
  apply Z.leb_le in Hlo as Hlo'. rewrite Hlo'.
  destruct (lookup_lt_is_Some_2 spawn_types (Z.to_nat (Qfloor (r * 11)))) as [ty Hty].
  { change (length spawn_types) with 11%nat. lia. }
  by exists ty.
Qed.

Lemma spawnPosition_edge (w h rad : Q) (d : SpawnDraws) :
  (0 < w)%Q → (0 < h)%Q → unitInterval (rnd_third d) → unitInterval (rnd_fourth d) →
  let p := spawnPosition w h rad d in
  ((p.1 == - rad ∨ p.1 == w + rad) ∧ 0 <= p.2 ∧ p.2 < h)%Q
  ∨ ((p.2 == - rad ∨ p.2 == h + rad) ∧ 0 <= p.1 ∧ p.1 < w)%Q.
Proof.
  intros Hw Hh [Ht0 Ht1] [Hf0 Hf1]. unfold spawnPosition.
  destruct (Qltb (1 # 2) (rnd_axis d)).
  - left. simpl. split; [destruct (Qltb _ _); [by left|by right]|]. split; nra.
  - right. simpl. split; [destruct (Qltb _ _); [by left|by right]|]. split; nra.
Qed.

(** C9, as the code has it.  A frame's spawn step adds an atom only when
    more than 1500 ms have passed since the last spawn and fewer than 18
    atoms are in the store, and then it adds exactly one, at the end.  When
    it does (the container is laid out and the random draws are in [0, 1)),
    the type of the atom is the entry of the weighted table at the drawn
    index, the atom has no bonds, its centre is one radius outside one of
    the four edges, and each component of its velocity is a draw scaled to
    [-1, 1), whatever the edge: the velocity need not point inward. *)
Theorem spawn_rule (time : Z) (env : TickEnv) (s : State) :
  (∀ s1, spawnStep time env s = Some s1 →
     atoms s1 = atoms s
     ∨ (1500 < time - lastSpawn s ∧ (length (atoms s) < 18)%nat
        ∧ ∃ a, atoms s1 = atoms s ++ [a]))
  ∧ (∀ w h,
       1500 < time - lastSpawn s → (length (atoms s) < 18)%nat →
       container env = Some (w, h) → (0 < w)%Q → (0 < h)%Q →
       validDraws (draws env) →
       ∃ a, spawnStep time env s =
              Some {| atoms := atoms s ++ [a];
                      bonds := bonds s;
                      bondHistory := bondHistory s;
                      lastSpawn := time;
                      draggedAtom := draggedAtom s;
                      mouse := mouse s;
                      dragSessionBondedPairs := dragSessionBondedPairs s;
                      gameActive := gameActive s |}
            ∧ spawn_types !! Z.to_nat (Qfloor (rnd_type (draws env) * 11)) = Some (atom_type a)
            ∧ atom_id a = new_atom_id (draws env)
            ∧ currentBonds a = 0 ∧ bondedAtomIds a = [] ∧ isDragging a = false
            ∧ justOutsideEdge w h a
            ∧ (atom_vx a == (rnd_vx (draws env) - (1 # 2)) * 2)%Q
            ∧ (atom_vy a == (rnd_vy (draws env) - (1 # 2)) * 2)%Q
            ∧ (- (1) <= atom_vx a)%Q ∧ (atom_vx a < 1)%Q
            ∧ (- (1) <= atom_vy a)%Q ∧ (atom_vy a < 1)%Q).
Proof.
  split.
  - intros s1. unfold spawnStep.
    destruct (1500 <? time - lastSpawn s) eqn:Htime; simpl; [|intros [= <-]; by left].
    destruct (length (atoms s) <? 18)%nat eqn:Hpop; simpl; [|intros [= <-]; by left].
    apply Z.ltb_lt in Htime. apply Nat.ltb_lt in Hpop.
    unfold spawnAtom. destruct (container env) as [[w h]|]; simpl; [|intros [= <-]; by left].
    destruct (pickType _) as [ty|]; simpl; [|done].
    destruct (spawnPosition _ _ _ _) as [x y]. intros [= <-]; simpl.
    right. eauto.
  - intros w h Htime Hpop Hcont Hw Hh (Hty & _ & Hthird & Hfourth & [Hx0 Hx1] & [Hy0 Hy1]).
    unfold spawnStep.
    apply Z.ltb_lt in Htime. apply Nat.ltb_lt in Hpop. rewrite Htime, Hpop. simpl.
    unfold spawnAtom. rewrite Hcont.
    destruct (pickType_valid _ Hty) as (ty & -> & Hidx).
    pose proof (spawnPosition_edge w h (radius (ATOM_DEFS ty)) (draws env) Hw Hh Hthird Hfourth)
      as Hedge.
    destruct (spawnPosition _ _ _ _) as [x y]. simpl in *.
    eexists. split; [reflexivity|]. simpl.
    repeat split; try done; try lra.
Qed.

Lemma spawn_rule_witness :
  validDraws leftOutward
  ∧ ∃ a, (atoms <$> spawnStep 2000 leftOutwardEnv (activate initial)) = Some [a]
         ∧ atom_type a = AtomType.H ∧ justOutsideEdge 800 600 a.
Proof.
  assert (Hd : validDraws leftOutward) by (by vm_compute).
  split; [exact Hd|].
  destruct (proj2 (spawn_rule 2000 leftOutwardEnv (activate initial)) 800%Q 600%Q)
    as (a & Hstep & Hty & _ & _ & _ & _ & Hedge & _).
  - reflexivity.
  - simpl. lia.
  - reflexivity.
  - reflexivity.
  - reflexivity.
  - exact Hd.
  - exists a. split; [by rewrite Hstep|]. split; [|exact Hedge].
    change (Some AtomType.H = Some (atom_type a)) in Hty. by inversion Hty.
Defined.

(** ** bondedAtomIds *)

(** After the first bond of [firstBond] the hydrogen is linked to the
    oxygen by a bond record, and its [bondedAtomIds] is still empty. *)
Lemma bondedAtomIds_not_kept_in_step :
  ¬ bondedIdsConsistent (run cos0 sin0 atan20 initial firstBond).1.
Proof.
  intros Hcons.
  specialize (Hcons (setCurrentBonds 1 (setKinematics (rowPhysics 0%nat (mkAtom "" AtomType.H 0 0 0))
                                          (mkAtom "h7k2m9q1x" AtomType.H 0 0 0)))).
  destruct (Hcons ltac:(vm_compute; by left) "o4c8t3w6z") as [_ Hback].
  specialize (Hback eq_refl). vm_compute in Hback. by apply elem_of_nil in Hback.
Qed.

Lemma bondedAtomIds_never_written_witness :
  ∃ a, a ∈ atoms (run cos0 sin0 atan20 initial firstBond).1
       ∧ atom_id a = "h7k2m9q1x" ∧ currentBonds a = 1 ∧ bondedAtomIds a = [].
Proof.
  eexists. split; [|split; [|split]].
  - vm_compute. left.
  - reflexivity.
  - reflexivity.
  - apply (bondedAtomIds_never_written cos0 sin0 atan20 firstBond).
    vm_compute. left.
Defined.

(** ** Drag gestures *)

Lemma pairKey_comm (a b : string) : pairKey a b = pairKey b a.
Proof.
  unfold pairKey.
  destruct (String.leb a b) eqn:Hab, (String.leb b a) eqn:Hba; try done.
  - by rewrite (String.leb_antisym _ _ Hab Hba).
  - destruct (String.leb_total a b); congruence.
Qed.

Lemma samePair_key (p q : string * string) :
  samePair p q → pairKey p.1 p.2 = pairKey q.1 q.2.
Proof. intros [->| ->]; [done|]. simpl. apply pairKey_comm. Qed.

Lemma checkMolecules_session (s : State) :
  dragSessionBondedPairs (checkMolecules s).1 = dragSessionBondedPairs s.
Proof. unfold checkMolecules. by case_match. Qed.

Lemma bondStep_session (env : TickEnv) (s : State) :
  dragSessionBondedPairs (bondStep env s).1
  = match bondAttempt s with
    | Some ((_, dragger), (_, neighbor)) =>
        {[pairKey (atom_id dragger) (atom_id neighbor)]} ∪ dragSessionBondedPairs s
    | None => dragSessionBondedPairs s
    end.
Proof.
  unfold bondStep. destruct (bondAttempt s) as [[[i d] [j n]]|]; [|done].
  pose proof (checkMolecules_session (createBond (new_bond_id env) i j d n s)) as Hc.
  by destruct (checkMolecules _).
Qed.

Lemma beforeBondStep_session (time : Z) (env : TickEnv) (s s2 : State) :
  beforeBondStep time env s = Some s2 →
  dragSessionBondedPairs s2 = dragSessionBondedPairs s.
Proof.
  unfold beforeBondStep. destruct (negb (gameActive s)); [done|].
  destruct (canvas env); [|done]. unfold spawnStep.
  destruct (_ && _); simpl; [|by intros [= <-]].
  destruct (spawnAtom _ _ _); simpl; [|done]. by intros [= <-].
Qed.

Section Gestures.

Variables (cos sin : Q → Q) (atan2 : Q → Q → Q).

(** While a gesture lasts the session set only grows, and a pair that a
    frame bonds was not in the set before the frame and is in it after. *)
Lemma gesture_step_session (s : State) (e : Event) :
  withinGesture e →
  dragSessionBondedPairs s ⊆ dragSessionBondedPairs (step cos sin atan2 s e).1
  ∧ (∀ p, bondMade s e = Some p →
          (pairKey p.1 p.2 ∉ dragSessionBondedPairs s)
          ∧ (pairKey p.1 p.2 ∈ dragSessionBondedPairs (step cos sin atan2 s e).1)).
Proof.
  intros He. destruct e as [time env|rect cx cy|rect cx cy|nudge| |active]; simpl in *; try done.
  - unfold update. destruct (beforeBondStep time env s) as [s2|] eqn:Hs2; simpl; [|done].
    rewrite bondStep_session. rewrite <- (beforeBondStep_session _ _ _ _ Hs2).
    destruct (bondAttempt s2) as [[[i d] [j n]]|] eqn:Hb.
    + split; [apply union_subseteq_r|]. intros p [= <-]. simpl.
      apply bondAttempt_Some in Hb. split; [tauto|].
      apply elem_of_union_l. by apply elem_of_singleton.
    + done.
  - split; [|done]. unfold handlePointerMove. by destruct rect as [[? ?]|].
  - split; [|done]. unfold handlePointerUp.
    destruct (draggedAtom s); [|done]. destruct (truthy _); [|done].
    destruct (findIndexed _ _) as [[? ?]|]; [|done].
    destruct (findIndexed _ _) as [[? ?]|]; [|done].
    by destruct (negb _).
  - split; [|done]. unfold undo. by destruct (undoLoop _ _ _) as [[? ?] ?].
Qed.

Lemma gesture_keys (es : list Event) (s : State) :
  Forall withinGesture es →
  NoDup (map (λ p, pairKey p.1 p.2) (bondsMade cos sin atan2 s es))
  ∧ ∀ p, p ∈ bondsMade cos sin atan2 s es → pairKey p.1 p.2 ∉ dragSessionBondedPairs s.
Proof.
  revert s. induction es as [|e es IH]; intros s Hes; simpl.
  - split; [constructor|]. intros p Hp. by apply elem_of_nil in Hp.
  - apply Forall_cons in Hes as [He Hes].
    destruct (gesture_step_session s e He) as [Hmono Hmade].
    destruct (IH (step cos sin atan2 s e).1 Hes) as [Hnd Hfresh].
    destruct (bondMade s e) as [p|] eqn:Hp; simpl.
    + destruct (Hmade p eq_refl) as [Hout Hin]. split.
      * constructor; [|done]. intros Hdup.
        apply list_elem_of_fmap in Hdup as (q & Hq & Hqin).
        apply (Hfresh q Hqin). by rewrite <- Hq.
      * intros q [->|Hq]%elem_of_cons; [done|].
        specialize (Hfresh q Hq). intros Hqs. by apply Hfresh, Hmono.
    + split; [done|]. intros q Hq. specialize (Hfresh q Hq).
      intros Hqs. by apply Hfresh, Hmono.
Qed.

(** C4.  Take any sequence of frames, pointer moves, undos and releases
    with no pointer-down in it (and no change of [gameActive]), from any
    state.  No two of the bonds made along it join the same unordered pair
    of atom ids.  A pointer-down that hits an atom empties the session set,
    after which any pair is eligible again: in [dragTwice] the two oxygens
    bond once in the first gesture, however many frames it lasts, and once
    more in the second. *)
Theorem one_bond_per_pair_per_gesture (s : State) (es : list Event) :
  Forall withinGesture es →
  (∀ m n p q, m ≠ n →
     bondsMade cos sin atan2 s es !! m = Some p →
     bondsMade cos sin atan2 s es !! n = Some q →
     ¬ samePair p q)
  ∧ (∀ rleft rtop cx cy s0 k clicked,
       findIndexed (hitBy (cx - rleft) (cy - rtop)) (atoms s0) = Some (k, clicked) →
       dragSessionBondedPairs (handlePointerDown (Some (rleft, rtop)) cx cy s0) = ∅
       ∧ draggedAtom (handlePointerDown (Some (rleft, rtop)) cx cy s0)
         = Some (atom_id clicked))
  ∧ bondsMade cos sin atan2 twoOxygens dragTwice = [("ob", "oa"); ("ob", "oa")].
Proof.
  intros Hes. split; [|split; [|by vm_compute]].
  - intros m n p q Hmn Hm Hn Hsame.
    destruct (gesture_keys es s Hes) as [Hnd _].
    apply samePair_key in Hsame.
    apply Hmn. eapply NoDup_lookup; [exact Hnd| |].
    + rewrite list_lookup_fmap, Hm. reflexivity.
    + rewrite list_lookup_fmap, Hn. simpl. by rewrite Hsame.
  - intros rleft rtop cx cy s0 k clicked Hhit. unfold handlePointerDown.
    by rewrite Hhit.
Qed.

End Gestures.

Lemma one_bond_per_pair_per_gesture_witness :
  bondsMade cos0 sin0 atan20
    (handlePointerDown (Some (0%Q, 0%Q)) 160 100 twoOxygens)
    (take 4 (drop 1 dragTwice)) = [("ob", "oa")]
  ∧ ∀ m n p q, m ≠ n →
      bondsMade cos0 sin0 atan20
        (handlePointerDown (Some (0%Q, 0%Q)) 160 100 twoOxygens)
        (take 4 (drop 1 dragTwice)) !! m = Some p →
      bondsMade cos0 sin0 atan20
        (handlePointerDown (Some (0%Q, 0%Q)) 160 100 twoOxygens)
        (take 4 (drop 1 dragTwice)) !! n = Some q →
      ¬ samePair p q.
Proof.
  split; [by vm_compute|].
  apply (one_bond_per_pair_per_gesture cos0 sin0 atan20).
  simpl. repeat constructor.
Defined.

(** ** The stability detector *)

Lemma neighbors_linked (bs : list BondEntity) (i j : string) :
  j ∈ neighbors bs i ↔ linked bs i j.
Proof.
  unfold neighbors, linked, touches. rewrite list_elem_of_fmap. split.
  - intros (b & -> & Hb). apply list_elem_of_In, filter_In in Hb as [Hb Ht].
    apply list_elem_of_In in Hb. exists b. split; [done|].
    destruct (String.eqb (atom1Id b) i) eqn:H1.
    + left. by apply String.eqb_eq in H1.
    + right. simpl in Ht. by apply String.eqb_eq in Ht.
  - intros (b & Hb & Hl). exists b. split.
    + destruct (String.eqb (atom1Id b) i) eqn:H1.
      * apply String.eqb_eq in H1. destruct Hl as [[_ ?]|[? ?]]; congruence.
      * apply String.eqb_neq in H1. destruct Hl as [[? _]|[? _]]; congruence.
    + apply list_elem_of_In, filter_In. split; [by apply list_elem_of_In|].
      apply orb_true_iff. destruct Hl as [[? _]|[_ ?]]; [left|right]; by apply String.eqb_eq.
Qed.

Lemma linked_sym (bs : list BondEntity) (i j : string) : linked bs i j → linked bs j i.
Proof. intros (b & Hb & Hl). exists b. split; [done|]. tauto. Qed.

Lemma adjacent_sym (ats : list AtomEntity) (bs : list BondEntity) (i j : string) :
  adjacent ats bs i j → adjacent ats bs j i.
Proof. intros (Hl & Hi & Hj). repeat split; [by apply linked_sym|done|done]. Qed.

Lemma connected_sym (ats : list AtomEntity) (bs : list BondEntity) (i j : string) :
  connected ats bs i j → connected ats bs j i.
Proof.
  induction 1 as [|i j k Hij _ IH]; [apply rtc_refl|].
  eapply rtc_r; [exact IH|]. by apply adjacent_sym.
Qed.

Lemma findAtom_unique (ats : list AtomEntity) (a : AtomEntity) :
  NoDup (map atom_id ats) → a ∈ ats → findAtom ats (atom_id a) = Some a.
Proof.
  intros Hnd Ha. destruct (findAtom ats (atom_id a)) as [b|] eqn:Hf.
  - apply findAtom_Some in Hf as [Hb Hid].
    apply list_elem_of_lookup in Ha as [m Hm]. apply list_elem_of_lookup in Hb as [n Hn].
    assert (m = n) as ->; [|congruence].
    eapply NoDup_lookup; [exact Hnd| |]; rewrite list_lookup_fmap.
    + by rewrite Hm.
    + rewrite Hn. simpl. by rewrite Hid.
  - apply findAtom_None in Hf. exfalso. apply Hf. apply list_elem_of_fmap. by exists a.
Qed.

Lemma same_id_same_atom (ats : list AtomEntity) (a b : AtomEntity) :
  NoDup (map atom_id ats) → a ∈ ats → b ∈ ats → atom_id a = atom_id b → a = b.
Proof.
  intros Hnd Ha Hb Hid.
  pose proof (findAtom_unique ats a Hnd Ha) as Hfa.
  pose proof (findAtom_unique ats b Hnd Hb) as Hfb.
  rewrite Hid in Hfa. congruence.
Qed.

Section Scan.

Variables (ats : list AtomEntity) (bs : list BondEntity).
Hypothesis ids_unique : NoDup (map atom_id ats).

Local Abbreviation idset l := (list_to_set (map atom_id l) : gset string).

Lemma elem_of_idset (l : list AtomEntity) (i : string) :
  i ∈ idset l ↔ ∃ a, a ∈ l ∧ atom_id a = i.
Proof.
  rewrite elem_of_list_to_set, list_elem_of_fmap. split.
  - intros (a & -> & Ha). by exists a.
  - intros (a & Ha & <-). by exists a.
Qed.

Lemma idset_cons (a : AtomEntity) (l : list AtomEntity) :
  idset (a :: l) = {[atom_id a]} ∪ idset l.
Proof. done. Qed.

Lemma idset_app (l1 l2 : list AtomEntity) : idset (l1 ++ l2) = idset l1 ∪ idset l2.
Proof. by rewrite map_app, list_to_set_app_L. Qed.

(** The inner loop queues the neighbours that are stored and new. *)
Lemma visit_spec (nids : list string) (v : gset string) (q : list AtomEntity) :
  ∃ news,
    foldl (visitNeighbor ats) (v, q) nids = (v ∪ idset news, q ++ news)
    ∧ NoDup (map atom_id news)
    ∧ (∀ n, n ∈ news → n ∈ ats ∧ atom_id n ∈ nids ∧ atom_id n ∉ v)
    ∧ (∀ j, j ∈ nids → j ∈ map atom_id ats → j ∈ v ∪ idset news).
Proof.
  revert v q. induction nids as [|nid nids IH]; intros v q; simpl.
  - exists []. simpl. rewrite app_nil_r, union_empty_r_L.
    split; [done|]. split; [apply NoDup_nil_2|].
    split; intros ? Hin; by apply elem_of_nil in Hin.
  - unfold visitNeighbor at 2. simpl.
    destruct (findAtom ats nid) as [n|] eqn:Hf.
    + apply findAtom_Some in Hf as [Hn Hid]. subst nid.
      destruct (bool_decide (atom_id n ∈ v)) eqn:Hv.
      * apply bool_decide_eq_true in Hv.
        destruct (IH v q) as (news & -> & Hnd & Hnews & Hcov).
        exists news. split; [done|]. split; [done|]. split.
        -- intros m Hm. destruct (Hnews m Hm) as (? & ? & ?).
           split; [done|]. split; [by right|done].
        -- intros j [->|Hj]%elem_of_cons Hjids; [|by apply Hcov].
           by apply elem_of_union_l.
      * apply bool_decide_eq_false in Hv.
        destruct (IH ({[atom_id n]} ∪ v) (q ++ [n])) as (news & -> & Hnd & Hnews & Hcov).
        exists (n :: news). split; [|split; [|split]].
        -- rewrite idset_cons, <- app_assoc. simpl. f_equal.
           by rewrite (union_comm_L {[atom_id n]} v), <- union_assoc_L.
        -- simpl. apply NoDup_cons_2; [|done]. intros Hdup.
           apply list_elem_of_fmap in Hdup as (m & Hm & Hmin).
           destruct (Hnews m Hmin) as (_ & _ & Hfresh). apply Hfresh.
           by apply elem_of_union_l, elem_of_singleton.
        -- intros m [->|Hm]%elem_of_cons.
           ++ split; [done|]. split; [by left|done].
           ++ destruct (Hnews m Hm) as (? & ? & Hfresh).
              split; [done|]. split; [by right|].
              intros Hmv. apply Hfresh. by apply elem_of_union_r.
        -- intros j Hj Hjids. rewrite idset_cons, !elem_of_union, elem_of_singleton.
           apply elem_of_cons in Hj as [->|Hj]; [tauto|].
           specialize (Hcov j Hj Hjids).
           rewrite !elem_of_union, elem_of_singleton in Hcov. tauto.
    + apply findAtom_None in Hf.
      destruct (IH v q) as (news & -> & Hnd & Hnews & Hcov).
      exists news. split; [done|]. split; [done|]. split.
      * intros m Hm. destruct (Hnews m Hm) as (? & ? & ?).
        split; [done|]. split; [by right|done].
      * intros j [->|Hj]%elem_of_cons Hjids; [done|by apply Hcov].
Qed.

Lemma stored_length (l : list AtomEntity) :
  NoDup (map atom_id l) → (∀ a, a ∈ l → a ∈ ats) → (length l ≤ length ats)%nat.
Proof.
  intros Hnd Hsub. apply submseteq_length, NoDup_submseteq; [|done].
  by eapply NoDup_fmap_1.
Qed.

Section Traversal.

Variables (V0 : gset string) (a0 : AtomEntity).
Hypothesis V0_closed : ∀ i j, adjacent ats bs i j → i ∈ V0 → j ∈ V0.

Local Abbreviation invariant := (bfsInvariant ats bs V0 a0).

(** One turn of the [while] loop keeps the invariant. *)
Lemma bfs_turn (visited : gset string) (current : AtomEntity) (rest component : list AtomEntity)
    (isStable : bool) :
  invariant {| bfs_visited := visited; bfs_queue := current :: rest;
               bfs_component := component; bfs_isStable := isStable |} →
  let vq := foldl (visitNeighbor ats) (visited, rest) (neighbors bs (atom_id current)) in
  invariant {| bfs_visited := vq.1; bfs_queue := vq.2;
               bfs_component := component ++ [current];
               bfs_isStable := if isFull current then isStable else false |}.
Proof.
  unfold bfsInvariant; simpl. intros (Hvis & Hnd & Hseen & Hnbr & Hst & Hstart).
  destruct (visit_spec (neighbors bs (atom_id current)) visited rest)
    as (news & -> & Hnews_nd & Hnews & Hcov). simpl.
  assert (Hcur : current ∈ ats ∧ (atom_id current ∉ V0)
                 ∧ connected ats bs (atom_id a0) (atom_id current)).
  { apply Hseen. apply elem_of_app. right. by left. }
  destruct Hcur as (Hcur_in & Hcur_new & Hcur_conn).
  assert (Hcur_id : atom_id current ∈ map atom_id ats).
  { apply list_elem_of_fmap. by exists current. }
  assert (Heq : (component ++ [current]) ++ rest ++ news
                = (component ++ current :: rest) ++ news).
  { by rewrite <- !app_assoc. }
  rewrite Heq. clear Heq.
  split; [|split; [|split; [|split; [|split]]]].
  - rewrite Hvis, (idset_app (component ++ current :: rest) news).
    by rewrite union_assoc_L.
  - rewrite map_app. apply NoDup_app. split; [done|]. split; [|done].
    intros i Hi Hi'. apply list_elem_of_fmap in Hi' as (n & -> & Hn).
    destruct (Hnews n Hn) as (_ & _ & Hfresh). apply Hfresh.
    rewrite Hvis. apply elem_of_union_r. by apply elem_of_list_to_set.
  - intros a Ha. apply elem_of_app in Ha as [Ha|Ha]; [by apply Hseen|].
    destruct (Hnews a Ha) as (Ha_in & Ha_nbr & Ha_new).
    split; [done|]. split.
    + intros Ha0. apply Ha_new. rewrite Hvis. by apply elem_of_union_l.
    + eapply rtc_r; [exact Hcur_conn|]. split; [by apply neighbors_linked|].
      split; [done|]. apply list_elem_of_fmap. by exists a.
  - intros a j Ha Hadj. apply elem_of_app in Ha as [Ha|Ha].
    + apply elem_of_union_l. by eapply Hnbr.
    + apply list_elem_of_singleton in Ha as ->.
      destruct Hadj as (Hl & _ & Hj). apply Hcov; [by apply neighbors_linked|done].
  - rewrite forallb_app. simpl. rewrite Hst, andb_true_r.
    destruct (isFull current); [by rewrite andb_true_r|by rewrite andb_false_r].
  - apply elem_of_app. by left.
Qed.

(** With one unit of fuel for every stored atom not yet taken, the loop
    runs until the queue is empty. *)
Lemma bfsLoop_spec (fuel : nat) (st : Bfs) :
  invariant st → (length ats ≤ fuel + length (bfs_component st))%nat →
  invariant (bfsLoop fuel ats bs st) ∧ bfs_queue (bfsLoop fuel ats bs st) = [].
Proof.
  revert st. induction fuel as [|fuel IH]; intros [visited queue component isStable] Hinv Hfuel;
    simpl in *.
  - destruct queue as [|current rest]; [done|]. exfalso.
    destruct Hinv as (_ & Hnd & Hseen & _). simpl in *.
    pose proof (stored_length _ Hnd (λ a Ha, proj1 (Hseen a Ha))) as Hlen.
    rewrite length_app in Hlen. simpl in Hlen. lia.
  - destruct queue as [|current rest]; [done|].
    apply IH; simpl.
    + by apply bfs_turn.
    + rewrite length_app. simpl. lia.
Qed.

End Traversal.

Lemma bfs_start (V0 : gset string) (a0 : AtomEntity) :
  a0 ∈ ats → atom_id a0 ∉ V0 →
  bfsInvariant ats bs V0 a0
    {| bfs_visited := {[atom_id a0]} ∪ V0; bfs_queue := [a0];
       bfs_component := []; bfs_isStable := true |}.
Proof.
  intros Ha0 Hnew. unfold bfsInvariant; simpl. split; [|split; [|split; [|split; [|split]]]].
  - by rewrite union_empty_r_L, union_comm_L.
  - apply NoDup_singleton.
  - intros a Ha%list_elem_of_singleton. subst a. split; [done|]. split; [done|]. apply rtc_refl.
  - intros a j Ha. by apply elem_of_nil in Ha.
  - done.
  - by left.
Qed.

(** Every traversal that [checkMolecules] starts ends with an empty queue:
    the fuel never runs out, whatever the store. *)
Lemma bfsLoop_fuel_enough (V0 : gset string) (a0 : AtomEntity) :
  a0 ∈ ats → atom_id a0 ∉ V0 →
  bfs_queue (bfsLoop (length ats) ats bs
               {| bfs_visited := {[atom_id a0]} ∪ V0; bfs_queue := [a0];
                  bfs_component := []; bfs_isStable := true |}) = [].
Proof.
  intros Ha0 Hnew. apply (bfsLoop_spec V0 a0); [by apply bfs_start|]. simpl. lia.
Qed.

(** The traversal started at a stored atom with a new id finds exactly the
    connected component of that atom. *)
Lemma bfs_from (V0 : gset string) (a0 : AtomEntity) :
  (∀ i j, adjacent ats bs i j → i ∈ V0 → j ∈ V0) →
  a0 ∈ ats → atom_id a0 ∉ V0 →
  let r := bfsLoop (length ats) ats bs
             {| bfs_visited := {[atom_id a0]} ∪ V0; bfs_queue := [a0];
                bfs_component := []; bfs_isStable := true |} in
  (∀ b, b ∈ bfs_component r ↔ b ∈ ats ∧ connected ats bs (atom_id a0) (atom_id b))
  ∧ NoDup (map atom_id (bfs_component r))
  ∧ bfs_visited r = V0 ∪ idset (bfs_component r)
  ∧ bfs_isStable r = forallb isFull (bfs_component r)
  ∧ (∀ i j, adjacent ats bs i j → i ∈ bfs_visited r → j ∈ bfs_visited r)
  ∧ (∀ b, b ∈ bfs_component r → atom_id b ∉ V0).
Proof.
  intros Hclosed Ha0 Hnew r.
  destruct (bfsLoop_spec V0 a0 (length ats)
              {| bfs_visited := {[atom_id a0]} ∪ V0; bfs_queue := [a0];
                 bfs_component := []; bfs_isStable := true |}) as [Hinv Hq].
  { by apply bfs_start. }
  { simpl. lia. }
  fold r in Hinv, Hq. unfold bfsInvariant in Hinv. rewrite Hq, app_nil_r in Hinv.
  destruct Hinv as (Hvis & Hnd & Hseen & Hnbr & Hst & Hstart).
  assert (Hcomp_closed : ∀ a j, a ∈ bfs_component r → adjacent ats bs (atom_id a) j →
                                j ∈ idset (bfs_component r)).
  { intros a j Ha Hadj. specialize (Hnbr a j Ha Hadj). rewrite Hvis in Hnbr.
    apply elem_of_union in Hnbr as [Hj|Hj]; [|done]. exfalso.
    destruct (Hseen a Ha) as (_ & Hout & _). apply Hout.
    eapply Hclosed; [|exact Hj]. by apply adjacent_sym. }
  assert (Hreach : ∀ j, connected ats bs (atom_id a0) j → j ∈ idset (bfs_component r)).
  { apply rtc_ind_r.
    - apply elem_of_idset. by exists a0.
    - intros j k Hj Hjk IH.
      apply elem_of_idset in IH as (a & Ha & <-). by eapply Hcomp_closed. }
  split; [|split; [done|split; [done|split; [done|split]]]].
  - intros b. split.
    + intros Hb. destruct (Hseen b Hb) as (? & _ & ?). done.
    + intros [Hb Hconn]. apply Hreach, elem_of_idset in Hconn as (b' & Hb' & Hid).
      destruct (Hseen b' Hb') as (Hb'_in & _).
      by rewrite <- (same_id_same_atom ats b' b ids_unique Hb'_in Hb Hid).
  - intros i j Hadj. rewrite Hvis, !elem_of_union. intros [Hi|Hi].
    + left. by eapply Hclosed.
    + right. apply elem_of_idset in Hi as (a & Ha & <-). by eapply Hcomp_closed.
  - intros b Hb. by destruct (Hseen b Hb) as (_ & ? & _).
Qed.

Lemma connected_trans (i j k : string) :
  connected ats bs i j → connected ats bs j k → connected ats bs i k.
Proof. intros Hij Hjk. by etrans. Qed.

Lemma two_members (c : list AtomEntity) (x y : AtomEntity) :
  x ∈ c → y ∈ c → x ≠ y → (2 ≤ length c)%nat.
Proof.
  intros Hx Hy Hxy. destruct c as [|u [|v c]]; simpl; [| |lia].
  - by apply elem_of_nil in Hx.
  - apply list_elem_of_singleton in Hx, Hy. congruence.
Qed.

(** One turn of the [for] loop keeps the invariant. *)
Lemma scanAtom_spec (handled : list AtomEntity) (comps : list (list AtomEntity))
    (sc : Scan) (a : AtomEntity) :
  a ∈ ats → scanInvariant ats bs handled comps sc →
  ∃ comps', scanInvariant ats bs (handled ++ [a]) comps' (scanAtom ats bs sc a).
Proof.
  intros Ha (Heff & Hrem & Hnd & Hcomps & Hclosed & Hhandled & Hcover).
  unfold scanAtom. destruct (bool_decide (atom_id a ∈ scan_visited sc)) eqn:Hvis.
  - apply bool_decide_eq_true in Hvis. exists comps.
    split; [done|]. split; [done|]. split; [done|]. split; [done|]. split; [done|].
    split; [|done].
    intros x [Hx|Hx]%elem_of_app; [by apply Hhandled|].
    by apply list_elem_of_singleton in Hx as ->.
  - apply bool_decide_eq_false in Hvis.
    destruct (bfs_from (scan_visited sc) a Hclosed Ha Hvis)
      as (Hmem & Hcnd & Hv & Hst & Hcl & Hout).
    set (r := bfsLoop (length ats) ats bs _) in *.
    assert (Ha_in : a ∈ bfs_component r).
    { apply Hmem. split; [done|]. apply rtc_refl. }
    assert (Hc_nd : NoDup (bfs_component r)) by (by eapply NoDup_fmap_1).
    assert (Hold : ∀ c b, c ∈ comps → b ∈ c → atom_id b ∈ bfs_visited r).
    { intros c b Hc Hb. rewrite Hv. apply elem_of_union_l. by eapply Hcomps. }
    assert (Hhandled' : ∀ x, x ∈ handled ++ [a] → atom_id x ∈ bfs_visited r).
    { intros x [Hx|Hx]%elem_of_app; rewrite Hv.
      - apply elem_of_union_l. by apply Hhandled.
      - apply list_elem_of_singleton in Hx as ->.
        apply elem_of_union_r, elem_of_idset. by exists a. }
    assert (Hreported : ∀ x, x ∈ ats → atom_id x ∈ idset (bfs_component r) →
              stableComponent ats bs x →
              x ∈ bfs_component r
              ∧ bfs_isStable r && (1 <? length (bfs_component r))%nat = true).
    { intros x Hx Hxid [Hfull (y & [Hy Hxy] & Hne)].
      apply elem_of_idset in Hxid as (x' & Hx' & Hid).
      assert (x' = x) as ->.
      { apply (same_id_same_atom ats); [done| |done|done]. by apply Hmem. }
      destruct (proj1 (Hmem x) Hx') as [_ Hax].
      split; [done|]. apply andb_true_iff. split.
      - rewrite Hst. apply forallb_forall. intros b Hb%list_elem_of_In.
        apply Hfull. destruct (proj1 (Hmem b) Hb) as [Hb_in Hab].
        split; [done|]. eapply connected_trans; [|exact Hab]. by apply connected_sym.
      - apply Nat.ltb_lt. apply (two_members _ x y); [done| |done].
        apply Hmem. split; [done|]. by eapply connected_trans. }
    destruct (bfs_isStable r && (1 <? length (bfs_component r))%nat) eqn:Hrep.
    + exists (comps ++ [bfs_component r]). unfold scanInvariant; simpl.
      apply andb_true_iff in Hrep as [Hstable Hlen].
      split; [|split; [|split; [|split; [|split; [|split]]]]].
      * rewrite flat_map_app, Heff. simpl. by rewrite ?app_nil_r.
      * rewrite flat_map_app, Hrem. simpl. by rewrite ?app_nil_r.
      * rewrite concat_app, map_app. simpl. rewrite app_nil_r.
        apply NoDup_app. split; [done|]. split; [|done].
        intros i Hi Hi'. apply list_elem_of_fmap in Hi' as (b & -> & Hb).
        apply (Hout b Hb).
        apply list_elem_of_fmap in Hi as (b' & -> & Hb').
        apply list_elem_of_In, in_concat in Hb' as (c & Hc & Hb').
        apply list_elem_of_In in Hc, Hb'. by eapply Hcomps.
      * intros c [Hc|Hc]%elem_of_app.
        -- split; [by apply Hcomps|]. intros b Hb. by eapply Hold.
        -- apply list_elem_of_singleton in Hc as ->. split.
           ++ split; [by exists a|]. split; [done|]. split.
              ** rewrite Hst in Hstable. apply Forall_forall. intros b Hb.
                 rewrite forallb_forall in Hstable. by apply Hstable, list_elem_of_In.
              ** apply Nat.ltb_lt in Hlen. lia.
           ++ intros b Hb. rewrite Hv. apply elem_of_union_r, elem_of_idset. by exists b.
      * done.
      * done.
      * intros x Hx Hxv Hstab. rewrite Hv in Hxv. apply elem_of_union in Hxv as [Hxv|Hxv].
        -- destruct (Hcover x Hx Hxv Hstab) as (c & Hc & Hxc).
           exists c. split; [|done]. apply elem_of_app. by left.
        -- exists (bfs_component r). split; [apply elem_of_app; right; by left|].
           by apply Hreported.
    + exists comps. unfold scanInvariant; simpl.
      split; [done|]. split; [done|]. split; [done|]. split.
      { intros c Hc. split; [by apply Hcomps|]. intros b Hb. by eapply Hold. }
      split; [done|]. split; [done|].
      intros x Hx Hxv Hstab. rewrite Hv in Hxv. apply elem_of_union in Hxv as [Hxv|Hxv].
      * by apply Hcover.
      * destruct (Hreported x Hx Hxv Hstab) as [_ Hyes]. congruence.
Qed.

Lemma scan_fold_spec (todo handled : list AtomEntity) (comps : list (list AtomEntity))
    (sc : Scan) :
  (∀ a, a ∈ todo → a ∈ ats) → scanInvariant ats bs handled comps sc →
  ∃ comps', scanInvariant ats bs (handled ++ todo) comps' (foldl (scanAtom ats bs) sc todo).
Proof.
  revert handled comps sc. induction todo as [|a todo IH]; intros handled comps sc Hsub Hinv.
  - exists comps. by rewrite app_nil_r.
  - simpl. destruct (scanAtom_spec handled comps sc a) as (comps1 & Hinv1); [|done|].
    { apply Hsub. by left. }
    destruct (IH (handled ++ [a]) comps1 (scanAtom ats bs sc a)) as (comps2 & Hinv2); [|done|].
    { intros x Hx. apply Hsub. by right. }
    exists comps2. by rewrite <- app_assoc in Hinv2.
Qed.

(** The whole scan: the components it reports are the stable molecules of
    the store, each once. *)
Lemma scanAll_spec :
  ∃ comps, scanInvariant ats bs ats comps (scanAll ats bs).
Proof.
  unfold scanAll.
  destruct (scan_fold_spec ats [] []
              {| scan_visited := ∅; scan_toRemove := []; scan_effects := [] |})
    as (comps & Hinv); [done| |by exists comps].
  unfold scanInvariant; simpl.
  split; [done|]. split; [done|]. split; [apply NoDup_nil_2|]. split.
  { intros c Hc. by apply elem_of_nil in Hc. }
  split; [intros i j _ Hi; by apply not_elem_of_empty in Hi|].
  split; [intros a Ha; by apply elem_of_nil in Ha|].
  intros a _ Ha. by apply not_elem_of_empty in Ha.
Qed.

Lemma molecule_member (c : list AtomEntity) (a : AtomEntity) :
  stableMolecule ats bs c → a ∈ c → a ∈ ats ∧ stableComponent ats bs a.
Proof.
  intros ((a0 & Ha0 & Hmem) & Hnd & Hfull & Hlen) Ha.
  destruct (proj1 (Hmem a) Ha) as [Ha_in Hconn]. split; [done|]. split.
  - intros b [Hb Hab]. rewrite Forall_forall in Hfull. apply Hfull, Hmem.
    split; [done|]. by eapply connected_trans.
  - destruct c as [|x [|y c]]; simpl in Hlen; [lia|lia|].
    apply NoDup_cons in Hnd as [Hxy _].
    assert (Hin : ∀ b, b ∈ x :: y :: c → inComponent ats bs a b).
    { intros b Hb. destruct (proj1 (Hmem b) Hb) as [Hb_in Hb_conn]. split; [done|].
      eapply connected_trans; [|exact Hb_conn]. by apply connected_sym. }
    destruct (decide (atom_id x = atom_id a)) as [Hxa|Hxa].
    + assert (x = a) as ->.
      { apply (same_id_same_atom ats); [done| |done|done]. apply Hin. by left. }
      exists y. split; [apply Hin; right; by left|]. intros ->. apply Hxy. by left.
    + exists x. split; [apply Hin; by left|]. by intros ->.
Qed.

Lemma toRemove_stable (comps : list (list AtomEntity)) (a : AtomEntity) :
  scanInvariant ats bs ats comps (scanAll ats bs) → a ∈ ats →
  atom_id a ∈ scan_toRemove (scanAll ats bs) ↔ stableComponent ats bs a.
Proof.
  intros (_ & Hrem & _ & Hcomps & _ & Hall & Hcover) Ha. rewrite Hrem. split.
  - intros Hin. apply list_elem_of_In, in_flat_map in Hin as (c & Hc & Hin).
    apply list_elem_of_In in Hc. apply list_elem_of_In, list_elem_of_fmap in Hin as (b & Hid & Hb).
    destruct (Hcomps c Hc) as [Hmol _].
    destruct (molecule_member c b Hmol Hb) as [Hb_in Hstab].
    by rewrite (same_id_same_atom ats a b ids_unique Ha Hb_in Hid).
  - intros Hstab. destruct (Hcover a Ha (Hall a Ha) Hstab) as (c & Hc & Hac).
    apply list_elem_of_In, in_flat_map. exists c. split; [by apply list_elem_of_In|].
    apply list_elem_of_In, list_elem_of_fmap. by exists a.
Qed.

Lemma toRemove_id (comps : list (list AtomEntity)) (i : string) :
  scanInvariant ats bs ats comps (scanAll ats bs) →
  i ∈ scan_toRemove (scanAll ats bs)
  ↔ ∃ a, a ∈ ats ∧ stableComponent ats bs a ∧ atom_id a = i.
Proof.
  intros Hinv. split.
  - intros Hin. pose proof Hinv as (_ & Hrem & _ & Hcomps & _).
    rewrite Hrem in Hin. apply list_elem_of_In, in_flat_map in Hin as (c & Hc & Hin).
    apply list_elem_of_In in Hc. apply list_elem_of_In, list_elem_of_fmap in Hin as (b & Hid & Hb).
    destruct (Hcomps c Hc) as [Hmol _].
    destruct (molecule_member c b Hmol Hb) as [Hb_in Hstab]. by exists b.
  - intros (a & Ha & Hstab & <-). by apply (toRemove_stable comps).
Qed.

Lemma stable_same_component (x y : AtomEntity) :
  x ∈ ats → stableComponent ats bs x → inComponent ats bs x y →
  stableComponent ats bs y.
Proof.
  intros Hx [Hfull (z & Hz & Hzx)] [Hy Hxy]. split.
  - intros b [Hb Hyb]. apply Hfull. split; [done|]. by eapply connected_trans.
  - destruct (decide (atom_id x = atom_id y)) as [Hid|Hid].
    + assert (x = y) as <- by (by apply (same_id_same_atom ats)). by exists z.
    + exists x. split; [|by intros ->]. split; [done|]. by apply connected_sym.
Qed.

(** The ids marked for removal are closed under adjacency. *)
Lemma toRemove_closed (comps : list (list AtomEntity)) (i j : string) :
  scanInvariant ats bs ats comps (scanAll ats bs) →
  i ∈ scan_toRemove (scanAll ats bs) → adjacent ats bs i j →
  j ∈ scan_toRemove (scanAll ats bs).
Proof.
  intros Hinv Hi Hadj.
  apply (toRemove_id comps i Hinv) in Hi as (x & Hx & Hstab & <-).
  pose proof Hadj as (_ & _ & Hj). apply list_elem_of_fmap in Hj as (y & -> & Hy).
  apply (toRemove_id comps _ Hinv). exists y. split; [done|]. split; [|done].
  apply (stable_same_component x); [done|done|]. split; [done|]. by apply rtc_once.
Qed.

End Scan.

Lemma countIn_bump (ty ty' : AtomType.t) (c : list (AtomType.t * Z)) :
  countIn (bump ty c) ty' = countIn c ty' + (if decide (ty = ty') then 1 else 0).
Proof.
  unfold countIn. induction c as [|[t n] c IH]; simpl.
  - destruct (decide (ty = ty')) as [->|Hne].
    + by rewrite bool_decide_eq_true_2.
    + by rewrite bool_decide_eq_false_2.
  - destruct (decide (t = ty)) as [->|Hne]; simpl.
    + destruct (decide (ty = ty')) as [->|Hne'].
      * by rewrite bool_decide_eq_true_2.
      * rewrite bool_decide_eq_false_2 by done. lia.
    + destruct (bool_decide (t = ty')) eqn:Ht; [|done].
      apply bool_decide_eq_true in Ht. subst t.
      destruct (decide (ty = ty')); [congruence|]. simpl. lia.
Qed.

Lemma compositionOf_count (component : list AtomEntity) (ty : AtomType.t) :
  countIn (compositionOf component) ty = typeCount ty component.
Proof.
  unfold compositionOf, typeCount.
  assert (Hgen : ∀ acc, countIn (foldl (λ c a, bump (atom_type a) c) acc component) ty
                        = countIn acc ty
                          + Z.of_nat (length (List.filter (λ a, bool_decide (atom_type a = ty))
                                                          component))).
  { induction component as [|a component IH]; intros acc; simpl; [lia|].
    rewrite IH, countIn_bump.
    destruct (decide (atom_type a = ty)) as [Heq|Hne].
    - rewrite bool_decide_eq_true_2 by done. simpl. lia.
    - rewrite bool_decide_eq_false_2 by done. lia. }
  by rewrite Hgen.
Qed.

(** What one call of [checkMolecules] reports and removes. *)
Lemma checkMolecules_spec (s : State) :
  NoDup (map atom_id (atoms s)) →
  ∃ comps : list (list AtomEntity),
    (checkMolecules s).2
    = flat_map (λ c, [PlaySound "success";
                      ScoreUpdate (Z.of_nat (length c) * 100);
                      IdentifyMolecule (compositionOf c)]) comps
    ∧ (∀ c ty, countIn (compositionOf c) ty = typeCount ty c)
    ∧ NoDup (concat comps)
    ∧ (∀ c, c ∈ comps → stableMolecule (atoms s) (bonds s) c)
    ∧ (∀ a, a ∈ atoms s → stableComponent (atoms s) (bonds s) a →
            ∃ c, c ∈ comps ∧ a ∈ c)
    ∧ (∀ a, a ∈ atoms (checkMolecules s).1
            ↔ a ∈ atoms s ∧ ¬ stableComponent (atoms s) (bonds s) a)
    ∧ (∀ b, b ∈ bonds (checkMolecules s).1
            ↔ b ∈ bonds s
              ∧ ∀ a, a ∈ atoms s → stableComponent (atoms s) (bonds s) a →
                     atom_id a ≠ atom1Id b ∧ atom_id a ≠ atom2Id b).
Proof.
  intros Hnd. destruct (scanAll_spec (atoms s) (bonds s) Hnd) as (comps & Hinv).
  pose proof (λ a, toRemove_stable (atoms s) (bonds s) Hnd comps a Hinv) as Hstable.
  pose proof (λ i, toRemove_id (atoms s) (bonds s) Hnd comps i Hinv) as Hid.
  pose proof Hinv as (Heff & Hrem & Hcnd & Hcomps & _ & Hall & Hcover).
  exists comps.
  assert (Heffs : (checkMolecules s).2 = scan_effects (scanAll (atoms s) (bonds s))).
  { unfold checkMolecules. by case_match. }
  assert (Hatoms : ∀ a, a ∈ atoms (checkMolecules s).1
                        ↔ a ∈ atoms s ∧ atom_id a ∉ scan_toRemove (scanAll (atoms s) (bonds s))).
  { intros a. unfold checkMolecules. case_match eqn:Hlen; simpl.
    - rewrite list_elem_of_In, filter_In, <- list_elem_of_In. unfold includes.
      by rewrite negb_true_iff, bool_decide_eq_false.
    - apply Nat.ltb_ge in Hlen. apply Nat.le_0_r, length_zero_iff_nil in Hlen.
      rewrite Hlen. split; [|tauto]. intros Ha. split; [done|]. apply not_elem_of_nil. }
  assert (Hbonds : ∀ b, b ∈ bonds (checkMolecules s).1
                        ↔ b ∈ bonds s
                          ∧ (atom1Id b ∉ scan_toRemove (scanAll (atoms s) (bonds s)))
                          ∧ (atom2Id b ∉ scan_toRemove (scanAll (atoms s) (bonds s)))).
  { intros b. unfold checkMolecules. case_match eqn:Hlen; simpl.
    - rewrite list_elem_of_In, filter_In, <- list_elem_of_In. unfold includes.
      by rewrite andb_true_iff, !negb_true_iff, !bool_decide_eq_false.
    - apply Nat.ltb_ge in Hlen. apply Nat.le_0_r, length_zero_iff_nil in Hlen.
      rewrite Hlen. split; [|tauto]. intros Hb. split; [done|]. split; apply not_elem_of_nil. }
  split; [by rewrite Heffs, Heff|].
  split; [apply compositionOf_count|].
  split; [by eapply NoDup_fmap_1|].
  split; [intros c Hc; by apply Hcomps|].
  split; [intros a Ha Hst; by apply Hcover; [|apply Hall|]|].
  split.
  - intros a. rewrite Hatoms. split.
    + intros [Ha Hout]. split; [done|]. intros Hst. by apply Hout, Hstable.
    + intros [Ha Hns]. split; [done|]. intros Hin. by apply Hns, Hstable.
  - intros b. rewrite Hbonds, !Hid. split.
    + intros (Hb & H1 & H2). split; [done|]. intros a Ha Hst.
      split; intros Heq; [apply H1|apply H2]; by exists a.
    + intros (Hb & Hfree). split; [done|].
      split; intros (a & Ha & Hst & Heq); by destruct (Hfree a Ha Hst).
Qed.

(** C3.  Let the atoms of the store have distinct ids.  The detector
    reports a list [comps] of components, and for each of them, in order,
    it plays the success sound, adds 100 points per member and asks for the
    identification of its composition, which counts the members of every
    type.  Every reported component is a stable molecule: the atoms of one
    connected component of the bond graph, all at full valency, at least
    two of them; so no component with a member below its valency is ever
    reported.  Every atom whose component is stable is in a reported
    component, and no atom is in two.  The atoms left in the store are
    those whose component is not stable, and the bonds left are those that
    touch no atom of a stable component. *)
Theorem stability_detector (s : State) :
  NoDup (map atom_id (atoms s)) →
  ∃ comps : list (list AtomEntity),
    (checkMolecules s).2
    = flat_map (λ c, [PlaySound "success";
                      ScoreUpdate (Z.of_nat (length c) * 100);
                      IdentifyMolecule (compositionOf c)]) comps
    ∧ (∀ c ty, countIn (compositionOf c) ty = typeCount ty c)
    ∧ NoDup (concat comps)
    ∧ (∀ c, c ∈ comps → stableMolecule (atoms s) (bonds s) c)
    ∧ (∀ a, a ∈ atoms s → stableComponent (atoms s) (bonds s) a →
            ∃ c, c ∈ comps ∧ a ∈ c)
    ∧ (∀ a, a ∈ atoms (checkMolecules s).1
            ↔ a ∈ atoms s ∧ ¬ stableComponent (atoms s) (bonds s) a)
    ∧ (∀ b, b ∈ bonds (checkMolecules s).1
            ↔ b ∈ bonds s
              ∧ ∀ a, a ∈ atoms s → stableComponent (atoms s) (bonds s) a →
                     atom_id a ≠ atom1Id b ∧ atom_id a ≠ atom2Id b).
Proof. apply checkMolecules_spec. Qed.

(** ** Bond counts *)

Lemma degree_cons (b : BondEntity) (bs : list BondEntity) (i : string) :
  degree (b :: bs) i = (if touches i b then 1 else 0) + degree bs i.
Proof. unfold degree. simpl. destruct (touches i b); simpl; lia. Qed.

Lemma degree_app (bs1 bs2 : list BondEntity) (i : string) :
  degree (bs1 ++ bs2) i = degree bs1 i + degree bs2 i.
Proof. unfold degree. rewrite List.filter_app, length_app. lia. Qed.

Lemma id_count (ats : list AtomEntity) (i : string) :
  NoDup (map atom_id ats) → i ∈ map atom_id ats →
  foldr (λ a n, (if String.eqb (atom_id a) i then 1 else 0) + n) 0 ats = 1.
Proof.
  induction ats as [|a ats IH]; simpl; intros Hnd Hi.
  - by apply elem_of_nil in Hi.
  - apply NoDup_cons in Hnd as [Ha Hnd].
    destruct (String.eqb (atom_id a) i) eqn:Hai.
    + apply String.eqb_eq in Hai. subst i.
      assert (Hzero : ∀ l, atom_id a ∉ map atom_id l →
                foldr (λ x n, (if String.eqb (atom_id x) (atom_id a) then 1 else 0) + n) 0 l = 0).
      { clear. induction l as [|x l IHl]; simpl; intros Hout; [done|].
        apply not_elem_of_cons in Hout as [Hne Hout].
        rewrite (proj2 (String.eqb_neq _ _)) by done. by rewrite IHl. }
      by rewrite Hzero.
    + apply String.eqb_neq in Hai. apply elem_of_cons in Hi as [Hi|Hi]; [congruence|].
      by rewrite IH.
Qed.

Lemma touch_count (ats : list AtomEntity) (b : BondEntity) :
  NoDup (map atom_id ats) → atom1Id b ≠ atom2Id b →
  atom1Id b ∈ map atom_id ats → atom2Id b ∈ map atom_id ats →
  foldr (λ a n, (if touches (atom_id a) b then 1 else 0) + n) 0 ats = 2.
Proof.
  intros Hnd Hne H1 H2.
  pose proof (id_count ats _ Hnd H1) as Hc1. pose proof (id_count ats _ Hnd H2) as Hc2.
  assert (Hsum : ∀ l,
            foldr (λ a n, (if touches (atom_id a) b then 1 else 0) + n) 0 l
            = foldr (λ a n, (if String.eqb (atom_id a) (atom1Id b) then 1 else 0) + n) 0 l
              + foldr (λ a n, (if String.eqb (atom_id a) (atom2Id b) then 1 else 0) + n) 0 l).
  { induction l as [|a l IHl]; simpl; [done|]. rewrite IHl. unfold touches.
    rewrite (String.eqb_sym (atom1Id b)), (String.eqb_sym (atom2Id b)).
    destruct (String.eqb (atom_id a) (atom1Id b)) eqn:E1,
             (String.eqb (atom_id a) (atom2Id b)) eqn:E2; simpl; try lia.
    apply String.eqb_eq in E1, E2. congruence. }
  rewrite Hsum. lia.
Qed.

Lemma degree_sum (ats : list AtomEntity) (bs : list BondEntity) :
  NoDup (map atom_id ats) →
  Forall (λ b, atom1Id b ≠ atom2Id b
               ∧ atom1Id b ∈ map atom_id ats ∧ atom2Id b ∈ map atom_id ats) bs →
  foldr (λ a n, degree bs (atom_id a) + n) 0 ats = 2 * Z.of_nat (length bs).
Proof.
  intros Hnd. induction bs as [|b bs IH]; intros Hbs.
  - clear. induction ats as [|a ats IHa]; simpl; [done|]. by rewrite IHa.
  - apply Forall_cons in Hbs as [(Hne & H1 & H2) Hbs].
    assert (Hsplit : ∀ l,
              foldr (λ a n, degree (b :: bs) (atom_id a) + n) 0 l
              = foldr (λ a n, (if touches (atom_id a) b then 1 else 0) + n) 0 l
                + foldr (λ a n, degree bs (atom_id a) + n) 0 l).
    { induction l as [|a l IHl]; simpl; [done|]. rewrite IHl, degree_cons. lia. }
    rewrite Hsplit, IH, touch_count by done. simpl length. lia.
Qed.

(** In a consistent store the bond counts of the atoms add up to twice the
    number of bond records. *)
Lemma consistent_total (s : State) :
  consistent s → totalBonds (atoms s) = 2 * Z.of_nat (length (bonds s)).
Proof.
  intros (Hnd & Hbs & Hcb). rewrite <- (degree_sum (atoms s) (bonds s) Hnd Hbs).
  unfold totalBonds. clear Hnd Hbs. revert Hcb. generalize (atoms s) as l.
  induction 1 as [|a l Ha Hl IH]; simpl; [done|]. by rewrite Ha, IH.
Qed.

(** *** Operations that keep the store consistent *)

Lemma ids_of_cores (ats : list AtomEntity) :
  map atom_id ats = map (λ p : string * Z * AtomType.t, p.1.1) (map core ats).
Proof. by rewrite map_map. Qed.

Lemma consistent_same_cores (s s' : State) :
  map core (atoms s') = map core (atoms s) → bonds s' = bonds s →
  consistent s → consistent s'.
Proof.
  intros Hcore Hbonds (Hnd & Hbs & Hcb). unfold consistent.
  rewrite Hbonds, (ids_of_cores (atoms s')), Hcore, <- ids_of_cores.
  split; [done|]. split; [done|].
  assert (Hiff : ∀ l, Forall (λ a, currentBonds a = degree (bonds s) (atom_id a)) l
                      ↔ Forall (λ p : string * Z * AtomType.t, p.1.2 = degree (bonds s) p.1.1)
                               (map core l)).
  { intros l. by rewrite Forall_fmap. }
  apply Hiff. rewrite Hcore. by apply Hiff.
Qed.

Lemma cores_alter (f : AtomEntity → AtomEntity) (i : nat) (l : list AtomEntity) :
  (∀ a, core (f a) = core a) → map core (alter f i l) = map core l.
Proof.
  intros Hf. revert i. induction l as [|a l IH]; intros [|i]; simpl; try done.
  - by rewrite Hf.
  - f_equal. apply IH.
Qed.

Lemma ids_alter (f : AtomEntity → AtomEntity) (i : nat) (l : list AtomEntity) :
  (∀ a, atom_id (f a) = atom_id a) → map atom_id (alter f i l) = map atom_id l.
Proof.
  intros Hf. revert i. induction l as [|a l IH]; intros [|i]; simpl; try done.
  - by rewrite Hf.
  - f_equal. apply IH.
Qed.

Lemma cores_imap (f : nat → AtomEntity → AtomEntity) (l : list AtomEntity) :
  (∀ i a, core (f i a) = core a) → map core (imap f l) = map core l.
Proof.
  revert f. induction l as [|a l IH]; intros f Hf; simpl; [done|].
  rewrite Hf. f_equal. apply IH. intros i b. apply Hf.
Qed.

Lemma degree_absent (ats : list AtomEntity) (bs : list BondEntity) (i : string) :
  Forall (λ b, atom1Id b ≠ atom2Id b
               ∧ atom1Id b ∈ map atom_id ats ∧ atom2Id b ∈ map atom_id ats) bs →
  i ∉ map atom_id ats → degree bs i = 0.
Proof.
  intros Hbs Hi. induction Hbs as [|b bs (_ & H1 & H2) _ IH]; [done|].
  rewrite degree_cons, IH. unfold touches.
  rewrite (proj2 (String.eqb_neq _ _)), (proj2 (String.eqb_neq _ _)); [done| |];
    intros Heq; apply Hi; by rewrite <- Heq.
Qed.

Lemma consistent_spawnStep (time : Z) (env : TickEnv) (s s1 : State) :
  new_atom_id (draws env) ∉ map atom_id (atoms s) →
  spawnStep time env s = Some s1 → consistent s → consistent s1.
Proof.
  intros Hfresh. unfold spawnStep. case_match; [|by intros [= <-]].
  unfold spawnAtom. destruct (container env) as [[w h]|]; simpl; [|by intros [= <-]].
  destruct (pickType _) as [ty|]; simpl; [|done].
  destruct (spawnPosition _ _ _ _) as [x y]. intros [= <-] (Hnd & Hbs & Hcb).
  unfold consistent; simpl. rewrite map_app. simpl. split; [|split].
  - apply NoDup_app. split; [done|]. split; [|apply NoDup_singleton].
    intros i Hi Hi'%list_elem_of_singleton. by subst i.
  - eapply Forall_impl; [exact Hbs|]. simpl. intros b (Hne & H1 & H2).
    split; [done|]. split; apply elem_of_app; by left.
  - apply Forall_app. split; [done|]. apply Forall_singleton. simpl.
    symmetry. by eapply degree_absent.
Qed.

Lemma consistent_physicsStep (env : TickEnv) (s : State) :
  consistent s → consistent (physicsStep env s).
Proof.
  apply consistent_same_cores; [|done]. simpl. by apply cores_imap.
Qed.

Lemma alter_as_map (f : AtomEntity → AtomEntity) (l : list AtomEntity) (i : nat)
    (a : AtomEntity) :
  NoDup (map atom_id l) → l !! i = Some a →
  alter f i l = map (λ x, if has_id (atom_id a) x then f x else x) l.
Proof.
  revert i. induction l as [|x l IH]; intros i Hnd Hi; [done|].
  apply NoDup_cons in Hnd as [Hx Hnd]. destruct i as [|i]; simpl in *.
  - inversion Hi; subst x. unfold has_id at 1. rewrite String.eqb_refl. f_equal.
    clear IH Hi Hnd. induction l as [|y l IHl]; simpl; [done|].
    apply not_elem_of_cons in Hx as [Hne Hx]. unfold has_id at 1.
    rewrite (proj2 (String.eqb_neq _ _)) by done. f_equal. by apply IHl.
  - unfold has_id at 1. rewrite (proj2 (String.eqb_neq _ _)).
    + f_equal. by apply IH.
    + intros Heq. apply Hx. rewrite Heq. apply list_elem_of_fmap.
      exists a. split; [done|]. by eapply list_elem_of_lookup_2.
Qed.

Lemma degree_new_bond (bid d n i : string) :
  d ≠ n →
  degree [ {| bond_id := bid; atom1Id := d; atom2Id := n; stress := 0 |} ] i
  = (if String.eqb i d then 1 else 0) + (if String.eqb i n then 1 else 0).
Proof.
  intros Hne. unfold degree, touches. simpl.
  rewrite (String.eqb_sym d), (String.eqb_sym n).
  destruct (String.eqb i d) eqn:Ed, (String.eqb i n) eqn:En; simpl; try done.
  apply String.eqb_eq in Ed, En. congruence.
Qed.

Lemma consistent_createBond (s : State) (bid : string) (i j : nat) (dragger neighbor : AtomEntity) :
  bondAttempt s = Some ((i, dragger), (j, neighbor)) →
  consistent s → consistent (createBond bid i j dragger neighbor s).
Proof.
  intros Hb (Hnd & Hbs & Hcb).
  apply bondAttempt_Some in Hb as (Hi & Hj & Hij & Hne & _).
  assert (Hids : map atom_id (alter incrBonds j (alter incrBonds i (atoms s)))
                 = map atom_id (atoms s)).
  { by rewrite !ids_alter. }
  assert (Hd_in : atom_id dragger ∈ map atom_id (atoms s)).
  { apply list_elem_of_fmap. exists dragger. split; [done|]. by eapply list_elem_of_lookup_2. }
  assert (Hn_in : atom_id neighbor ∈ map atom_id (atoms s)).
  { apply list_elem_of_fmap. exists neighbor. split; [done|]. by eapply list_elem_of_lookup_2. }
  unfold consistent, createBond; simpl. rewrite Hids. split; [done|]. split.
  - apply Forall_app. split; [done|]. by apply Forall_singleton.
  - rewrite (alter_as_map incrBonds (alter incrBonds i (atoms s)) j neighbor).
    2:{ by rewrite ids_alter. }
    2:{ by rewrite list_lookup_alter_ne. }
    rewrite (alter_as_map incrBonds (atoms s) i dragger) by done.
    rewrite map_map. apply Forall_fmap. eapply Forall_impl; [exact Hcb|].
    intros a Ha. simpl in Ha. unfold compose, has_id. cbv beta.
    destruct (String.eqb (atom_id a) (atom_id dragger)) eqn:Ed.
    + change (atom_id (incrBonds a)) with (atom_id a).
      assert (En : String.eqb (atom_id a) (atom_id neighbor) = false).
      { apply String.eqb_neq. apply String.eqb_eq in Ed. congruence. }
      rewrite En. simpl. rewrite degree_app, degree_new_bond, Ed, En by done. lia.
    + destruct (String.eqb (atom_id a) (atom_id neighbor)) eqn:En; simpl;
        rewrite degree_app, degree_new_bond, Ed, En by done; lia.
Qed.

Lemma ids_filter_NoDup (p : AtomEntity → bool) (l : list AtomEntity) :
  NoDup (map atom_id l) → NoDup (map atom_id (List.filter p l)).
Proof.
  induction l as [|a l IH]; simpl; [done|]. intros [Ha Hnd]%NoDup_cons.
  destruct (p a); simpl; [|by apply IH].
  apply NoDup_cons. split; [|by apply IH]. intros Hin. apply Ha.
  apply list_elem_of_fmap in Hin as (b & -> & Hb). apply list_elem_of_fmap. exists b.
  split; [done|]. apply list_elem_of_In, filter_In in Hb as [Hb _]. by apply list_elem_of_In.
Qed.

Lemma degree_filter (keep : BondEntity → bool) (bs : list BondEntity) (i : string) :
  (∀ b, b ∈ bs → touches i b = true → keep b = true) →
  degree (List.filter keep bs) i = degree bs i.
Proof.
  induction bs as [|b bs IH]; intros Hkeep; simpl; [done|].
  assert (Hrest : ∀ b', b' ∈ bs → touches i b' = true → keep b' = true).
  { intros b' Hb'. apply Hkeep. by right. }
  destruct (keep b) eqn:Hb.
  - rewrite !degree_cons, IH by done. done.
  - rewrite degree_cons, IH by done.
    destruct (touches i b) eqn:Ht; [|done]. rewrite Hkeep in Hb; [done|by left|done].
Qed.

Lemma consistent_checkMolecules (s : State) : consistent s → consistent (checkMolecules s).1.
Proof.
  intros (Hnd & Hbs & Hcb).
  destruct (scanAll_spec (atoms s) (bonds s) Hnd) as (comps & Hinv).
  pose proof (λ i j, toRemove_closed (atoms s) (bonds s) Hnd comps i j Hinv) as Hclosed.
  unfold checkMolecules. case_match; simpl; [|done].
  set (T := scan_toRemove (scanAll (atoms s) (bonds s))) in *.
  rewrite Forall_forall in Hbs. rewrite Forall_forall in Hcb.
  assert (Hkept : ∀ i, i ∈ map atom_id (atoms s) → i ∉ T →
            i ∈ map atom_id (List.filter (λ a, negb (includes T (atom_id a))) (atoms s))).
  { intros i Hi Hout. apply list_elem_of_fmap in Hi as (a & -> & Ha).
    apply list_elem_of_fmap. exists a. split; [done|].
    apply list_elem_of_In, filter_In. split; [by apply list_elem_of_In|].
    unfold includes. by rewrite negb_true_iff, bool_decide_eq_false. }
  split; [by apply ids_filter_NoDup|]. split.
  - apply Forall_forall. intros b Hb.
    apply list_elem_of_In, filter_In in Hb as [Hb Hends]. apply list_elem_of_In in Hb.
    apply andb_true_iff in Hends as [H1 H2]. unfold includes in H1, H2.
    rewrite negb_true_iff, bool_decide_eq_false in H1, H2.
    destruct (Hbs b Hb) as (Hne & Hi1 & Hi2).
    split; [done|]. split; by apply Hkept.
  - apply Forall_forall. intros a Ha.
    apply list_elem_of_In, filter_In in Ha as [Ha Hout]. apply list_elem_of_In in Ha.
    unfold includes in Hout. rewrite negb_true_iff, bool_decide_eq_false in Hout.
    rewrite (Hcb a Ha). symmetry. apply degree_filter. intros b Hb Ht.
    destruct (Hbs b Hb) as (Hne & Hi1 & Hi2).
    assert (Hadj : adjacent (atoms s) (bonds s) (atom1Id b) (atom2Id b)).
    { split; [|done]. exists b. split; [done|]. by left. }
    assert (Hboth : (atom1Id b ∉ T) ∧ (atom2Id b ∉ T)).
    { unfold touches in Ht. apply orb_true_iff in Ht as [Ht|Ht]; apply String.eqb_eq in Ht.
      - rewrite Ht. split; [done|]. intros H2. apply Hout. rewrite <- Ht.
        apply (Hclosed (atom2Id b)); [done|]. by apply adjacent_sym.
      - rewrite Ht. split; [|done]. intros H1. apply Hout. rewrite <- Ht.
        by apply (Hclosed (atom1Id b)). }
    destruct Hboth as [H1 H2]. unfold includes.
    by rewrite andb_true_iff, !negb_true_iff, !bool_decide_eq_false.
Qed.

Lemma decrFound_as_map (i : string) (ats : list AtomEntity) :
  NoDup (map atom_id ats) →
  decrFound i ats = map (λ a, if has_id i a then decrBonds a else a) ats.
Proof.
  intros Hnd. unfold decrFound.
  destruct (findIndexed (has_id i) ats) as [[k a]|] eqn:Hf.
  - apply findIndexed_Some in Hf as (Hk & Hid & _).
    rewrite (alter_as_map decrBonds ats k a Hnd Hk).
    apply String.eqb_eq in Hid. by rewrite Hid.
  - rewrite findIndexed_None in Hf.
    transitivity (map (λ a : AtomEntity, a) ats); [by rewrite map_id|].
    apply map_ext_in. intros a Ha%list_elem_of_In. by rewrite (Hf a Ha).
Qed.

Lemma ids_decrFound (i : string) (ats : list AtomEntity) :
  map atom_id (decrFound i ats) = map atom_id ats.
Proof.
  unfold decrFound. destruct (findIndexed _ _) as [[? ?]|]; [|done]. by rewrite ids_alter.
Qed.

Lemma degree_delete (bs : list BondEntity) (k : nat) (b : BondEntity) (i : string) :
  bs !! k = Some b →
  degree (delete k bs) i + (if touches i b then 1 else 0) = degree bs i.
Proof.
  revert k. induction bs as [|x bs IH]; intros [|k] Hk; simpl in *; try done.
  - inversion Hk; subst x. rewrite degree_cons. lia.
  - rewrite !degree_cons. specialize (IH k Hk). lia.
Qed.

Lemma degree_nonneg (bs : list BondEntity) (i : string) : 0 ≤ degree bs i.
Proof. unfold degree. lia. Qed.

Lemma consistent_undoLoop (stack : list string) (ats : list AtomEntity) (bs : list BondEntity)
    (s : State) :
  atoms s = ats → bonds s = bs → consistent s →
  ∀ s', atoms s' = (undoLoop stack ats bs).1.2 → bonds s' = (undoLoop stack ats bs).2 →
        consistent s'.
Proof.
  intros <- <- Hs. induction stack as [|lastBondId stack IH]; intros s' Hats Hbonds; simpl in *.
  - apply (consistent_same_cores s); [by rewrite Hats|done|done].
  - destruct (findIndexed (hasBondId lastBondId) (bonds s)) as [[k b]|] eqn:Hf; [|by apply IH].
    destruct (truthy (Some lastBondId)); [|by apply IH]. simpl in *.
    apply findIndexed_Some in Hf as (Hk & _ & _).
    destruct Hs as (Hnd & Hbs & Hcb).
    pose proof (proj1 (Forall_lookup _ _) Hbs k b Hk) as (Hne & H1 & H2).
    assert (Hids1 : map atom_id (decrFound (atom1Id b) (atoms s)) = map atom_id (atoms s))
      by apply ids_decrFound.
    assert (Hids2 : map atom_id (decrFound (atom2Id b) (decrFound (atom1Id b) (atoms s)))
                    = map atom_id (atoms s)) by (by rewrite !ids_decrFound).
    unfold consistent. rewrite Hats, Hbonds, Hids2. split; [done|]. split.
    + by apply Forall_delete.
    + rewrite (decrFound_as_map (atom2Id b)) by (by rewrite Hids1).
      rewrite (decrFound_as_map (atom1Id b)) by done.
      rewrite map_map. apply Forall_fmap. eapply Forall_impl; [exact Hcb|].
      intros a Ha. simpl in Ha. unfold compose, has_id. cbv beta.
      pose proof (degree_delete (bonds s) k b (atom_id a) Hk) as Hdel.
      pose proof (degree_nonneg (delete k (bonds s)) (atom_id a)) as Hpos.
      unfold touches in Hdel.
      rewrite (String.eqb_sym (atom1Id b)), (String.eqb_sym (atom2Id b)) in Hdel.
      destruct (String.eqb (atom_id a) (atom1Id b)) eqn:E1.
      * change (atom_id (decrBonds a)) with (atom_id a).
        assert (E2 : String.eqb (atom_id a) (atom2Id b) = false).
        { apply String.eqb_neq. apply String.eqb_eq in E1. congruence. }
        rewrite E2 in *. simpl in *. lia.
      * destruct (String.eqb (atom_id a) (atom2Id b)) eqn:E2; simpl in *; lia.
Qed.

Lemma consistent_undo (s : State) : consistent s → consistent (undo s).
Proof.
  intros Hs.
  apply (consistent_undoLoop (rev (bondHistory s)) (atoms s) (bonds s) s); try done.
  - apply undo_atoms.
  - apply undo_bonds.
Qed.

Lemma consistent_handlePointerDown (rect : option (Q * Q)) (cx cy : Q) (s : State) :
  consistent s → consistent (handlePointerDown rect cx cy s).
Proof.
  unfold handlePointerDown. destruct rect as [[l t]|]; [|done].
  destruct (findIndexed _ _) as [[k c]|]; apply consistent_same_cores; try done.
  simpl. by apply cores_alter.
Qed.

Section Counts.

Variables (cos sin : Q → Q) (atan2 : Q → Q → Q).

Lemma consistent_handlePointerUp (nudge : Q * Q) (s : State) :
  consistent s → consistent (handlePointerUp cos sin atan2 nudge s).1.
Proof.
  unfold handlePointerUp.
  destruct (draggedAtom s) as [d|]; [|done].
  destruct (truthy (Some d)); [|done].
  destruct (findIndexed (has_id d) (atoms s)) as [[i a]|]; [|by apply consistent_same_cores].
  destruct (findIndexed (isNearby a) _) as [[j n]|].
  - destruct (negb _); apply consistent_same_cores; simpl; try done;
      by rewrite !cores_alter.
  - apply consistent_same_cores; simpl; [|done]. by rewrite cores_alter.
Qed.

Lemma consistent_update (time : Z) (env : TickEnv) (s : State) :
  new_atom_id (draws env) ∉ map atom_id (atoms s) →
  consistent s → consistent (update time env s).1.
Proof.
  intros Hfresh Hs. unfold update, beforeBondStep.
  destruct (negb (gameActive s)); [done|].
  destruct (canvas env); [|done].
  destruct (spawnStep time env s) as [s1|] eqn:Hsp; [|done]. simpl.
  pose proof (consistent_physicsStep env s1 (consistent_spawnStep _ _ _ _ Hfresh Hsp Hs)) as Hp.
  unfold bondStep.
  destruct (bondAttempt (physicsStep env s1)) as [[[i d] [j n]]|] eqn:Hb; [|done].
  pose proof (consistent_checkMolecules _
                (consistent_createBond _ (new_bond_id env) _ _ _ _ Hb Hp)) as Hc.
  by destruct (checkMolecules _).
Qed.

Lemma consistent_run (es : list Event) (s : State) :
  freshSpawns cos sin atan2 s es → consistent s →
  consistent (run cos sin atan2 s es).1.
Proof.
  revert s. induction es as [|e es IH]; intros s Hfresh Hs; simpl in *; [done|].
  destruct Hfresh as [He Hfresh].
  assert (Hstep : consistent (step cos sin atan2 s e).1).
  { destruct e as [time env|rect cx cy|rect cx cy|nudge| |active]; simpl.
    - by apply consistent_update.
    - by apply consistent_handlePointerDown.
    - unfold handlePointerMove. by destruct rect as [[? ?]|].
    - by apply consistent_handlePointerUp.
    - by apply consistent_undo.
    - destruct active; [done|]. unfold consistent; simpl.
      split; [apply NoDup_nil_2|]. split; apply Forall_nil_2. }
  specialize (IH _ Hfresh Hstep).
  destruct (step cos sin atan2 s e) as [s1 effs1]. simpl in *.
  by destruct (run cos sin atan2 s1 es).
Qed.

(** C2.  Along every run in which [uuid()] never hands out the id of an
    atom that is in the store, the bond counts of the atoms add up to twice
    the number of bond records, and every atom counts exactly the bond
    records that reference its id. *)
Theorem bond_count_balance (es : list Event) :
  freshSpawns cos sin atan2 initial es →
  let s := (run cos sin atan2 initial es).1 in
  totalBonds (atoms s) = 2 * Z.of_nat (length (bonds s))
  ∧ ∀ a, a ∈ atoms s → currentBonds a = degree (bonds s) (atom_id a).
Proof.
  intros Hfresh s.
  assert (Hs : consistent s).
  { apply consistent_run; [done|]. unfold consistent; simpl.
    split; [apply NoDup_nil_2|]. split; apply Forall_nil_2. }
  split; [by apply consistent_total|].
  destruct Hs as (_ & _ & Hcb). by rewrite Forall_forall in Hcb.
Qed.

End Counts.

Lemma bond_count_balance_witness :
  freshSpawns cos0 sin0 atan20 initial firstBond
  ∧ totalBonds (atoms (run cos0 sin0 atan20 initial firstBond).1) = 2
  ∧ length (bonds (run cos0 sin0 atan20 initial firstBond).1) = 1%nat.
Proof.
  assert (Hfresh : freshSpawns cos0 sin0 atan20 initial firstBond).
  { simpl. repeat split; compute_done. }
  split; [exact Hfresh|].
  destruct (bond_count_balance cos0 sin0 atan20 firstBond Hfresh) as [Htotal _].
  split; [|reflexivity]. rewrite Htotal. reflexivity.
Defined.

Lemma stability_detector_witness :
  NoDup (map atom_id (atoms water))
  ∧ (checkMolecules water).2
    = [PlaySound "success"; ScoreUpdate 300;
       IdentifyMolecule [(AtomType.H, 2); (AtomType.O, 1)]]
  ∧ map atom_id (atoms (checkMolecules water).1) = ["c1"]
  ∧ bonds (checkMolecules water).1 = []
  ∧ ∃ comps, (∀ c, c ∈ comps → stableMolecule (atoms water) (bonds water) c)
             ∧ (checkMolecules water).2
               = flat_map (λ c, [PlaySound "success";
                                 ScoreUpdate (Z.of_nat (length c) * 100);
                                 IdentifyMolecule (compositionOf c)]) comps.
Proof.
  assert (Hnd : NoDup (map atom_id (atoms water))) by compute_done.
  split; [exact Hnd|]. split; [reflexivity|]. split; [reflexivity|]. split; [reflexivity|].
  destruct (stability_detector water Hnd) as (comps & Heffs & _ & _ & Hmol & _).
  exists comps. split; [exact Hmol|exact Heffs].
Defined.

(** ** The drag reference *)

Lemma kept_id (T : list string) (ats : list AtomEntity) (d : string) :
  d ∈ map atom_id ats → d ∉ T →
  d ∈ map atom_id (List.filter (λ a, negb (includes T (atom_id a))) ats).
Proof.
  intros Hd Hout. apply list_elem_of_fmap in Hd as (a & -> & Ha).
  apply list_elem_of_fmap. exists a. split; [done|].
  apply list_elem_of_In, filter_In. split; [by apply list_elem_of_In|].
  unfold includes. by rewrite negb_true_iff, bool_decide_eq_false.
Qed.

(** C10.  When the detector removes atoms and the dragged atom is one of
    them, the same call clears the drag reference; a reference it leaves
    in place still names a stored atom if it did before.  Whatever the
    reference is, the atoms that the bond step of a frame works on are
    taken from the store of that frame. *)
Theorem drag_reference_cleared (s : State) :
  (∀ d, draggedAtom s = Some d → d ≠ "" →
        d ∈ map atom_id (atoms s) → d ∉ map atom_id (atoms (checkMolecules s).1) →
        draggedAtom (checkMolecules s).1 = None)
  ∧ (∀ d, draggedAtom (checkMolecules s).1 = Some d →
          draggedAtom s = Some d
          ∧ (d ≠ "" → d ∈ map atom_id (atoms s) →
             d ∈ map atom_id (atoms (checkMolecules s).1)))
  ∧ (∀ i j dragger neighbor,
        bondAttempt s = Some ((i, dragger), (j, neighbor)) →
        atoms s !! i = Some dragger ∧ atoms s !! j = Some neighbor
        ∧ draggedAtom s = Some (atom_id dragger)).
Proof.
  split; [|split].
  - intros d Hd Hne Hin Hgone. unfold checkMolecules in *.
    destruct (0 <? length _)%nat; simpl in *; [|done].
    rewrite Hd, (truthy_nonempty d Hne). simpl.
    destruct (includes _ d) eqn:Hinc; [done|]. exfalso. apply Hgone.
    apply kept_id; [done|]. unfold includes in Hinc. by apply bool_decide_eq_false in Hinc.
  - intros d. unfold checkMolecules.
    destruct (0 <? length _)%nat; simpl; [|done].
    destruct (draggedAtom s) as [d0|]; [|done].
    destruct (truthy (Some d0) && includes _ d0) eqn:Hclear; [done|].
    intros [= ->]. split; [done|]. intros Hne Hin.
    rewrite (truthy_nonempty d Hne) in Hclear. simpl in Hclear.
    apply kept_id; [done|]. unfold includes in Hclear. by apply bool_decide_eq_false in Hclear.
  - intros i j dragger neighbor Hb. apply bondAttempt_Some in Hb. tauto.
Qed.

Lemma drag_reference_cleared_witness :
  draggedAtom water = Some "o1"
  ∧ "o1" ∈ map atom_id (atoms water)
  ∧ ("o1" ∉ map atom_id (atoms (checkMolecules water).1))
  ∧ draggedAtom (checkMolecules water).1 = None.
Proof.
  assert (Hin : "o1" ∈ map atom_id (atoms water)) by compute_done.
  assert (Hout : "o1" ∉ map atom_id (atoms (checkMolecules water).1)) by compute_done.
  split; [reflexivity|]. split; [exact Hin|]. split; [exact Hout|].
  apply (proj1 (drag_reference_cleared water) "o1"); [reflexivity|discriminate|exact Hin|exact Hout].
Defined.

(** ** Pending molecules *)

Lemma connected_mono (ats1 ats2 : list AtomEntity) (bs1 bs2 : list BondEntity) (i j : string) :
  (∀ x y, adjacent ats1 bs1 x y → adjacent ats2 bs2 x y) →
  connected ats1 bs1 i j → connected ats2 bs2 i j.
Proof.
  intros Hsub. induction 1 as [|i j k Hij _ IH]; [apply rtc_refl|].
  eapply rtc_l; [|exact IH]. by apply Hsub.
Qed.

Lemma connected_stored (ats : list AtomEntity) (bs : list BondEntity) (i j : string) :
  connected ats bs i j → j ≠ i → i ∈ map atom_id ats ∧ j ∈ map atom_id ats.
Proof.
  induction 1 as [|i j k Hij Hjk IH]; [done|]. intros Hne.
  destruct Hij as (_ & Hi & Hj). split; [done|].
  destruct (decide (k = j)) as [->|Hkj]; [done|]. by apply IH.
Qed.

Lemma stableComponent_id (ats : list AtomEntity) (bs : list BondEntity) (a : AtomEntity) :
  NoDup (map atom_id ats) → a ∈ ats →
  stableComponent ats bs a ↔ stableId ats bs (atom_id a).
Proof.
  intros Hnd Ha. split.
  - intros [Hfull (b & [Hb Hab] & Hne)]. split.
    + intros c Hc Hac. by apply Hfull.
    + exists (atom_id b). split; [|done]. intros Hid. apply Hne.
      by apply (same_id_same_atom ats).
  - intros [Hfull (j & Hne & Hj)]. split.
    + intros b [Hb Hab]. by apply Hfull.
    + destruct (connected_stored _ _ _ _ Hj Hne) as [_ Hin].
      apply list_elem_of_fmap in Hin as (b & -> & Hb).
      exists b. split; [done|]. by intros ->.
Qed.

(** With distinct ids, nothing is pending exactly when a scan changes
    nothing and reports nothing. *)
Lemma scanned_noPending (s : State) :
  NoDup (map atom_id (atoms s)) → scanned s ↔ noPending s.
Proof.
  intros Hnd. destruct (checkMolecules_spec s Hnd)
    as (comps & Heffs & _ & _ & Hmol & Hcover & Hatoms & _).
  unfold scanned, noPending. split.
  - intros Hsame i Hi Hst. apply list_elem_of_fmap in Hi as (a & -> & Ha).
    apply (stableComponent_id _ _ a Hnd Ha) in Hst.
    rewrite Hsame in Hatoms. simpl in Hatoms. by apply (Hatoms a).
  - intros Hnone.
    assert (Hstable : ∀ a, a ∈ atoms s → ¬ stableComponent (atoms s) (bonds s) a).
    { intros a Ha Hst. apply (Hnone (atom_id a)).
      - apply list_elem_of_fmap. by exists a.
      - by apply stableComponent_id. }
    assert (comps = []) as ->.
    { destruct comps as [|c comps]; [done|]. exfalso.
      assert (Hc : stableMolecule (atoms s) (bonds s) c) by (apply Hmol; by left).
      pose proof Hc as ((a & Ha & _) & _).
      destruct (molecule_member (atoms s) (bonds s) Hnd c a Hc Ha) as [Ha_in Hst].
      by apply (Hstable a). }
    simpl in Heffs. destruct (checkMolecules s) as [s' effs] eqn:Hcm. simpl in *. subst effs.
    f_equal. unfold checkMolecules in Hcm.
    destruct (0 <? length (scan_toRemove (scanAll (atoms s) (bonds s))))%nat eqn:Hlen;
      [|by inversion Hcm].
    exfalso. apply Nat.ltb_lt in Hlen.
    destruct (scan_toRemove (scanAll (atoms s) (bonds s))) as [|i T] eqn:HT; [simpl in Hlen; lia|].
    destruct (scanAll_spec (atoms s) (bonds s) Hnd) as (comps & Hinv).
    destruct (proj1 (toRemove_id (atoms s) (bonds s) Hnd comps i Hinv)) as (a & Ha & Hst & _).
    + rewrite HT. by left.
    + by apply (Hstable a).
Qed.

(** What a scan leaves has no stable molecule. *)
Lemma noPending_checkMolecules (s : State) :
  NoDup (map atom_id (atoms s)) → noPending (checkMolecules s).1.
Proof.
  intros Hnd. destruct (scanAll_spec (atoms s) (bonds s) Hnd) as (comps & Hinv).
  pose proof (λ i j, toRemove_closed (atoms s) (bonds s) Hnd comps i j Hinv) as Hclosed.
  pose proof (λ a, toRemove_stable (atoms s) (bonds s) Hnd comps a Hinv) as Hstab.
  assert (Hold : ∀ i, i ∈ map atom_id (atoms s) → stableId (atoms s) (bonds s) i →
                      i ∈ scan_toRemove (scanAll (atoms s) (bonds s))).
  { intros i Hi Hst. apply list_elem_of_fmap in Hi as (a & -> & Ha).
    apply Hstab; [done|]. by apply stableComponent_id. }
  unfold checkMolecules, noPending.
  set (T := scan_toRemove (scanAll (atoms s) (bonds s))) in *.
  destruct (0 <? length T)%nat eqn:Hlen; simpl.
  2:{ intros i Hi Hst. apply Nat.ltb_ge in Hlen. specialize (Hold i Hi Hst).
      destruct T; [by apply elem_of_nil in Hold|simpl in Hlen; lia]. }
  set (ats' := List.filter (λ a, negb (includes T (atom_id a))) (atoms s)).
  set (bs' := List.filter (λ b, negb (includes T (atom1Id b)) && negb (includes T (atom2Id b)))
                          (bonds s)).
  assert (Hats' : ∀ a, a ∈ ats' ↔ a ∈ atoms s ∧ atom_id a ∉ T).
  { intros a. unfold ats'. rewrite list_elem_of_In, filter_In, <- list_elem_of_In.
    unfold includes. by rewrite negb_true_iff, bool_decide_eq_false. }
  assert (Hsub : ∀ x y, adjacent ats' bs' x y → adjacent (atoms s) (bonds s) x y).
  { intros x y ((b & Hb & Hl) & Hx & Hy). split; [|split].
    - exists b. split; [|done].
      apply list_elem_of_In, filter_In in Hb as [Hb _]. by apply list_elem_of_In.
    - apply list_elem_of_fmap in Hx as (a & -> & Ha). apply list_elem_of_fmap.
      exists a. split; [done|]. by apply Hats'.
    - apply list_elem_of_fmap in Hy as (a & -> & Ha). apply list_elem_of_fmap.
      exists a. split; [done|]. by apply Hats'. }
  assert (Hsurvive : ∀ i j, connected (atoms s) (bonds s) i j → i ∉ T →
                            connected ats' bs' i j ∧ j ∉ T).
  { intros i j Hij Hi. revert j Hij. apply rtc_ind_r; [split; [apply rtc_refl|done]|].
    intros j k _ Hjk [IH Hj].
    assert (Hk : k ∉ T).
    { intros Hk. apply Hj. apply (Hclosed k j); [done|]. by apply adjacent_sym. }
    split; [|done]. eapply rtc_r; [exact IH|].
    destruct Hjk as ((b & Hb & Hl) & Hjin & Hkin). split; [|split].
    - exists b. split; [|done]. unfold bs'. apply list_elem_of_In, filter_In.
      split; [by apply list_elem_of_In|]. unfold includes.
      rewrite andb_true_iff, !negb_true_iff, !bool_decide_eq_false.
      destruct Hl as [[-> ->]|[-> ->]]; by split.
    - by apply kept_id.
    - by apply kept_id. }
  intros i Hi [Hfull (j & Hne & Hij)].
  apply list_elem_of_fmap in Hi as (a & -> & Ha). apply Hats' in Ha as [Ha Hout].
  apply Hout, Hold.
  - apply list_elem_of_fmap. by exists a.
  - split.
    + intros b Hb Hab. destruct (Hsurvive _ _ Hab Hout) as [Hab' Hb_out].
      apply Hfull; [|done]. by apply Hats'.
    + exists j. split; [done|]. by eapply connected_mono.
Qed.










(** [undo] itself contains no call of the detector: on the store
    [unscanned], which holds a finished hydrogen molecule that no run of
    the arena leaves behind, it takes the oxygen's bond out and leaves the
    molecule where it is. *)
Lemma undo_runs_no_scan : ¬ undoFollowedByScan.
Proof.
  intros Hscan. specialize (Hscan unscanned).
  assert (Hs : scanned (undo unscanned)).
  { apply Hscan.
    - unfold consistent. split; [compute_done|]. split; compute_done.
    - unfold withinValency. compute_done. }
  unfold scanned in Hs. apply (f_equal snd) in Hs. by vm_compute in Hs.
Qed.

Section Pending.

Variables (cos sin : Q → Q) (atan2 : Q → Q → Q).

Lemma capped_step (s : State) (e : Event) :
  Forall withinValency (atoms s) → Forall withinValency (atoms (step cos sin atan2 s e).1).
Proof.
  apply stored_step; unfold withinValency; simpl; try done.
  - intros a -> _. pose proof (valency_pos (atom_type a)). lia.
  - intros a. lia.
  - intros a. pose proof (valency_pos (atom_type a)). lia.
Qed.





End Pending.


Lemma valency_never_exceeded_witness :
  bondAttempt (handlePointerDown (Some (0%Q, 0%Q)) 160 100 twoOxygens)
  = Some ((1%nat, grab (mkAtom "ob" AtomType.O 160 100 0)),
          (0%nat, mkAtom "oa" AtomType.O 100 100 0))
  ∧ currentBonds (grab (mkAtom "ob" AtomType.O 160 100 0)) < 2
  ∧ currentBonds (mkAtom "oa" AtomType.O 100 100 0) < 2.
Proof.
  assert (Hb : bondAttempt (handlePointerDown (Some (0%Q, 0%Q)) 160 100 twoOxygens)
               = Some ((1%nat, grab (mkAtom "ob" AtomType.O 160 100 0)),
                       (0%nat, mkAtom "oa" AtomType.O 100 100 0))) by reflexivity.
  split; [exact Hb|].
  destruct (valency_never_exceeded cos0 sin0 atan20 []) as (_ & Hguard & _).
  destruct (Hguard _ _ _ _ _ Hb) as (_ & _ & Hd & Hn). split; [exact Hd|exact Hn].
Defined.

(** * Further properties of the arena *)

(** ** The shape of the store *)

Lemma consistent_initial : consistent initial.
Proof.
  unfold consistent; simpl. split; [apply NoDup_nil_2|]. split; apply Forall_nil_2.
Qed.

Section Store.

Variables (cos sin : Q → Q) (atan2 : Q → Q → Q).

(** X1.  Along every run in which [uuid()] never repeats the id of a
    stored atom, the stored atoms have distinct ids, and every bond record
    joins two different atoms that are both in the store: no bond dangles
    and no atom is bonded to itself. *)
Theorem store_well_formed (es : list Event) :
  freshSpawns cos sin atan2 initial es →
  let s := (run cos sin atan2 initial es).1 in
  NoDup (map atom_id (atoms s))
  ∧ ∀ b, b ∈ bonds s →
      atom1Id b ≠ atom2Id b
      ∧ (∃ a1, a1 ∈ atoms s ∧ atom_id a1 = atom1Id b)
      ∧ (∃ a2, a2 ∈ atoms s ∧ atom_id a2 = atom2Id b).
Proof.
  intros Hfresh s.
  destruct (consistent_run cos sin atan2 es initial Hfresh consistent_initial)
    as (Hnd & Hbs & _).
  split; [done|]. intros b Hb. rewrite Forall_forall in Hbs.
  destruct (Hbs b Hb) as (Hne & H1 & H2). split; [done|].
  apply list_elem_of_fmap in H1 as (a1 & E1 & Ha1).
  apply list_elem_of_fmap in H2 as (a2 & E2 & Ha2).
  split; [by exists a1|by exists a2].
Qed.

(** *** The population *)

Lemma length_decrFound (i : string) (ats : list AtomEntity) :
  length (decrFound i ats) = length ats.
Proof.
  unfold decrFound. destruct (findIndexed _ _) as [[k a]|]; [|done]. by rewrite length_alter.
Qed.

Lemma length_undoLoop (stack : list string) (ats : list AtomEntity) (bs : list BondEntity) :
  length (undoLoop stack ats bs).1.2 = length ats.
Proof.
  induction stack as [|i stack IH]; simpl; [done|].
  destruct (findIndexed _ _) as [[k b]|]; [|done].
  destruct (truthy _); [|done]. simpl. by rewrite !length_decrFound.
Qed.

Lemma length_checkMolecules (s : State) :
  (length (atoms (checkMolecules s).1) ≤ length (atoms s))%nat.
Proof.
  unfold checkMolecules. case_match; simpl; [|done]. apply List.filter_length_le.
Qed.

Lemma length_bondStep (env : TickEnv) (s : State) :
  (length (atoms (bondStep env s).1) ≤ length (atoms s))%nat.
Proof.
  unfold bondStep. destruct (bondAttempt s) as [[[i d] [j n]]|]; [|done].
  pose proof (length_checkMolecules (createBond (new_bond_id env) i j d n s)) as Hlen.
  destruct (checkMolecules _) as [s' effs]. simpl in *. by rewrite !length_alter in Hlen.
Qed.

Lemma length_spawnStep (time : Z) (env : TickEnv) (s s1 : State) :
  spawnStep time env s = Some s1 →
  length (atoms s1) = length (atoms s)
  ∨ ((length (atoms s) < 18)%nat ∧ length (atoms s1) = Datatypes.S (length (atoms s))).
Proof.
  unfold spawnStep. destruct (1500 <? time - lastSpawn s); simpl; [|intros [= <-]; by left].
  destruct (length (atoms s) <? 18)%nat eqn:Hcap; simpl; [|intros [= <-]; by left].
  apply Nat.ltb_lt in Hcap. unfold spawnAtom.
  destruct (container env) as [[w h]|]; simpl; [|intros [= <-]; by left].
  destruct (pickType _) as [ty|]; simpl; [|done].
  destruct (spawnPosition _ _ _ _) as [x y]. intros [= <-]. simpl. right.
  split; [done|]. rewrite length_app. simpl. lia.
Qed.

Lemma length_step (s : State) (e : Event) :
  (length (atoms s) ≤ 18)%nat → (length (atoms (step cos sin atan2 s e).1) ≤ 18)%nat.
Proof.
  intros Hs. destruct e as [time env|rect cx cy|rect cx cy|nudge| |active]; simpl.
  - unfold update, beforeBondStep.
    destruct (negb (gameActive s)); [done|].
    destruct (canvas env); [|done].
    destruct (spawnStep time env s) as [s1|] eqn:Hsp; [|done]. simpl.
    etrans; [apply length_bondStep|]. simpl. rewrite length_imap.
    destruct (length_spawnStep _ _ _ _ Hsp) as [->|[? ->]]; lia.
  - unfold handlePointerDown. destruct rect as [[l t]|]; [|done].
    destruct (findIndexed _ _) as [[k c]|]; simpl; [|done]. by rewrite length_alter.
  - unfold handlePointerMove. by destruct rect as [[? ?]|].
  - unfold handlePointerUp.
    destruct (draggedAtom s) as [d|]; [|done].
    destruct (truthy (Some d)); [|done].
    destruct (findIndexed (has_id d) (atoms s)) as [[i a]|]; [|done].
    destruct (findIndexed (isNearby a) _) as [[j n]|].
    + destruct (negb _); simpl; by rewrite !length_alter.
    + simpl. by rewrite length_alter.
  - rewrite undo_atoms. by rewrite length_undoLoop.
  - destruct active; simpl; [done|lia].
Qed.

(** X2.  The arena never holds more than 18 atoms: the spawner adds one
    atom at a time and only to a store of fewer than 18, and no other
    operation adds an atom. *)
Theorem population_cap (es : list Event) :
  (length (atoms (run cos sin atan2 initial es).1) ≤ 18)%nat.
Proof.
  apply (run_invariant cos sin atan2 (λ s, (length (atoms s) ≤ 18)%nat)).
  - apply length_step.
  - simpl. lia.
Qed.

Lemma totalBonds_capped (ats : list AtomEntity) :
  Forall withinValency ats → totalBonds ats ≤ 4 * Z.of_nat (length ats).
Proof.
  unfold totalBonds. induction 1 as [|a l Ha Hl IH]; simpl; [done|].
  unfold withinValency in Ha.
  assert (valency (ATOM_DEFS (atom_type a)) ≤ 4) by (by destruct (atom_type a)).
  lia.
Qed.

(** X3.  Along every run with fresh atom ids the store holds at most 36
    bond records: every bond takes one slot of each of two atoms, an atom
    has at most 4 slots and there are at most 18 atoms. *)
Theorem bond_store_bounded (es : list Event) :
  freshSpawns cos sin atan2 initial es →
  (length (bonds (run cos sin atan2 initial es).1) ≤ 36)%nat.
Proof.
  intros Hfresh.
  pose proof (consistent_total _
                (consistent_run cos sin atan2 es initial Hfresh consistent_initial)) as Htot.
  assert (Hcap : Forall withinValency (atoms (run cos sin atan2 initial es).1)).
  { apply (run_invariant cos sin atan2 (λ s, Forall withinValency (atoms s))).
    - intros s e. apply capped_step.
    - apply Forall_nil_2. }
  apply totalBonds_capped in Hcap.
  assert (Hpop : (length (atoms (run cos sin atan2 initial es).1) ≤ 18)%nat).
  { apply (run_invariant cos sin atan2 (λ s, (length (atoms s) ≤ 18)%nat)).
    - apply length_step.
    - simpl. lia. }
  lia.
Qed.

(** *** The arena between two games *)

Lemma gameActive_checkMolecules (s : State) :
  gameActive (checkMolecules s).1 = gameActive s.
Proof. unfold checkMolecules. by case_match. Qed.

Lemma gameActive_bondStep (env : TickEnv) (s : State) :
  gameActive (bondStep env s).1 = gameActive s.
Proof.
  unfold bondStep. destruct (bondAttempt s) as [[[i d] [j n]]|]; [|done].
  pose proof (gameActive_checkMolecules (createBond (new_bond_id env) i j d n s)) as Hc.
  by destruct (checkMolecules _).
Qed.

Lemma gameActive_spawnStep (time : Z) (env : TickEnv) (s s1 : State) :
  spawnStep time env s = Some s1 → gameActive s1 = gameActive s.
Proof.
  unfold spawnStep. case_match; [|by intros [= <-]].
  destruct (spawnAtom _ _ _); simpl; [|done]. by intros [= <-].
Qed.

Lemma gameActive_update (time : Z) (env : TickEnv) (s : State) :
  gameActive (update time env s).1 = gameActive s.
Proof.
  unfold update, beforeBondStep. destruct (negb (gameActive s)); [done|].
  destruct (canvas env); [|done].
  destruct (spawnStep time env s) as [s1|] eqn:Hsp; [|done]. simpl.
  rewrite gameActive_bondStep. simpl. by eapply gameActive_spawnStep.
Qed.

Lemma stopped_step (s : State) (e : Event) :
  (gameActive s = false → emptied s) →
  gameActive (step cos sin atan2 s e).1 = false → emptied (step cos sin atan2 s e).1.
Proof.
  intros Hs. destruct e as [time env|rect cx cy|rect cx cy|nudge| |active]; simpl.
  - rewrite gameActive_update. intros Hact. unfold update, beforeBondStep.
    rewrite Hact. simpl. by apply Hs.
  - unfold handlePointerDown. destruct rect as [[l t]|]; [|done].
    destruct (findIndexed _ _) as [[k c]|] eqn:Hf; simpl; intros Hact.
    + destruct (Hs Hact) as (Hats & _). rewrite Hats in Hf. done.
    + apply Hs. done.
  - unfold handlePointerMove. destruct rect as [[? ?]|]; [|done]. simpl. exact Hs.
  - unfold handlePointerUp.
    destruct (draggedAtom s) as [d|]; [|done].
    destruct (truthy (Some d)); [|done].
    destruct (findIndexed (has_id d) (atoms s)) as [[i a]|] eqn:Hf.
    + destruct (findIndexed (isNearby a) _) as [[j n]|]; [destruct (negb _)|]; simpl;
        intros Hact; destruct (Hs Hact) as (Hats & _); by rewrite Hats in Hf.
    + simpl. exact Hs.
  - intros Hact. unfold undo in *.
    destruct (undoLoop _ _ _) as [[stack ats] bs] eqn:Hloop. simpl in Hact.
    destruct (Hs Hact) as (Hats & Hbs & Hhist & Hsess).
    rewrite Hats, Hbs, Hhist in Hloop. simpl in Hloop. injection Hloop as <- <- <-.
    by repeat split.
  - destruct active; simpl; [done|]. intros _. by repeat split.
Qed.

(** X4.  Whenever the game is not active the arena is empty: no atom, no
    bond, no undo history and no drag-session entry is left.  So every game
    starts from an empty arena, whatever happened in the game before and
    between the games. *)
Theorem stopped_arena_is_empty (es : list Event) :
  gameActive (run cos sin atan2 initial es).1 = false →
  emptied (run cos sin atan2 initial es).1.
Proof.
  apply (run_invariant cos sin atan2 (λ s, gameActive s = false → emptied s)).
  - apply stopped_step.
  - intros _. by repeat split.
Qed.

End Store.

Lemma stopped_arena_is_empty_witness :
  gameActive (run cos0 sin0 atan20 initial (firstBond ++ [SetGameActive false])).1 = false
  ∧ emptied (run cos0 sin0 atan20 initial (firstBond ++ [SetGameActive false])).1.
Proof.
  split; [reflexivity|].
  apply (stopped_arena_is_empty cos0 sin0 atan20 (firstBond ++ [SetGameActive false])).
  reflexivity.
Defined.

Lemma store_well_formed_witness :
  freshSpawns cos0 sin0 atan20 initial firstBond
  ∧ NoDup (map atom_id (atoms (run cos0 sin0 atan20 initial firstBond).1)).
Proof.
  assert (Hfresh : freshSpawns cos0 sin0 atan20 initial firstBond).
  { simpl. repeat split; compute_done. }
  split; [exact Hfresh|].
  exact (proj1 (store_well_formed cos0 sin0 atan20 firstBond Hfresh)).
Defined.

Lemma bond_store_bounded_witness :
  freshSpawns cos0 sin0 atan20 initial firstBond
  ∧ (length (bonds (run cos0 sin0 atan20 initial firstBond).1) ≤ 36)%nat.
Proof.
  assert (Hfresh : freshSpawns cos0 sin0 atan20 initial firstBond).
  { simpl. repeat split; compute_done. }
  split; [exact Hfresh|].
  exact (bond_store_bounded cos0 sin0 atan20 firstBond Hfresh).
Defined.

(** ** The detector, once more *)

Lemma NoDup_checkMolecules (s : State) :
  NoDup (map atom_id (atoms s)) → NoDup (map atom_id (atoms (checkMolecules s).1)).
Proof.
  intros Hnd. unfold checkMolecules. case_match; simpl; [|done]. by apply ids_filter_NoDup.
Qed.

(** X5.  The detector is idempotent on a store with distinct atom ids: a
    second scan right after a scan reports nothing and changes nothing.
    Removing the stable molecules never makes another component stable. *)
Theorem checkMolecules_idempotent (s : State) :
  NoDup (map atom_id (atoms s)) →
  checkMolecules (checkMolecules s).1 = ((checkMolecules s).1, []).
Proof.
  intros Hnd. apply scanned_noPending.
  - by apply NoDup_checkMolecules.
  - by apply noPending_checkMolecules.
Qed.

Lemma checkMolecules_idempotent_witness :
  NoDup (map atom_id (atoms water))
  ∧ (checkMolecules water).2 ≠ []
  ∧ checkMolecules (checkMolecules water).1 = ((checkMolecules water).1, []).
Proof.
  assert (Hnd : NoDup (map atom_id (atoms water))) by compute_done.
  split; [exact Hnd|]. split; [done|].
  exact (checkMolecules_idempotent water Hnd).
Defined.

(** ** Undo against bond creation *)

Lemma scanAtom_quiet (ats : list AtomEntity) (bs : list BondEntity) (sc : Scan) (a : AtomEntity) :
  (scan_effects sc = [] → scan_toRemove sc = []) →
  scan_effects (scanAtom ats bs sc a) = [] → scan_toRemove (scanAtom ats bs sc a) = [].
Proof.
  intros Hsc. unfold scanAtom. case_bool_decide; [done|].
  case_match; simpl; [|done].
  intros Heff. apply app_eq_nil in Heff as [_ Hr]. discriminate Hr.
Qed.

Lemma scanAll_quiet (ats : list AtomEntity) (bs : list BondEntity) :
  scan_effects (scanAll ats bs) = [] → scan_toRemove (scanAll ats bs) = [].
Proof.
  unfold scanAll.
  assert (Hgen : ∀ l sc, (scan_effects sc = [] → scan_toRemove sc = []) →
                   scan_effects (foldl (scanAtom ats bs) sc l) = [] →
                   scan_toRemove (foldl (scanAtom ats bs) sc l) = []).
  { induction l as [|a l IH]; intros sc Hsc; simpl; [done|].
    apply IH. by apply scanAtom_quiet. }
  by apply Hgen.
Qed.

(** A scan that reports nothing removes nothing. *)
Lemma checkMolecules_quiet (s : State) :
  (checkMolecules s).2 = [] → (checkMolecules s).1 = s.
Proof.
  unfold checkMolecules.
  destruct (0 <? length (scan_toRemove (scanAll (atoms s) (bonds s))))%nat eqn:Hlen;
    simpl; [|done].
  intros Heff. apply scanAll_quiet in Heff. rewrite Heff in Hlen. done.
Qed.

Lemma findIndexed_id (l : list AtomEntity) (k : nat) (a : AtomEntity) :
  NoDup (map atom_id l) → l !! k = Some a →
  findIndexed (has_id (atom_id a)) l = Some (k, a).
Proof.
  intros Hnd Hk. apply findIndexed_first; [done|by apply String.eqb_refl|].
  intros m b Hm Hb. unfold has_id. apply String.eqb_neq. intros Heq.
  assert (m = k); [|lia].
  apply (NoDup_lookup (map atom_id l) m k (atom_id a)); [done| |].
  - by rewrite list_lookup_fmap, Hb, <- Heq.
  - by rewrite list_lookup_fmap, Hk.
Qed.

Lemma delete_snoc {A : Type} (l : list A) (x : A) : delete (length l) (l ++ [x]) = l.
Proof. induction l as [|y l IH]; simpl; [done|]. by rewrite IH. Qed.

Lemma decr_incr (a : AtomEntity) : 0 ≤ currentBonds a → decrBonds (incrBonds a) = a.
Proof.
  intros Ha. destruct a. unfold decrBonds, incrBonds, setCurrentBonds. simpl in *.
  f_equal. lia.
Qed.

(** X6.  [undo] reverts a bond step exactly.  Take a well-formed store and
    a frame whose bond step creates a bond without completing a molecule
    (it emits the pop and nothing else), the new bond id being non-empty
    and unused.  After [undo] the atoms with their bond counts, the bond
    records and the undo history are what they were before the frame.  The
    pair stays marked in the drag-session set: it cannot bond again before
    the next pointer-down. *)
Theorem undo_reverts_bond_step (env : TickEnv) (s : State) :
  consistent s →
  new_bond_id env ≠ "" → new_bond_id env ∉ map bond_id (bonds s) →
  (bondStep env s).2 = [PlaySound "pop"] →
  atoms (undo (bondStep env s).1) = atoms s
  ∧ bonds (undo (bondStep env s).1) = bonds s
  ∧ bondHistory (undo (bondStep env s).1) = bondHistory s
  ∧ ∃ dragger neighbor,
      dragger ∈ atoms s ∧ neighbor ∈ atoms s
      ∧ draggedAtom s = Some (atom_id dragger)
      ∧ dragSessionBondedPairs (undo (bondStep env s).1)
        = {[pairKey (atom_id dragger) (atom_id neighbor)]} ∪ dragSessionBondedPairs s.
Proof.
  intros Hcons Hne Hfresh Heff. unfold bondStep in *.
  destruct (bondAttempt s) as [[[i d] [j n]]|] eqn:Hb; [|discriminate Heff].
  pose proof (checkMolecules_quiet (createBond (new_bond_id env) i j d n s)) as Hquiet.
  destruct (checkMolecules _) as [s' effs]. simpl in *.
  injection Heff as ->. rewrite (Hquiet eq_refl). clear Hquiet s'.
  apply bondAttempt_Some in Hb as (Hi & Hj & Hij & Hdn & Hdrag & _).
  destruct Hcons as (Hnd & _ & Hcb).
  assert (Hpos : ∀ a, a ∈ atoms s → 0 ≤ currentBonds a).
  { intros a Ha. rewrite Forall_forall in Hcb. rewrite (Hcb a Ha). apply degree_nonneg. }
  set (newBond := {| bond_id := new_bond_id env; atom1Id := atom_id d;
                     atom2Id := atom_id n; stress := 0 |}).
  assert (Hfind : findIndexed (hasBondId (new_bond_id env)) (bonds s ++ [newBond])
                  = Some (length (bonds s), newBond)).
  { apply findIndexed_first.
    - by rewrite lookup_app_r, Nat.sub_diag.
    - apply String.eqb_refl.
    - intros m b Hm Hlook. rewrite lookup_app_l in Hlook by done.
      unfold hasBondId. apply String.eqb_neq. intros Heq. apply Hfresh.
      apply list_elem_of_fmap. exists b. split; [done|]. by eapply list_elem_of_lookup_2. }
  set (ats1 := alter incrBonds j (alter incrBonds i (atoms s))).
  assert (Hd1 : decrFound (atom_id d) ats1 = alter decrBonds i ats1).
  { unfold decrFound.
    change (atom_id d) with (atom_id (incrBonds d)).
    rewrite (findIndexed_id ats1 i (incrBonds d)); [done| |].
    - unfold ats1. by rewrite !ids_alter.
    - unfold ats1. rewrite list_lookup_alter_ne by done.
      by rewrite list_lookup_alter_eq, Hi. }
  assert (Hd2 : decrFound (atom_id n) (alter decrBonds i ats1)
                = alter decrBonds j (alter decrBonds i ats1)).
  { unfold decrFound.
    change (atom_id n) with (atom_id (incrBonds n)).
    rewrite (findIndexed_id (alter decrBonds i ats1) j (incrBonds n)); [done| |].
    - unfold ats1. by rewrite !ids_alter.
    - rewrite list_lookup_alter_ne by done. unfold ats1.
      by rewrite list_lookup_alter_eq, list_lookup_alter_ne, Hj by done. }
  assert (Hback : alter decrBonds j (alter decrBonds i ats1) = atoms s).
  { apply list_eq. intros k. unfold ats1.
    destruct (decide (k = j)) as [->|Hkj].
    - rewrite list_lookup_alter_eq, list_lookup_alter_ne by done.
      rewrite list_lookup_alter_eq, list_lookup_alter_ne, Hj by done. simpl.
      f_equal. apply decr_incr, Hpos. by eapply list_elem_of_lookup_2.
    - rewrite list_lookup_alter_ne by done.
      destruct (decide (k = i)) as [->|Hki].
      + rewrite list_lookup_alter_eq, list_lookup_alter_ne by done.
        rewrite list_lookup_alter_eq, Hi. simpl.
        f_equal. apply decr_incr, Hpos. by eapply list_elem_of_lookup_2.
      + by rewrite !list_lookup_alter_ne by done. }
  unfold undo. simpl. rewrite rev_unit. simpl. fold newBond. rewrite Hfind.
  rewrite truthy_nonempty by done. simpl. fold ats1.
  rewrite Hd1, Hd2, Hback, delete_snoc, rev_involutive.
  repeat split. exists d, n.
  split; [by eapply list_elem_of_lookup_2|]. split; [by eapply list_elem_of_lookup_2|]. done.
Qed.

Lemma undo_reverts_bond_step_witness :
  (consistent heldOxygen
   ∧ (bondStep (frame 0 "unused000" "b00000001") heldOxygen).2 = [PlaySound "pop"])
  ∧ atoms (undo (bondStep (frame 0 "unused000" "b00000001") heldOxygen).1) = atoms heldOxygen
  ∧ bonds (undo (bondStep (frame 0 "unused000" "b00000001") heldOxygen).1) = [].
Proof.
  assert (Hcons : consistent heldOxygen).
  { unfold consistent. split; [compute_done|]. split; compute_done. }
  assert (Heff : (bondStep (frame 0 "unused000" "b00000001") heldOxygen).2 = [PlaySound "pop"])
    by reflexivity.
  split; [by split|].
  destruct (undo_reverts_bond_step (frame 0 "unused000" "b00000001") heldOxygen Hcons)
    as (Hats & Hbs & _); [done|compute_done|exact Heff|].
  split; [exact Hats|exact Hbs].
Defined.

(** ** The undo history *)

Lemma filter_sublist {A : Type} (p : A → bool) (l : list A) : List.filter p l `sublist_of` l.
Proof.
  induction l as [|a l IH]; simpl; [constructor|].
  destruct (p a); by constructor.
Qed.

Lemma historyCovers_checkMolecules (s : State) :
  historyCovers s → historyCovers (checkMolecules s).1.
Proof.
  intros [Hsub Hne]. unfold checkMolecules. case_match; simpl; [|done].
  split; simpl.
  - etrans; [|exact Hsub]. apply sublist_submseteq, (fmap_sublist bond_id), filter_sublist.
  - intros Hin. apply Hne. apply list_elem_of_fmap in Hin as (b & Hb & Hin).
    apply list_elem_of_fmap. exists b. split; [done|].
    apply list_elem_of_In, filter_In in Hin as [Hin _]. by apply list_elem_of_In.
Qed.

Lemma historyCovers_bondStep (env : TickEnv) (s : State) :
  new_bond_id env ≠ "" → historyCovers s → historyCovers (bondStep env s).1.
Proof.
  intros Hid [Hsub Hne]. unfold bondStep.
  destruct (bondAttempt s) as [[[i d] [j n]]|]; [|done].
  pose proof (historyCovers_checkMolecules (createBond (new_bond_id env) i j d n s)) as Hc.
  destruct (checkMolecules _) as [s' effs]. simpl in *. apply Hc.
  split; simpl.
  - rewrite map_app. simpl. by apply submseteq_app.
  - rewrite map_app. simpl. intros Hin. apply elem_of_app in Hin as [Hin|Hin]; [done|].
    apply list_elem_of_singleton in Hin. done.
Qed.

Lemma undoLoop_covers (stack : list string) (ats : list AtomEntity) (bs : list BondEntity) :
  map bond_id bs ⊆+ stack → ("" ∉ map bond_id bs) →
  map bond_id (undoLoop stack ats bs).2 ⊆+ (undoLoop stack ats bs).1.1
  ∧ ("" ∉ map bond_id (undoLoop stack ats bs).2).
Proof.
  intros Hsub Hne. induction stack as [|h stack IH]; simpl; [done|].
  destruct (findIndexed (hasBondId h) bs) as [[k b]|] eqn:Hf.
  - apply findIndexed_Some in Hf as (Hk & Hid & _).
    unfold hasBondId in Hid. apply String.eqb_eq in Hid.
    assert (Hh : h ≠ "").
    { intros ->. apply Hne. apply list_elem_of_fmap. exists b.
      split; [done|]. by eapply list_elem_of_lookup_2. }
    rewrite truthy_nonempty by done. simpl. split.
    + apply (submseteq_app_inv_l _ _ [h]). simpl.
      etrans; [|exact Hsub].
      rewrite <- Hid.
      assert (Hperm : map bond_id bs ≡ₚ bond_id b :: map bond_id (delete k bs)).
      { rewrite (delete_Permutation bs k b Hk) at 1. done. }
      by rewrite Hperm.
    + intros Hin. apply Hne. apply list_elem_of_fmap in Hin as (b' & Hb' & Hin).
      apply list_elem_of_fmap. exists b'. split; [done|].
      eapply elem_of_sublist; [exact Hin|]. apply sublist_delete.
  - apply IH. pose proof (proj1 (findIndexed_None _ _) Hf) as Hnone. clear Hf. rename Hnone into Hf.
    apply submseteq_cons_r in Hsub as [Hsub|(l' & Hperm & _)]; [done|].
    assert (Hin : h ∈ map bond_id bs) by (rewrite Hperm; by left).
    apply list_elem_of_fmap in Hin as (b & -> & Hb).
    specialize (Hf b Hb). unfold hasBondId in Hf. by rewrite String.eqb_refl in Hf.
Qed.

Lemma historyCovers_undo (s : State) : historyCovers s → historyCovers (undo s).
Proof.
  intros [Hsub Hne].
  destruct (undoLoop_covers (rev (bondHistory s)) (atoms s) (bonds s)) as [Hsub' Hne'].
  - by rewrite <- Permutation_rev.
  - done.
  - unfold historyCovers, undo. destruct (undoLoop _ _ _) as [[stack ats] bs]. simpl in *.
    split; [|done]. by rewrite <- Permutation_rev.
Qed.

(** While bonds are left, [undo] removes exactly one of them. *)
Lemma undoLoop_progress (stack : list string) (ats : list AtomEntity) (bs : list BondEntity) :
  map bond_id bs ⊆+ stack → ("" ∉ map bond_id bs) → bs ≠ [] →
  ∃ k b, bs !! k = Some b ∧ (undoLoop stack ats bs).2 = delete k bs.
Proof.
  intros Hsub Hne Hbs. induction stack as [|h stack IH]; simpl.
  - apply submseteq_nil_r in Hsub. by destruct bs.
  - destruct (findIndexed (hasBondId h) bs) as [[k b]|] eqn:Hf.
    + apply findIndexed_Some in Hf as (Hk & Hid & _).
      unfold hasBondId in Hid. apply String.eqb_eq in Hid.
      assert (Hh : h ≠ "").
      { intros ->. apply Hne. apply list_elem_of_fmap. exists b.
        split; [done|]. by eapply list_elem_of_lookup_2. }
      rewrite truthy_nonempty by done. simpl. by exists k, b.
    + apply IH. pose proof (proj1 (findIndexed_None _ _) Hf) as Hnone. clear Hf. rename Hnone into Hf.
      apply submseteq_cons_r in Hsub as [Hsub|(l' & Hperm & _)]; [done|].
      assert (Hin : h ∈ map bond_id bs) by (rewrite Hperm; by left).
      apply list_elem_of_fmap in Hin as (b & -> & Hb).
      specialize (Hf b Hb). unfold hasBondId in Hf. by rewrite String.eqb_refl in Hf.
Qed.

Lemma ids_undo (s : State) : map atom_id (atoms (undo s)) = map atom_id (atoms s).
Proof.
  rewrite undo_atoms. generalize (atoms s) as ats.
  induction (rev (bondHistory s)) as [|b stack IH]; intros ats; simpl; [done|].
  destruct (findIndexed _ _) as [[k bond]|]; [|apply IH].
  destruct (truthy _); [|apply IH]. simpl. by rewrite !ids_decrFound.
Qed.

Lemma undoTimes_spec (n : nat) (s : State) :
  consistent s → historyCovers s → (n ≤ length (bonds s))%nat →
  consistent (undoTimes n s) ∧ historyCovers (undoTimes n s)
  ∧ length (bonds (undoTimes n s)) = (length (bonds s) - n)%nat
  ∧ map atom_id (atoms (undoTimes n s)) = map atom_id (atoms s).
Proof.
  intros Hcons Hcov. induction n as [|n IH]; intros Hn.
  - unfold undoTimes. simpl. split; [done|]. split; [done|]. split; [lia|done].
  - destruct IH as (Hc & Hh & Hlen & Hids); [lia|].
    unfold undoTimes in *. simpl.
    set (sn := Nat.iter n undo s) in *.
    split; [by apply consistent_undo|]. split; [by apply historyCovers_undo|].
    split; [|by rewrite ids_undo].
    destruct Hh as [Hsub Hne].
    destruct (undoLoop_progress (rev (bondHistory sn)) (atoms sn) (bonds sn))
      as (k & b & Hk & Hdel).
    + by rewrite <- Permutation_rev.
    + done.
    + intros Hnil. rewrite Hnil in Hlen. simpl in Hlen. lia.
    + rewrite undo_bonds, Hdel, length_delete by done. lia.
Qed.

Section History.

Variables (cos sin : Q → Q) (atan2 : Q → Q → Q).

Lemma historyCovers_step (s : State) (e : Event) :
  match e with
  | Tick _ env => new_bond_id env ≠ ""
  | _ => True
  end →
  historyCovers s → historyCovers (step cos sin atan2 s e).1.
Proof.
  intros He Hs. destruct e as [time env|rect cx cy|rect cx cy|nudge| |active]; simpl.
  - unfold update, beforeBondStep.
    destruct (negb (gameActive s)); [done|].
    destruct (canvas env); [|done].
    destruct (spawnStep time env s) as [s1|] eqn:Hsp; [|done]. simpl.
    apply historyCovers_bondStep; [done|].
    revert Hsp. unfold spawnStep. case_match; [|by intros [= <-]].
    destruct (spawnAtom _ _ _); simpl; [|done]. by intros [= <-].
  - unfold handlePointerDown. destruct rect as [[l t]|]; [|done].
    by destruct (findIndexed _ _) as [[k c]|].
  - unfold handlePointerMove. by destruct rect as [[? ?]|].
  - unfold handlePointerUp.
    destruct (draggedAtom s) as [d|]; [|done].
    destruct (truthy (Some d)); [|done].
    destruct (findIndexed (has_id d) (atoms s)) as [[i a]|]; [|done].
    destruct (findIndexed (isNearby a) _) as [[j n]|]; [|done].
    by destruct (negb _).
  - by apply historyCovers_undo.
  - destruct active; [done|]. split; simpl; [done|]. apply not_elem_of_nil.
Qed.

Lemma historyCovers_run (es : list Event) (s : State) :
  namedBonds es → historyCovers s → historyCovers (run cos sin atan2 s es).1.
Proof.
  revert s. induction es as [|e es IH]; intros s Hes Hs; simpl; [done|].
  apply Forall_cons in Hes as [He Hes].
  pose proof (historyCovers_step s e He Hs) as Hs1.
  destruct (step cos sin atan2 s e) as [s1 effs1]. simpl in *.
  specialize (IH s1 Hes Hs1). by destruct (run cos sin atan2 s1 es).
Qed.

(** X7.  Along every run whose bond ids are not empty, every bond record
    of the store has an entry in the undo history: the ids of the stored
    bonds are among the entries of the history, each as often as it occurs
    in the store, and none is the empty string.  So no bond is out of the
    reach of [undo]. *)
Theorem history_covers_bonds (es : list Event) :
  namedBonds es →
  let s := (run cos sin atan2 initial es).1 in
  historyCovers s
  ∧ ∀ b, b ∈ bonds s → bond_id b ∈ bondHistory s ∧ bond_id b ≠ "".
Proof.
  intros Hes s.
  assert (Hcov : historyCovers s).
  { apply historyCovers_run; [done|]. split; simpl; [done|]. apply not_elem_of_nil. }
  split; [done|]. destruct Hcov as [Hsub Hne]. intros b Hb.
  assert (Hin : bond_id b ∈ map bond_id (bonds s)).
  { apply list_elem_of_fmap. by exists b. }
  split.
  - by eapply elem_of_submseteq.
  - intros Heq. apply Hne. by rewrite <- Heq.
Qed.

(** X8.  Pressing undo takes the bonds apart one by one.  In a state
    reached with fresh atom ids and non-empty bond ids, each of the first
    [length (bonds s)] presses removes exactly one bond record and no atom;
    after that many presses no bond is left and every atom counts 0
    bonds. *)
Theorem undo_dismantles (es : list Event) :
  freshSpawns cos sin atan2 initial es → namedBonds es →
  let s := (run cos sin atan2 initial es).1 in
  (∀ n, (n ≤ length (bonds s))%nat →
        length (bonds (undoTimes n s)) = (length (bonds s) - n)%nat
        ∧ map atom_id (atoms (undoTimes n s)) = map atom_id (atoms s))
  ∧ bonds (undoTimes (length (bonds s)) s) = []
  ∧ ∀ a, a ∈ atoms (undoTimes (length (bonds s)) s) → currentBonds a = 0.
Proof.
  intros Hfresh Hes s.
  assert (Hcons : consistent s).
  { by apply consistent_run; [|apply consistent_initial]. }
  assert (Hcov : historyCovers s).
  { apply historyCovers_run; [done|]. split; simpl; [done|]. apply not_elem_of_nil. }
  split.
  - intros n Hn. by destruct (undoTimes_spec n s Hcons Hcov Hn) as (_ & _ & ? & ?).
  - destruct (undoTimes_spec (length (bonds s)) s Hcons Hcov) as ((_ & _ & Hcb) & _ & Hlen & _);
      [done|].
    rewrite Nat.sub_diag in Hlen. apply length_zero_iff_nil in Hlen.
    split; [done|]. intros a Ha. rewrite Forall_forall in Hcb.
    rewrite (Hcb a Ha), Hlen. done.
Qed.

End History.

Lemma history_covers_bonds_witness :
  namedBonds firstBond
  ∧ historyCovers (run cos0 sin0 atan20 initial firstBond).1
  ∧ bonds (run cos0 sin0 atan20 initial firstBond).1 ≠ [].
Proof.
  assert (Hes : namedBonds firstBond).
  { unfold namedBonds, firstBond. repeat constructor; done. }
  split; [exact Hes|]. split; [|done].
  exact (proj1 (history_covers_bonds cos0 sin0 atan20 firstBond Hes)).
Defined.

Lemma undo_dismantles_witness :
  (freshSpawns cos0 sin0 atan20 initial firstBond ∧ namedBonds firstBond
   ∧ length (bonds (run cos0 sin0 atan20 initial firstBond).1) = 1%nat)
  ∧ bonds (undoTimes (length (bonds (run cos0 sin0 atan20 initial firstBond).1))
                     (run cos0 sin0 atan20 initial firstBond).1) = [].
Proof.
  assert (Hfresh : freshSpawns cos0 sin0 atan20 initial firstBond).
  { simpl. repeat split; compute_done. }
  assert (Hes : namedBonds firstBond).
  { unfold namedBonds, firstBond. repeat constructor; done. }
  split; [split; [exact Hfresh|split; [exact Hes|reflexivity]]|].
  exact (proj1 (proj2 (undo_dismantles cos0 sin0 atan20 firstBond Hfresh Hes))).
Defined.

(** ** Multiple bonds *)

Lemma bondsBetween_degree (bs : list BondEntity) (a n : string) :
  Z.of_nat (length (bondsBetween bs a n)) ≤ degree bs a
  ∧ Z.of_nat (length (bondsBetween bs a n)) ≤ degree bs n.
Proof.
  unfold bondsBetween, degree, touches.
  induction bs as [|b bs [IH1 IH2]]; simpl; [done|].
  destruct (String.eqb (atom1Id b) a) eqn:E1, (String.eqb (atom2Id b) n) eqn:E2,
           (String.eqb (atom1Id b) n) eqn:E3, (String.eqb (atom2Id b) a) eqn:E4;
    simpl; lia.
Qed.

Lemma isBonded_bondsBetween (bs : list BondEntity) (a n : string) :
  isBonded bs a n = true ↔ bondsBetween bs a n ≠ [].
Proof.
  unfold isBonded, bondsBetween. induction bs as [|b bs IH]; simpl; [done|].
  destruct ((String.eqb (atom1Id b) a && String.eqb (atom2Id b) n)
            || (String.eqb (atom1Id b) n && String.eqb (atom2Id b) a)); simpl; [done|].
  exact IH.
Qed.

Section Multiplicity.

Variables (cos sin : Q → Q) (atan2 : Q → Q → Q).

(** X9.  Along every run with fresh atom ids, two stored atoms are never
    joined by more bond records than the smaller of their valencies: a
    hydrogen or a chlorine has at most a single bond to any atom, an
    oxygen at most a double bond, and so on.  [isBonded] holds exactly
    when there is at least one such record. *)
Theorem bond_multiplicity_bounded (es : list Event) :
  freshSpawns cos sin atan2 initial es →
  let s := (run cos sin atan2 initial es).1 in
  ∀ a b, a ∈ atoms s → b ∈ atoms s →
    Z.of_nat (length (bondsBetween (bonds s) (atom_id a) (atom_id b)))
    ≤ Z.min (valency (ATOM_DEFS (atom_type a))) (valency (ATOM_DEFS (atom_type b)))
    ∧ (isBonded (bonds s) (atom_id a) (atom_id b) = true
       ↔ bondsBetween (bonds s) (atom_id a) (atom_id b) ≠ []).
Proof.
  intros Hfresh s a b Ha Hb.
  destruct (consistent_run cos sin atan2 es initial Hfresh consistent_initial)
    as (_ & _ & Hcb).
  assert (Hcap : Forall withinValency (atoms s)).
  { apply (run_invariant cos sin atan2 (λ s, Forall withinValency (atoms s))).
    - intros s0 e. apply capped_step.
    - apply Forall_nil_2. }
  rewrite Forall_forall in Hcb, Hcap.
  pose proof (Hcb a Ha) as Hda. pose proof (Hcb b Hb) as Hdb.
  pose proof (Hcap a Ha) as Hva. pose proof (Hcap b Hb) as Hvb.
  unfold withinValency in *.
  destruct (bondsBetween_degree (bonds s) (atom_id a) (atom_id b)) as [H1 H2].
  split; [fold s in Hda, Hdb; lia|]. apply isBonded_bondsBetween.
Qed.

End Multiplicity.

Lemma bond_multiplicity_bounded_witness :
  freshSpawns cos0 sin0 atan20 initial firstBond
  ∧ ∀ a b, a ∈ atoms (run cos0 sin0 atan20 initial firstBond).1 →
           b ∈ atoms (run cos0 sin0 atan20 initial firstBond).1 →
      Z.of_nat (length (bondsBetween (bonds (run cos0 sin0 atan20 initial firstBond).1)
                                     (atom_id a) (atom_id b)))
      ≤ Z.min (valency (ATOM_DEFS (atom_type a))) (valency (ATOM_DEFS (atom_type b))).
Proof.
  assert (Hfresh : freshSpawns cos0 sin0 atan20 initial firstBond).
  { simpl. repeat split; compute_done. }
  split; [exact Hfresh|]. intros a b Ha Hb.
  exact (proj1 (bond_multiplicity_bounded cos0 sin0 atan20 firstBond Hfresh a b Ha Hb)).
Defined.

(** ** The keys of the drag-session set *)

Lemma dashFree_cons (c : ascii) (i : string) :
  dashFree (String c i) ↔ c ≠ "-"%char ∧ dashFree i.
Proof.
  unfold dashFree. simpl. rewrite not_elem_of_cons. split; intros [? ?]; split; congruence.
Qed.

Lemma joined_inj (x x' y y' : string) :
  dashFree x → dashFree x' →
  (x ++ "-" ++ y)%string = (x' ++ "-" ++ y')%string → x = x' ∧ y = y'.
Proof.
  revert x'. induction x as [|c x IH]; intros [|c' x'] Hx Hx'; simpl; intros Heq.
  - by injection Heq.
  - injection Heq as <- _. apply dashFree_cons in Hx' as [? _]. done.
  - injection Heq as -> _. apply dashFree_cons in Hx as [? _]. done.
  - injection Heq as -> Heq. apply dashFree_cons in Hx as [_ Hx].
    apply dashFree_cons in Hx' as [_ Hx'].
    destruct (IH x' Hx Hx' Heq) as [-> ->]. done.
Qed.

(** X10.  For ids without a ['-'] (and [uuid()] produces only digits of
    base 36) the key [[a, b].sort().join('-')] identifies the unordered
    pair: two pairs have the same key exactly when they are the same
    unordered pair.  So marking a pair in the drag-session set blocks that
    pair and no other. *)
Theorem pairKey_identifies_pair (a b c d : string) :
  dashFree a → dashFree b → dashFree c → dashFree d →
  pairKey a b = pairKey c d ↔ samePair (a, b) (c, d).
Proof.
  intros Ha Hb Hc Hd. split.
  - unfold pairKey, samePair. simpl.
    destruct (String.leb a b), (String.leb c d); intros Heq;
      apply joined_inj in Heq as [-> ->]; auto.
  - intros [Heq|Heq]; simpl in Heq; injection Heq as -> ->; [done|apply pairKey_comm].
Qed.

Lemma pairKey_identifies_pair_witness :
  (dashFree "h7k2m9q1x" ∧ dashFree "o4c8t3w6z")
  ∧ (pairKey "h7k2m9q1x" "o4c8t3w6z" = pairKey "o4c8t3w6z" "h7k2m9q1x"
     ↔ samePair ("h7k2m9q1x", "o4c8t3w6z") ("o4c8t3w6z", "h7k2m9q1x")).
Proof.
  assert (H1 : dashFree "h7k2m9q1x") by (unfold dashFree; compute_done).
  assert (H2 : dashFree "o4c8t3w6z") by (unfold dashFree; compute_done).
  split; [by split|].
  exact (pairKey_identifies_pair "h7k2m9q1x" "o4c8t3w6z" "o4c8t3w6z" "h7k2m9q1x" H1 H2 H2 H1).
Defined.

(** ** Points *)

Lemma fairPoints_scanAtom (ats : list AtomEntity) (bs : list BondEntity) (sc : Scan)
    (a : AtomEntity) :
  Forall fairPoints (scan_effects sc) → Forall fairPoints (scan_effects (scanAtom ats bs sc a)).
Proof.
  intros Hsc. unfold scanAtom. case_bool_decide; [done|].
  destruct (bfs_isStable _ && _) eqn:Hst; simpl; [|done].
  apply andb_true_iff in Hst as [_ Hlen]. apply Nat.ltb_lt in Hlen.
  apply Forall_app. split; [done|]. unfold report.
  repeat constructor. exists (Z.of_nat (length (bfs_component
    (bfsLoop (length ats) ats bs
       {| bfs_visited := {[atom_id a]} ∪ scan_visited sc; bfs_queue := [a];
          bfs_component := []; bfs_isStable := true |})))).
  split; lia.
Qed.

Lemma fairPoints_checkMolecules (s : State) : Forall fairPoints (checkMolecules s).2.
Proof.
  assert (Hscan : Forall fairPoints (scan_effects (scanAll (atoms s) (bonds s)))).
  { unfold scanAll.
    assert (Hgen : ∀ l sc, Forall fairPoints (scan_effects sc) →
                     Forall fairPoints (scan_effects (foldl (scanAtom (atoms s) (bonds s)) sc l))).
    { induction l as [|a l IH]; intros sc Hsc; simpl; [done|].
      apply IH. by apply fairPoints_scanAtom. }
    apply Hgen. simpl. apply Forall_nil_2. }
  unfold checkMolecules. by case_match.
Qed.

Lemma scoreboard_spec (effs : list Effect) (st : GameStats) :
  Forall fairPoints effs →
  score (scoreboard effs st) = score st + pointsOf effs
  ∧ moleculesBuilt (scoreboard effs st)
    = moleculesBuilt st + Z.of_nat (length (List.filter isScoreUpdate effs))
  ∧ 200 * Z.of_nat (length (List.filter isScoreUpdate effs)) ≤ pointsOf effs
  ∧ (100 | pointsOf effs)
  ∧ timeLeft (scoreboard effs st) = timeLeft st
  ∧ gameOver (scoreboard effs st) = gameOver st.
Proof.
  unfold scoreboard. intros Hfair. revert st.
  induction Hfair as [|e effs He Hfair IH]; intros st; simpl.
  - repeat split; try lia. apply Z.divide_0_r.
  - destruct e as [sound|points|composition|msg]; simpl in *;
      try (destruct (IH st) as (? & ? & ? & ? & ? & ?); repeat split; done).
    destruct He as (k & -> & Hk).
    destruct (IH (handleScore (100 * k) st)) as (Hs & Hm & Hlow & Hdiv & Ht & Hg).
    simpl in *. repeat split; try lia; try done.
    apply Z.divide_add_r; [|done]. by apply Z.divide_factor_l.
Qed.

Section Scoring.

Variables (cos sin : Q → Q) (atan2 : Q → Q → Q).

Lemma fairPoints_step (s : State) (e : Event) : Forall fairPoints (step cos sin atan2 s e).2.
Proof.
  destruct e as [time env|rect cx cy|rect cx cy|nudge| |active]; simpl;
    try apply Forall_nil_2.
  - unfold update. destruct (beforeBondStep time env s) as [s2|]; [|apply Forall_nil_2].
    unfold bondStep. destruct (bondAttempt s2) as [[[i d] [j n]]|]; [|apply Forall_nil_2].
    pose proof (fairPoints_checkMolecules (createBond (new_bond_id env) i j d n s2)) as Hc.
    destruct (checkMolecules _) as [s' effs]. simpl in *. by constructor.
  - unfold handlePointerUp.
    destruct (draggedAtom s) as [d|]; [|apply Forall_nil_2].
    destruct (truthy (Some d)); [|apply Forall_nil_2].
    destruct (findIndexed (has_id d) (atoms s)) as [[i a]|]; [|apply Forall_nil_2].
    destruct (findIndexed (isNearby a) _) as [[j n]|]; [|apply Forall_nil_2].
    destruct (negb _); simpl; [|apply Forall_nil_2]. by repeat constructor.
Qed.

Lemma fairPoints_run (es : list Event) (s : State) :
  Forall fairPoints (run cos sin atan2 s es).2.
Proof.
  revert s. induction es as [|e es IH]; intros s; simpl; [apply Forall_nil_2|].
  pose proof (fairPoints_step s e) as He.
  destruct (step cos sin atan2 s e) as [s1 effs1].
  specialize (IH s1). destruct (run cos sin atan2 s1 es) as [s2 effs2].
  simpl in *. apply Forall_app. by split.
Qed.

(** X11.  The scoreboard of the app against the arena.  Feed the events
    that any run of the arena emits to [handleScore], as the app does.
    The score grows by the sum of the points of the [ScoreUpdate] events
    and the molecule count by their number; every molecule is worth a
    multiple of 100 points and at least 200, so the score gained is
    divisible by 100 and at least 200 times the molecules gained; and the
    scoreboard touches neither the clock nor the game-over flag. *)
Theorem molecules_score (es : list Event) (s : State) (st : GameStats) :
  let effs := (run cos sin atan2 s es).2 in
  Forall fairPoints effs
  ∧ score (scoreboard effs st) = score st + pointsOf effs
  ∧ moleculesBuilt (scoreboard effs st)
    = moleculesBuilt st + Z.of_nat (length (List.filter isScoreUpdate effs))
  ∧ 200 * (moleculesBuilt (scoreboard effs st) - moleculesBuilt st)
    ≤ score (scoreboard effs st) - score st
  ∧ (100 | score (scoreboard effs st) - score st)
  ∧ timeLeft (scoreboard effs st) = timeLeft st
  ∧ gameOver (scoreboard effs st) = gameOver st.
Proof.
  intros effs. pose proof (fairPoints_run es s) as Hfair. fold effs in Hfair.
  destruct (scoreboard_spec effs st Hfair) as (Hs & Hm & Hlow & Hdiv & Ht & Hg).
  split; [done|]. split; [done|]. split; [done|].
  split; [lia|]. split; [|done].
  replace (score (scoreboard effs st) - score st) with (pointsOf effs) by lia. done.
Qed.

End Scoring.

Lemma pointsOf_reports (comps : list (list AtomEntity)) :
  pointsOf (flat_map report comps) = 100 * Z.of_nat (length (concat comps)).
Proof.
  induction comps as [|c comps IH]; simpl; [done|].
  rewrite length_app, IH. lia.
Qed.

(** X12.  A scan awards 100 points for every atom it removes, no more and
    no less: on a store with distinct atom ids the points of the
    [ScoreUpdate] events of one call of [checkMolecules] add up to 100
    times the number of atoms that leave the store. *)
Theorem points_per_removed_atom (s : State) :
  NoDup (map atom_id (atoms s)) →
  pointsOf (checkMolecules s).2
  = 100 * (Z.of_nat (length (atoms s)) - Z.of_nat (length (atoms (checkMolecules s).1))).
Proof.
  intros Hnd. destruct (scanAll_spec (atoms s) (bonds s) Hnd) as (comps & Hinv).
  pose proof (λ i, toRemove_id (atoms s) (bonds s) Hnd comps i Hinv) as Hid.
  pose proof Hinv as (Heff & Hrem & Hcnd & _).
  set (T := scan_toRemove (scanAll (atoms s) (bonds s))) in *.
  assert (Heffs : (checkMolecules s).2 = flat_map report comps).
  { unfold checkMolecules. fold T. by case_match. }
  assert (Hatoms : atoms (checkMolecules s).1
                   = List.filter (λ a, negb (includes T (atom_id a))) (atoms s)).
  { unfold checkMolecules. fold T. case_match eqn:Hlen; simpl; [done|].
    apply Nat.ltb_ge in Hlen. apply Nat.le_0_r, length_zero_iff_nil in Hlen.
    rewrite Hlen. clear. induction (atoms s) as [|a l IH]; simpl; [done|].
    f_equal. exact IH. }
  rewrite Heffs, Hatoms, pointsOf_reports.
  pose proof (List.filter_length (λ a, includes T (atom_id a)) (atoms s)) as Hsplit.
  assert (Hsame : length (List.filter (λ a, includes T (atom_id a)) (atoms s))
                  = length (concat comps)).
  { rewrite <- (length_map atom_id (List.filter _ _)), <- (length_map atom_id (concat comps)).
    apply Permutation_length, NoDup_Permutation; [by apply ids_filter_NoDup|done|].
    intros i. rewrite !list_elem_of_fmap. split.
    - intros (a & -> & Ha). apply list_elem_of_In, filter_In in Ha as [_ Ha].
      unfold includes in Ha. apply bool_decide_eq_true in Ha.
      fold T in Hrem. rewrite Hrem, flat_map_concat_map, <- concat_map in Ha.
      apply list_elem_of_fmap in Ha as (b & Hb & Hin). by exists b.
    - intros (b & -> & Hb).
      assert (Hin : atom_id b ∈ T).
      { fold T in Hrem. rewrite Hrem, flat_map_concat_map, <- concat_map.
        apply list_elem_of_fmap. by exists b. }
      apply Hid in Hin as (a & Ha & _ & Heq). exists a. split; [done|].
      apply list_elem_of_In, filter_In. split; [by apply list_elem_of_In|].
      unfold includes. apply bool_decide_eq_true. rewrite Heq.
      fold T in Hrem. rewrite Hrem, flat_map_concat_map, <- concat_map.
      apply list_elem_of_fmap. by exists b. }
  lia.
Qed.

Lemma points_per_removed_atom_witness :
  NoDup (map atom_id (atoms water))
  ∧ pointsOf (checkMolecules water).2 = 300
  ∧ pointsOf (checkMolecules water).2
    = 100 * (Z.of_nat (length (atoms water))
             - Z.of_nat (length (atoms (checkMolecules water).1))).
Proof.
  assert (Hnd : NoDup (map atom_id (atoms water))) by compute_done.
  split; [exact Hnd|]. split; [reflexivity|].
  exact (points_per_removed_atom water Hnd).
Defined.

(** ** The countdown *)

Lemma second_spec (n : nat) (st : GameStats) :
  1 ≤ timeLeft st →
  Nat.iter n second (true, st)
  = if Z.of_nat n <? timeLeft st
    then (true, {| score := score st;
                   moleculesBuilt := moleculesBuilt st;
                   timeLeft := timeLeft st - Z.of_nat n;
                   gameOver := gameOver st |})
    else (false, {| score := score st;
                    moleculesBuilt := moleculesBuilt st;
                    timeLeft := 0;
                    gameOver := true |}).
Proof.
  intros Ht. induction n as [|n IH].
  - change (Z.of_nat 0) with 0. simpl.
    destruct (Z.ltb_spec 0 (timeLeft st)) as [E|E]; [|lia].
    destruct st. simpl. do 2 f_equal. lia.
  - rewrite Nat.iter_succ, IH. unfold second, countdown.
    destruct (Z.ltb_spec (Z.of_nat n) (timeLeft st)) as [E1|E1]; simpl.
    + destruct (Z.ltb_spec 0 (timeLeft st - Z.of_nat n)) as [E2|E2]; [|lia]. simpl.
      destruct (Z.leb_spec (timeLeft st - Z.of_nat n) 1) as [E3|E3]; simpl.
      * destruct (Z.ltb_spec (Z.of_nat (Datatypes.S n)) (timeLeft st)) as [E4|E4]; [lia|done].
      * destruct (Z.ltb_spec (Z.of_nat (Datatypes.S n)) (timeLeft st)) as [E4|E4]; [|lia].
        do 2 f_equal. lia.
    + destruct (Z.ltb_spec (Z.of_nat (Datatypes.S n)) (timeLeft st)) as [E4|E4]; [lia|done].
Qed.

(** X13.  The countdown of the app.  From an active game with [t ≥ 1]
    seconds on the clock, after [n < t] firings of the one-second interval
    the game is still active with [t - n] seconds left and nothing else
    changed; the [t]-th firing sets the clock to 0, raises the game-over
    flag and switches the game off; later firings change nothing.  The
    clock never runs below 0.  (With the 120 seconds that [startGame]
    sets, the game ends at the 120th firing.) *)
Theorem countdown_ends_game (n : nat) (st : GameStats) :
  1 ≤ timeLeft st →
  Nat.iter n second (true, st)
  = (if Z.of_nat n <? timeLeft st
     then (true, {| score := score st;
                    moleculesBuilt := moleculesBuilt st;
                    timeLeft := timeLeft st - Z.of_nat n;
                    gameOver := gameOver st |})
     else (false, {| score := score st;
                     moleculesBuilt := moleculesBuilt st;
                     timeLeft := 0;
                     gameOver := true |}))
  ∧ 0 ≤ timeLeft (Nat.iter n second (true, st)).2
  ∧ second (false, st) = (false, st).
Proof.
  intros Ht. split; [by apply second_spec|]. split.
  - rewrite second_spec by done.
    destruct (Z.ltb_spec (Z.of_nat n) (timeLeft st)) as [E|E]; simpl; lia.
  - done.
Qed.

Lemma countdown_ends_game_witness :
  1 ≤ timeLeft freshStats
  ∧ Nat.iter 119 second (true, freshStats)
    = (true, {| score := 0; moleculesBuilt := 0; timeLeft := 1; gameOver := false |})
  ∧ Nat.iter 120 second (true, freshStats)
    = (false, {| score := 0; moleculesBuilt := 0; timeLeft := 0; gameOver := true |}).
Proof.
  assert (Ht : 1 ≤ timeLeft freshStats) by (simpl; unfold GAME_DURATION; lia).
  split; [exact Ht|]. split.
  - exact (proj1 (countdown_ends_game 119 freshStats Ht)).
  - exact (proj1 (countdown_ends_game 120 freshStats Ht)).
Defined.

(** ** The force integration *)

Lemma pushed_refl (a : AtomEntity) : pushed a a.
Proof. split; [|done]. exists (atom_vx a), (atom_vy a). by destruct a. Qed.

Lemma pushed_dragging (a a' : AtomEntity) : pushed a a' → isDragging a' = isDragging a.
Proof. by intros [(vx & vy & ->) _]. Qed.

Lemma pushed_alter (F G : AtomEntity → Q) (l k0 k : list AtomEntity) (i : nat) (b : AtomEntity) :
  Forall2 pushed l k0 → k0 !! i = Some b → isDragging b = false →
  Forall2 pushed l k →
  Forall2 pushed l (alter (λ a, setVelocity (F a) (G a) a) i k).
Proof.
  intros H0 Hb Hfree Hk. apply Forall2_alter_r; [done|].
  intros x y Hx Hy [(vx & vy & ->) _]. split.
  - by exists (F (setVelocity vx vy x)), (G (setVelocity vx vy x)).
  - intros Hd. pose proof (Forall2_lookup_lr _ _ _ _ _ _ H0 Hx Hb) as Hxb.
    apply pushed_dragging in Hxb. congruence.
Qed.

Section ForcesProperties.

Variable sqrt : Q → Q.

Lemma pairForce_pushed (bs : list BondEntity) (l k k' : list AtomEntity) (ij : nat * nat) :
  pairForce sqrt bs k ij = Some k' → Forall2 pushed l k → Forall2 pushed l k'.
Proof.
  intros Hp Hk. unfold pairForce in Hp.
  destruct (k !! ij.1) as [a|] eqn:Ha; [|by injection Hp as <-].
  destruct (k !! ij.2) as [b|] eqn:Hb; [|by injection Hp as <-].
  destruct (isBonded bs (atom_id a) (atom_id b)).
  - destruct (Qeq_bool _ 0); [done|]. injection Hp as <-.
    destruct (isDragging a) eqn:Hda, (isDragging b) eqn:Hdb; simpl; try done.
    + by eapply (pushed_alter _ _ l k).
    + by eapply (pushed_alter _ _ l k).
    + eapply (pushed_alter _ _ l k); [done..|]. by eapply (pushed_alter _ _ l k).
  - destruct (Qltb _ _ && Qltb 0 _); [|by injection Hp as <-]. injection Hp as <-.
    destruct (isDragging a) eqn:Hda, (isDragging b) eqn:Hdb; simpl; try done.
    + by eapply (pushed_alter _ _ l k).
    + by eapply (pushed_alter _ _ l k).
    + eapply (pushed_alter _ _ l k); [done..|]. by eapply (pushed_alter _ _ l k).
Qed.

Lemma forces_pushed (bs : list BondEntity) (ats ats' : list AtomEntity) :
  forces sqrt bs ats = Some ats' → Forall2 pushed ats ats'.
Proof.
  unfold forces. generalize (indexPairs (length ats)) as pairs.
  assert (Hgen : ∀ pairs acc,
            Forall2 pushed ats acc →
            foldl (λ acc ij, acc ≫= λ k, pairForce sqrt bs k ij) (Some acc) pairs = Some ats' →
            Forall2 pushed ats ats').
  { induction pairs as [|ij pairs IH]; intros acc Hacc; simpl.
    - by intros [= <-].
    - destruct (pairForce sqrt bs acc ij) as [k'|] eqn:Hp.
      + apply IH. by eapply pairForce_pushed.
      + intros Hnone. exfalso. clear -Hnone.
        induction pairs as [|ij' pairs IH]; simpl in *; [done|]. by apply IH. }
  intros pairs. apply Hgen. apply Forall_Forall2_diag, Forall_forall.
  intros a _. apply pushed_refl.
Qed.

Lemma sameButKinematics_set (a a' : AtomEntity) :
  sameButKinematics a a' ↔ a' = setKinematics (kinematicsOf a') a.
Proof.
  split.
  - intros (? & ? & ? & ? & ?). destruct a, a'. simpl in *. by subst.
  - intros ->. by repeat split.
Qed.

(** What steps 2 and 3 leave of the store. *)
Lemma integration_spec (wh : Q * Q) (s : State) (ats' : list AtomEntity) :
  integration sqrt wh s = Some ats' →
  Forall2 (λ a a', pushed (integrate wh.1 wh.2 (mouse s) a) a') (atoms s) ats'
  ∧ Forall2 sameButKinematics (atoms s) ats'
  ∧ ∀ env, physicsStep (withPhysics (outcome ats') env) s
           = {| atoms := ats';
                bonds := bonds s;
                bondHistory := bondHistory s;
                lastSpawn := lastSpawn s;
                draggedAtom := draggedAtom s;
                mouse := mouse s;
                dragSessionBondedPairs := dragSessionBondedPairs s;
                gameActive := gameActive s |}.
Proof.
  intros Hint. unfold integration in Hint. apply forces_pushed in Hint.
  apply (Forall2_fmap_l (integrate wh.1 wh.2 (mouse s)) pushed (atoms s) ats') in Hint.
  assert (Hsame : Forall2 sameButKinematics (atoms s) ats').
  { eapply Forall2_impl; [exact Hint|]. simpl.
    intros a a' [(vx & vy & ->) _]. by repeat split. }
  split; [done|]. split; [done|].
  intros env. unfold physicsStep. simpl. f_equal.
  apply list_eq. intros i. rewrite list_lookup_imap.
  destruct (atoms s !! i) as [a|] eqn:Ha; simpl.
  - destruct (Forall2_lookup_l _ _ _ _ _ Hsame Ha) as (a' & Ha' & Hrel).
    rewrite Ha'. unfold outcome. rewrite Ha'. f_equal. symmetry.
    by apply sameButKinematics_set.
  - symmetry. apply lookup_ge_None. apply lookup_ge_None in Ha.
    by rewrite <- (Forall2_length _ _ _ Hsame).
Qed.

(** X14.  Steps 2 and 3 of a frame write positions, velocities and
    [fxScale] and nothing else: they keep the number and the order of the
    atoms, their ids, types, bond counts and dragging flags, and the bond
    records.  Step 3 moves no atom and leaves a dragged atom alone: each
    atom ends as step 2 left it, up to its velocity if it is not dragged.
    So what the two steps do to the store is an outcome that [physicsStep]
    takes in. *)
Theorem integration_writes_kinematics (wh : Q * Q) (s : State) (ats' : list AtomEntity) :
  integration sqrt wh s = Some ats' →
  Forall2 (λ a a', pushed (integrate wh.1 wh.2 (mouse s) a) a') (atoms s) ats'
  ∧ Forall2 sameButKinematics (atoms s) ats'
  ∧ ∀ env, physicsStep (withPhysics (outcome ats') env) s
           = {| atoms := ats';
                bonds := bonds s;
                bondHistory := bondHistory s;
                lastSpawn := lastSpawn s;
                draggedAtom := draggedAtom s;
                mouse := mouse s;
                dragSessionBondedPairs := dragSessionBondedPairs s;
                gameActive := gameActive s |}.
Proof. apply integration_spec. Qed.

(** The integration gives numbers unless a bonded pair of atoms is at
    distance 0. *)
Lemma pairForce_defined (bs : list BondEntity) (k : list AtomEntity) (ij : nat * nat) :
  (∀ a b, k !! ij.1 = Some a → k !! ij.2 = Some b →
          isBonded bs (atom_id a) (atom_id b) = true →
          Qeq_bool (sqrt ((atom_x b - atom_x a) * (atom_x b - atom_x a)
                          + (atom_y b - atom_y a) * (atom_y b - atom_y a))) 0 = false) →
  is_Some (pairForce sqrt bs k ij).
Proof.
  intros Hfar. unfold pairForce.
  destruct (k !! ij.1) as [a|]; [|done]. destruct (k !! ij.2) as [b|]; [|done].
  destruct (isBonded bs (atom_id a) (atom_id b)) eqn:Hb.
  - by rewrite (Hfar a b).
  - by destruct (Qltb _ _ && Qltb 0 _).
Qed.

End ForcesProperties.

Lemma integration_writes_kinematics_witness :
  ∃ ats', integration sqrtFloor (800%Q, 600%Q) inFlight = Some ats'
          ∧ length ats' = 2%nat
          ∧ Forall2 sameButKinematics (atoms inFlight) ats'.
Proof.
  pose (ats' := default [] (integration sqrtFloor (800%Q, 600%Q) inFlight)).
  assert (Hint : integration sqrtFloor (800%Q, 600%Q) inFlight = Some ats') by reflexivity.
  exists ats'. split; [exact Hint|]. split; [reflexivity|].
  exact (proj1 (proj2 (integration_writes_kinematics sqrtFloor (800%Q, 600%Q) inFlight
                         ats' Hint))).
Defined.

Lemma Qltb_ge (a b : Q) : Qltb a b = false ↔ (b <= a)%Q.
Proof. unfold Qltb. rewrite negb_false_iff. apply Qle_bool_iff. Qed.

Lemma bounce_spec (lo hi c v : Q) :
  (Qabs.Qabs (bounce lo hi (c, v)).2 == Qabs.Qabs v)%Q
  ∧ ((lo <= hi)%Q → (lo <= (bounce lo hi (c, v)).1 ∧ (bounce lo hi (c, v)).1 <= hi)%Q)
  ∧ ((lo <= c ∧ c <= hi)%Q → bounce lo hi (c, v) = (c, v)).
Proof.
  assert (Hflip : ∀ x, (Qabs.Qabs (x * - (1)) == Qabs.Qabs x)%Q).
  { intros x. rewrite Qabs.Qabs_Qmult. change (Qabs.Qabs (- (1))) with 1%Q. ring. }
  unfold bounce. cbn [fst snd].
  destruct (Qltb c lo) eqn:E1; cbn [fst snd].
  - apply Qltb_lt in E1. destruct (Qltb hi lo) eqn:E2; cbn [fst snd].
    + apply Qltb_lt in E2. split; [etransitivity; apply Hflip|]. split; intros ?; lra.
    + apply Qltb_ge in E2. split; [apply Hflip|]. split; intros ?; lra.
  - apply Qltb_ge in E1. destruct (Qltb hi c) eqn:E2; cbn [fst snd].
    + apply Qltb_lt in E2. split; [apply Hflip|]. split; intros ?; lra.
    + apply Qltb_ge in E2. split; [done|]. split; [intros ?; lra|done].
Qed.

(** X15.  Between the walls.  Step 2 of a frame, on an atom that is not
    dragged: friction takes 2% of the speed along each axis; on an axis
    where the canvas is at least as wide as the atom, the atom is first put
    back between the walls (its centre one radius inside), so that it ends
    the step no further outside than the distance it travels in the step;
    and an atom that is between the walls is not redirected, it moves by
    its damped velocity. *)
Theorem free_atom_kept_by_walls (width height : Q) (m : Q * Q) (a : AtomEntity) :
  isDragging a = false →
  let r := radius (ATOM_DEFS (atom_type a)) in
  let a' := integrate width height m a in
  (Qabs.Qabs (atom_vx a') == WORLD_FRICTION * Qabs.Qabs (atom_vx a))%Q
  ∧ (Qabs.Qabs (atom_vy a') == WORLD_FRICTION * Qabs.Qabs (atom_vy a))%Q
  ∧ ((r <= width - r)%Q →
     (r - Qabs.Qabs (atom_vx a') <= atom_x a' ∧ atom_x a' <= width - r + Qabs.Qabs (atom_vx a'))%Q)
  ∧ ((r <= height - r)%Q →
     (r - Qabs.Qabs (atom_vy a') <= atom_y a' ∧ atom_y a' <= height - r + Qabs.Qabs (atom_vy a'))%Q)
  ∧ ((r <= atom_x a ∧ atom_x a <= width - r)%Q →
     atom_vx a' = (atom_vx a * WORLD_FRICTION)%Q
     ∧ atom_x a' = (atom_x a + atom_vx a * WORLD_FRICTION)%Q)
  ∧ ((r <= atom_y a ∧ atom_y a <= height - r)%Q →
     atom_vy a' = (atom_vy a * WORLD_FRICTION)%Q
     ∧ atom_y a' = (atom_y a + atom_vy a * WORLD_FRICTION)%Q).
Proof.
  intros Hfree r a'.
  set (bx := bounce r (width - r) (atom_x a, atom_vx a)).
  set (by_ := bounce r (height - r) (atom_y a, atom_vy a)).
  assert (Evx : atom_vx a' = (bx.2 * WORLD_FRICTION)%Q).
  { unfold a', integrate. by rewrite Hfree. }
  assert (Evy : atom_vy a' = (by_.2 * WORLD_FRICTION)%Q).
  { unfold a', integrate. by rewrite Hfree. }
  assert (Ex : atom_x a' = (bx.1 + bx.2 * WORLD_FRICTION)%Q).
  { unfold a', integrate. by rewrite Hfree. }
  assert (Ey : atom_y a' = (by_.1 + by_.2 * WORLD_FRICTION)%Q).
  { unfold a', integrate. by rewrite Hfree. }
  rewrite Evx, Evy, Ex, Ey. clearbody a'. clear Evx Evy Ex Ey.
  destruct (bounce_spec r (width - r) (atom_x a) (atom_vx a)) as (Hvx & Hx & Hinx).
  destruct (bounce_spec r (height - r) (atom_y a) (atom_vy a)) as (Hvy & Hy & Hiny).
  fold bx in Hvx, Hx, Hinx. fold by_ in Hvy, Hy, Hiny.
  assert (Hfr : (Qabs.Qabs WORLD_FRICTION == WORLD_FRICTION)%Q) by done.
  assert (Habs : ∀ v, (- Qabs.Qabs v <= v ∧ v <= Qabs.Qabs v)%Q).
  { intros v. apply Qabs.Qabs_Qle_condition. apply Qle_refl. }
  split; [rewrite Qabs.Qabs_Qmult, Hvx, Hfr; ring|].
  split; [rewrite Qabs.Qabs_Qmult, Hvy, Hfr; ring|].
  split; [|split; [|split]].
  - intros Hw. specialize (Hx Hw). pose proof (Habs (bx.2 * WORLD_FRICTION)%Q). lra.
  - intros Hh. specialize (Hy Hh). pose proof (Habs (by_.2 * WORLD_FRICTION)%Q). lra.
  - intros Hin. by rewrite (Hinx Hin).
  - intros Hin. by rewrite (Hiny Hin).
Qed.

Lemma free_atom_kept_by_walls_witness :
  isDragging stray = false
  ∧ atom_x (integrate 800 600 (0%Q, 0%Q) stray) = (20 + - (2) * - (1) * WORLD_FRICTION)%Q
  ∧ (Qabs.Qabs (atom_vx (integrate 800 600 (0%Q, 0%Q) stray))
     == WORLD_FRICTION * Qabs.Qabs (- (2)))%Q.
Proof.
  split; [reflexivity|]. split; [reflexivity|].
  exact (proj1 (free_atom_kept_by_walls 800 600 (0%Q, 0%Q) stray eq_refl)).
Defined.

Section IntegrationProperties.

Variable sqrt : Q → Q.

Lemma forces_defined (bs : list BondEntity) (ats : list AtomEntity) :
  (∀ a b, a ∈ ats → b ∈ ats → isBonded bs (atom_id a) (atom_id b) = true →
          ¬ (distance sqrt a b == 0)%Q) →
  is_Some (forces sqrt bs ats).
Proof.
  intros Hfar. unfold forces. generalize (indexPairs (length ats)) as pairs.
  assert (Hgen : ∀ pairs acc,
            Forall2 pushed ats acc →
            is_Some (foldl (λ acc ij, acc ≫= λ k, pairForce sqrt bs k ij) (Some acc) pairs)).
  { induction pairs as [|ij pairs IH]; intros acc Hacc; simpl; [done|].
    destruct (pairForce_defined sqrt bs acc ij) as [k' Hk'].
    - intros a' b' Ha' Hb' Hbonded.
      destruct (Forall2_lookup_r _ _ _ _ _ Hacc Ha') as (a & Ha & [(vx & vy & ->) _]).
      destruct (Forall2_lookup_r _ _ _ _ _ Hacc Hb') as (b & Hb & [(wx & wy & ->) _]).
      simpl in *. apply not_true_is_false. intros Hz. apply Qeq_bool_iff in Hz.
      apply (Hfar a b); [by eapply list_elem_of_lookup_2..|done|done].
    - rewrite Hk'. apply IH. by eapply pairForce_pushed. }
  intros pairs. apply Hgen. apply Forall_Forall2_diag, Forall_forall.
  intros a _. apply pushed_refl.
Qed.

(** X16.  The integration is defined, and a dragged atom follows the
    pointer.  Steps 2 and 3 give numbers whenever no two atoms joined by a
    bond are left by step 2 at distance 0 of each other.  An atom that is
    being dragged is moved by step 2 one fifth of the way to the pointer,
    its velocity being that displacement, whatever walls, bonds and
    neighbours there are: step 3 does not touch it.  So with the pointer at
    rest its distance to the pointer shrinks by the factor 0.8 in every
    frame. *)
Theorem dragged_atom_follows_pointer (wh : Q * Q) (s : State) :
  ((∀ a b, a ∈ atoms s → b ∈ atoms s →
           isBonded (bonds s) (atom_id a) (atom_id b) = true →
           ¬ (distance sqrt (integrate wh.1 wh.2 (mouse s) a)
                            (integrate wh.1 wh.2 (mouse s) b) == 0)%Q) →
   is_Some (integration sqrt wh s))
  ∧ ∀ ats' i a,
      integration sqrt wh s = Some ats' →
      atoms s !! i = Some a → isDragging a = true →
      ∃ a', ats' !! i = Some a'
            ∧ a' = integrate wh.1 wh.2 (mouse s) a
            ∧ atom_vx a' = (((mouse s).1 - atom_x a) * (2 # 10))%Q
            ∧ atom_vy a' = (((mouse s).2 - atom_y a) * (2 # 10))%Q
            ∧ atom_x a' = (atom_x a + atom_vx a')%Q
            ∧ atom_y a' = (atom_y a + atom_vy a')%Q
            ∧ ((mouse s).1 - atom_x a' == (8 # 10) * ((mouse s).1 - atom_x a))%Q
            ∧ ((mouse s).2 - atom_y a' == (8 # 10) * ((mouse s).2 - atom_y a))%Q.
Proof.
  split.
  - intros Hfar. unfold integration. apply forces_defined.
    intros a2 b2 Ha2 Hb2 Hbonded.
    apply list_elem_of_fmap in Ha2 as (a & -> & Ha).
    apply list_elem_of_fmap in Hb2 as (b & -> & Hb).
    by apply Hfar.
  - intros ats' i a Hint Ha Hd.
    destruct (integration_spec sqrt wh s ats' Hint) as (Hpush & _).
    destruct (Forall2_lookup_l _ _ _ _ _ Hpush Ha) as (a' & Ha' & _ & Hsame).
    exists a'. split; [done|].
    rewrite (Hsame Hd). unfold integrate. rewrite Hd. simpl.
    repeat split; ring.
Qed.

End IntegrationProperties.

Lemma dragged_atom_follows_pointer_witness :
  integration sqrtFloor (800%Q, 600%Q) inFlight
  = Some [ {| atom_id := "h1"; atom_type := AtomType.H;
              atom_x := 20 + - (2) * - (1) * WORLD_FRICTION;
              atom_y := 300 + 1 * WORLD_FRICTION;
              atom_vx := - (2) * - (1) * WORLD_FRICTION; atom_vy := 1 * WORLD_FRICTION;
              currentBonds := 0; bondedAtomIds := [];
              isDragging := false; fxScale := (19 # 20) + (5 # 100) |};
           {| atom_id := "o1"; atom_type := AtomType.O;
              atom_x := 400 + (500 - 400) * (2 # 10); atom_y := 300 + (200 - 300) * (2 # 10);
              atom_vx := (500 - 400) * (2 # 10); atom_vy := (200 - 300) * (2 # 10);
              currentBonds := 0; bondedAtomIds := [];
              isDragging := true; fxScale := 1 |} ]
  ∧ ∃ a', (500 - atom_x a' == (8 # 10) * (500 - 400))%Q.
Proof.
  assert (Hint : integration sqrtFloor (800%Q, 600%Q) inFlight
                 = Some [ {| atom_id := "h1"; atom_type := AtomType.H;
                             atom_x := 20 + - (2) * - (1) * WORLD_FRICTION;
                             atom_y := 300 + 1 * WORLD_FRICTION;
                             atom_vx := - (2) * - (1) * WORLD_FRICTION;
                             atom_vy := 1 * WORLD_FRICTION;
                             currentBonds := 0; bondedAtomIds := [];
                             isDragging := false; fxScale := (19 # 20) + (5 # 100) |};
                          {| atom_id := "o1"; atom_type := AtomType.O;
                             atom_x := 400 + (500 - 400) * (2 # 10);
                             atom_y := 300 + (200 - 300) * (2 # 10);
                             atom_vx := (500 - 400) * (2 # 10);
                             atom_vy := (200 - 300) * (2 # 10);
                             currentBonds := 0; bondedAtomIds := [];
                             isDragging := true; fxScale := 1 |} ]) by reflexivity.
  split; [exact Hint|].
  destruct (proj2 (dragged_atom_follows_pointer sqrtFloor (800%Q, 600%Q) inFlight)
              _ 1%nat _ Hint eq_refl eq_refl)
    as (a' & _ & _ & _ & _ & _ & _ & Hx & _).
  exists a'. exact Hx.
Defined.

(** ** The spawn and snap animation *)

Lemma grow_settled (fx : Q) :
  (0 <= fx ∧ fx < 21 # 20)%Q → (0 <= grow fx ∧ grow fx < 21 # 20)%Q.
Proof.
  intros [H0 H1]. unfold grow. destruct (Qltb fx 1) eqn:E; [|done].
  apply Qltb_lt in E. lra.
Qed.

Lemma settle_settled (a : AtomEntity) : fxSettled a → settle a = a.
Proof.
  intros [_ H1]. unfold settle.
  destruct (Qltb (11 # 10) (fxScale a)) eqn:E.
  - apply Qltb_lt in E. lra.
  - by destruct a.
Qed.

Lemma fxSettled_spawnStep (time : Z) (env : TickEnv) (s s1 : State) :
  spawnStep time env s = Some s1 → Forall fxSettled (atoms s) → Forall fxSettled (atoms s1).
Proof.
  unfold spawnStep. case_match; [|by intros [= <-]].
  unfold spawnAtom. destruct (container env) as [[w h]|]; simpl; [|by intros [= <-]].
  destruct (pickType _) as [ty|]; simpl; [|done].
  destruct (spawnPosition _ _ _ _) as [x y]. intros [= <-] Hs. simpl.
  apply Forall_app. split; [done|]. apply Forall_singleton. unfold fxSettled. simpl. lra.
Qed.

Section FxScale.

Variables (cos sin : Q → Q) (atan2 : Q → Q → Q) (sqrt : Q → Q).

Lemma fxSettled_step (s : State) (e : Event) (es : list Event) :
  integrated cos sin atan2 sqrt s (e :: es) →
  Forall fxSettled (atoms s) → Forall fxSettled (atoms (step cos sin atan2 s e).1).
Proof.
  intros [He _] Hs. destruct e as [time env|rect cx cy|rect cx cy|nudge| |active].
  - simpl. unfold update, beforeBondStep.
    destruct (gameActive s) eqn:Hact; simpl; [|done].
    destruct (canvas env) as [wh|] eqn:Hc; [|done].
    destruct (spawnStep time env s) as [s1|] eqn:Hsp; [|done]. simpl.
    destruct (He wh s1 eq_refl eq_refl eq_refl) as (ats' & Hint & Hphys).
    apply stored_bondStep; [done|]. simpl.
    pose proof (fxSettled_spawnStep _ _ _ _ Hsp Hs) as Hs1.
    destruct (integration_spec sqrt wh s1 ats' Hint) as (Hpush & _).
    apply Forall_lookup. intros i x Hx.
    apply list_lookup_imap_Some in Hx as (a & Ha & ->).
    rewrite (Hphys i a Ha). unfold outcome.
    destruct (Forall2_lookup_l _ _ _ _ _ Hpush Ha) as (a' & -> & (vx & vy & ->) & _).
    unfold fxSettled. simpl. apply grow_settled.
    rewrite Forall_lookup in Hs1. by apply (Hs1 i).
  - by apply stored_handlePointerDown.
  - simpl. unfold handlePointerMove. by destruct rect as [[? ?]|].
  - by apply stored_handlePointerUp.
  - by apply stored_undo.
  - simpl. destruct active; [done|]. apply Forall_nil_2.
Qed.

(** X17.  Along every run whose frames take in what steps 2 and 3
    compute, the [fxScale] of a stored atom stays in [0, 1.05): it starts
    at 0 and grows by 0.05 per frame while it is below 1.  So the
    "bond snap" shrink of the drawing code, the one write of step 6 to the
    store, never fires on a stored atom: drawing leaves the store as it
    is. *)
Theorem fxScale_settled (es : list Event) (a : AtomEntity) :
  integrated cos sin atan2 sqrt initial es →
  a ∈ atoms (run cos sin atan2 initial es).1 →
  (0 <= fxScale a ∧ fxScale a < 21 # 20)%Q ∧ settle a = a.
Proof.
  intros Hes Ha.
  assert (Hall : ∀ es s, integrated cos sin atan2 sqrt s es → Forall fxSettled (atoms s) →
                         Forall fxSettled (atoms (run cos sin atan2 s es).1)).
  { clear. induction es as [|e es IH]; intros s Hes Hs; simpl; [done|].
    pose proof (fxSettled_step s e es Hes Hs) as Hs1.
    destruct Hes as [_ Hes].
    destruct (step cos sin atan2 s e) as [s1 effs1]. simpl in *.
    specialize (IH s1 Hes Hs1). by destruct (run cos sin atan2 s1 es). }
  specialize (Hall es initial Hes (Forall_nil_2 _)).
  rewrite Forall_forall in Hall. specialize (Hall a Ha).
  split; [exact Hall|]. by apply settle_settled.
Qed.

End FxScale.

Lemma fxScale_settled_witness :
  integrated cos0 sin0 atan20 sqrtFloor initial settledRun
  ∧ map fxScale (atoms (run cos0 sin0 atan20 initial settledRun).1)
    = [((0 + (5 # 100)) + (5 # 100))%Q]
  ∧ ∀ a, a ∈ atoms (run cos0 sin0 atan20 initial settledRun).1 →
         (0 <= fxScale a ∧ fxScale a < 21 # 20)%Q ∧ settle a = a.
Proof.
  assert (Hes : integrated cos0 sin0 atan20 sqrtFloor initial settledRun).
  { simpl. split; [done|]. split; [|split; [|done]].
    - intros wh s1 _ Hc Hs. vm_compute in Hc. injection Hc as <-.
      vm_compute in Hs. injection Hs as <-.
      eexists. split; [vm_compute; reflexivity|]. intros i a _. reflexivity.
    - intros wh s1 _ Hc Hs. vm_compute in Hc. injection Hc as <-.
      vm_compute in Hs. injection Hs as <-.
      eexists. split; [vm_compute; reflexivity|]. intros i a _. reflexivity. }
  split; [exact Hes|]. split; [reflexivity|].
  intros a Ha. exact (fxScale_settled cos0 sin0 atan20 sqrtFloor settledRun a Hes Ha).
Defined.

(** ** Particles *)

(** X18.  [createExplosion] appends exactly 15 particles (20 for a
    shatter) and leaves the older ones as they are.  With draws in
    [0, 1), every new particle sits at the centre of the explosion with a
    full life of 1, each component of its velocity is within half the
    speed (5, or 7.5 for a shatter) of 0, its size is in [2, 7), and its
    colour is the given one, or red or white for a shatter. *)
Theorem explosion_particles (x y : Q) (color : string) (isShatter : bool)
    (draw : nat → ParticleDraws) (particles : list Particle) :
  validParticleDraws draw →
  ∃ sparks,
    createExplosion x y color isShatter draw particles = particles ++ sparks
    ∧ length sparks = (if isShatter then 20 else 15)%nat
    ∧ Forall (sparkAt x y color isShatter) sparks.
Proof.
  intros Hdraw. unfold createExplosion. eexists. split; [reflexivity|].
  split; [rewrite length_map, length_seq; by destruct isShatter|].
  apply Forall_forall. intros p Hp. apply list_elem_of_fmap in Hp as (i & -> & _).
  destruct (Hdraw i) as ([? ?] & [? ?] & _ & [? ?]).
  unfold sparkAt. simpl. repeat split; try (destruct isShatter; lra).
  destruct isShatter; [|done]. destruct (Qltb _ _); auto.
Qed.

Lemma explosion_particles_witness :
  validParticleDraws steadyDraw
  ∧ ∃ sparks, createExplosion 100 200 "#FFF" false steadyDraw [] = [] ++ sparks
              ∧ length sparks = 15%nat
              ∧ Forall (sparkAt 100 200 "#FFF" false) sparks.
Proof.
  assert (Hdraw : validParticleDraws steadyDraw).
  { intros i. unfold unitInterval. simpl. repeat split; lra. }
  split; [exact Hdraw|].
  exact (explosion_particles 100 200 "#FFF" false steadyDraw [] Hdraw).
Defined.

Lemma particleStep_fades (c : Q) (ps : list Particle) :
  Forall (λ p, (life p <= c)%Q) ps →
  Forall (λ p, (life p <= c - (2 # 100))%Q) (particleStep ps).
Proof.
  unfold particleStep. induction 1 as [|p ps Hp Hps IH]; simpl; [done|].
  destruct (Qltb 0 (life p)); simpl; [|done]. constructor; [simpl; lra|done].
Qed.

Lemma particleStep_drops (ps : list Particle) :
  Forall (λ p, (life p <= 0)%Q) ps → particleStep ps = [].
Proof.
  unfold particleStep. induction 1 as [|p ps Hp Hps IH]; simpl; [done|].
  destruct (Qltb 0 (life p)) eqn:E; [|done]. apply Qltb_lt in E. lra.
Qed.

Lemma particleStep_keeps (c : Q) (ps : list Particle) :
  (0 < c)%Q → Forall (λ p, (life p == c)%Q) ps →
  length (particleStep ps) = length ps
  ∧ Forall (λ p, (life p == c - (2 # 100))%Q) (particleStep ps).
Proof.
  intros Hc. unfold particleStep. induction 1 as [|p ps Hp Hps [IH1 IH2]]; simpl; [done|].
  destruct (Qltb 0 (life p)) eqn:E.
  - simpl. split; [by rewrite IH1|]. constructor; [simpl; lra|done].
  - apply Qltb_ge in E. lra.
Qed.

Lemma particles_fade (n : nat) (ps : list Particle) :
  Forall (λ p, (life p <= 1)%Q) ps →
  Forall (λ p, (life p <= 1 - inject_Z (Z.of_nat n) * (2 # 100))%Q) (Nat.iter n particleStep ps).
Proof.
  intros Hps. induction n as [|n IH].
  - simpl. eapply Forall_impl; [exact Hps|]. simpl. intros p Hp.
    change (inject_Z (Z.of_nat 0)) with 0%Q. lra.
  - rewrite Nat.iter_succ. apply particleStep_fades in IH.
    eapply Forall_impl; [exact IH|]. simpl. intros p Hp.
    rewrite Nat2Z.inj_succ, <- Z.add_1_r, inject_Z_plus.
    change (inject_Z 1) with 1%Q. lra.
Qed.

Lemma particles_last (n : nat) (ps : list Particle) :
  (n ≤ 50)%nat → Forall (λ p, (life p == 1)%Q) ps →
  length (Nat.iter n particleStep ps) = length ps
  ∧ Forall (λ p, (life p == 1 - inject_Z (Z.of_nat n) * (2 # 100))%Q) (Nat.iter n particleStep ps).
Proof.
  intros Hn Hps. induction n as [|n IH].
  - simpl. split; [done|]. eapply Forall_impl; [exact Hps|]. simpl. intros p Hp.
    change (inject_Z (Z.of_nat 0)) with 0%Q. lra.
  - destruct IH as [IH1 IH2]; [lia|]. rewrite Nat.iter_succ.
    destruct (particleStep_keeps (1 - inject_Z (Z.of_nat n) * (2 # 100))
                (Nat.iter n particleStep ps)) as [K1 K2]; [|done|].
    + assert (inject_Z (Z.of_nat n) <= inject_Z 49)%Q by (rewrite <- Zle_Qle; lia).
      change (inject_Z 49) with 49%Q in *. lra.
    + split; [by rewrite K1|]. eapply Forall_impl; [exact K2|]. simpl. intros p Hp.
      rewrite Nat2Z.inj_succ, <- Z.add_1_r, inject_Z_plus.
    change (inject_Z 1) with 1%Q. lra.
Qed.

(** X19.  The life of a particle.  Step 5 never adds a particle, and what
    it keeps are the particles that had life left, in their order, each
    moved by its velocity, with 0.02 less life and 95% of its size.  A
    particle with a full life of 1, as [createExplosion] makes them, is
    kept by the first 50 steps and dropped by the 51st; so whatever the
    list held, nothing of it is left after 51 steps. *)
Theorem particles_live_50_frames (ps : list Particle) :
  (length (particleStep ps) ≤ length ps)%nat
  ∧ particleStep ps = map drift (List.filter (λ p, Qltb 0 (life p)) ps)
  ∧ (Forall (λ p, (life p == 1)%Q) ps →
     ∀ n, (n ≤ 50)%nat → length (Nat.iter n particleStep ps) = length ps)
  ∧ (Forall (λ p, (life p <= 1)%Q) ps → Nat.iter 51 particleStep ps = []).
Proof.
  split; [|split; [done|split]].
  - unfold particleStep. rewrite length_map. apply List.filter_length_le.
  - intros Hps n Hn. by destruct (particles_last n ps Hn Hps).
  - intros Hps. change 51%nat with (Datatypes.S 50). rewrite Nat.iter_succ.
    apply particleStep_drops.
    eapply Forall_impl; [exact (particles_fade 50 ps Hps)|]. simpl. intros p Hp.
    change (inject_Z (Z.of_nat 50)) with 50%Q in Hp. lra.
Qed.

Lemma particles_live_50_frames_witness :
  Forall (λ p, (life p == 1)%Q) (createExplosion 100 200 "#FFF" false steadyDraw [])
  ∧ length (Nat.iter 50 particleStep (createExplosion 100 200 "#FFF" false steadyDraw []))
    = 15%nat
  ∧ Nat.iter 51 particleStep (createExplosion 100 200 "#FFF" false steadyDraw []) = [].
Proof.
  assert (H1 : Forall (λ p, (life p == 1)%Q)
                 (createExplosion 100 200 "#FFF" false steadyDraw [])).
  { unfold createExplosion. simpl. repeat constructor. }
  split; [exact H1|].
  destruct (particles_live_50_frames (createExplosion 100 200 "#FFF" false steadyDraw []))
    as (_ & _ & Hkeep & Hdrop).
  split.
  - exact (Hkeep H1 50%nat (le_n 50)).
  - apply Hdrop. eapply Forall_impl; [exact H1|]. simpl. intros p Hp. rewrite Hp. done.
Defined.

(** ** The services *)

Section Services.

Variable generateContent : Request → Outcome (option string).
Context {J : Type}.
Variable JSON_parse : string → Outcome J.
Variable trim : string → string.

Lemma truthy_Some (o : option string) : truthy o = true → ∃ t, o = Some t ∧ t ≠ "".
Proof.
  destruct o as [t|]; [|done]. unfold truthy. intros Ht. exists t. split; [done|].
  intros ->. done.
Qed.

(** X20.  The three services never reject, whatever the model does.
    [identifyMoleculeWithGemini] resolves to the fallback molecule when the
    request or [JSON.parse] throws, and to [null] when the reply has no
    text or an empty one.  [getLevelChallenge] and [getRecipeHint] always
    resolve to a text that is not empty: an empty, blank or missing reply
    is replaced by a default and a failure by the fallback text.  With no
    atoms [getRecipeHint] answers that one should wait, and the model has
    no say in it. *)
Theorem services_never_reject :
  (∀ composition,
     identifyMoleculeWithGemini generateContent JSON_parse composition ≠ Thrown
     ∧ (generateContent (IdentifyRequest (compString composition)) = Thrown
        ∨ (∃ t, generateContent (IdentifyRequest (compString composition)) = Returned (Some t)
                ∧ t ≠ "" ∧ JSON_parse t = Thrown) →
        identifyMoleculeWithGemini generateContent JSON_parse composition
        = Returned (Fallback {| name := "Unknown Molecule"; formula := "???";
                                fact := "A mysterious bond formed in the void." |}))
     ∧ (generateContent (IdentifyRequest (compString composition)) = Returned None
        ∨ generateContent (IdentifyRequest (compString composition)) = Returned (Some "") →
        identifyMoleculeWithGemini generateContent JSON_parse composition = Returned NoAnswer)
     ∧ (∀ t j, generateContent (IdentifyRequest (compString composition)) = Returned (Some t) →
               t ≠ "" → JSON_parse t = Returned j →
               identifyMoleculeWithGemini generateContent JSON_parse composition
               = Returned (Parsed j)))
  ∧ (∀ difficulty, ∃ t, getLevelChallenge generateContent difficulty = Returned t ∧ t ≠ "")
  ∧ (∀ availableAtoms,
       ∃ t, getRecipeHint generateContent trim availableAtoms = Returned t ∧ t ≠ "")
  ∧ getRecipeHint generateContent trim [] = Returned "Wait for atoms to spawn!".
Proof.
  split; [|split; [|split]].
  - intros composition. unfold identifyMoleculeWithGemini.
    destruct (generateContent _) as [[t|]|] eqn:Hg; simpl.
    + destruct (truthy (Some t)) eqn:Ht.
      * apply truthy_Some in Ht as (t' & [= <-] & Hne).
        destruct (JSON_parse t) as [j|] eqn:Hj; simpl.
        -- split; [done|]. split; [|split].
           ++ intros [?|(t' & [= <-] & _ & ?)]; congruence.
           ++ intros [?|[= ->]]; done.
           ++ intros t' j' [= <-] _ Hj'. congruence.
        -- split; [done|]. split; [done|]. split.
           ++ intros [?|[= ->]]; done.
           ++ intros t' j' [= <-] _ Hj'. congruence.
      * assert (t = "") as ->.
        { unfold truthy in Ht. apply negb_false_iff, String.eqb_eq in Ht. done. }
        split; [done|]. split; [|split].
        -- intros [?|(t' & [= <-] & ? & _)]; done.
        -- done.
        -- intros t' j' [= <-] ?. done.
    + split; [done|]. split; [|split].
      * intros [?|(t' & ? & _)]; done.
      * done.
      * intros t' j' ?. done.
    + split; [done|]. split; [done|]. split.
      * intros [?|?]; done.
      * intros t' j' ?. done.
  - intros difficulty. unfold getLevelChallenge.
    destruct (generateContent _) as [text|]; simpl.
    + destruct (truthy text) eqn:Ht.
      * apply truthy_Some in Ht as (t & -> & Hne). by exists t.
      * by eexists.
    + by eexists.
  - intros availableAtoms. unfold getRecipeHint.
    destruct (length availableAtoms =? 0)%nat; [by eexists|].
    destruct (generateContent _) as [text|]; simpl.
    + destruct (truthy (trim <$> text)) eqn:Ht.
      * apply truthy_Some in Ht as (t & -> & Hne). by exists t.
      * by eexists.
    + by eexists.
  - done.
Qed.

End Services.

Lemma bump_keys (ty : AtomType.t) (c : list (AtomType.t * Z)) :
  map fst (bump ty c) = if bool_decide (ty ∈ map fst c) then map fst c else map fst c ++ [ty].
Proof.
  induction c as [|[ty' n] c IH]; simpl; [done|].
  destruct (decide (ty' = ty)) as [->|Hne]; simpl.
  - rewrite bool_decide_eq_true_2; [done|]. by left.
  - rewrite IH. destruct (bool_decide (ty ∈ map fst c)) eqn:E.
    + apply bool_decide_eq_true in E. rewrite bool_decide_eq_true_2; [done|]. by right.
    + apply bool_decide_eq_false in E. rewrite bool_decide_eq_false_2; [done|].
      intros [?|?]%elem_of_cons; [congruence|done].
Qed.

Lemma bump_spec (ty : AtomType.t) (c : list (AtomType.t * Z)) :
  NoDup (map fst c) → Forall (λ p, 1 ≤ p.2) c →
  NoDup (map fst (bump ty c)) ∧ Forall (λ p, 1 ≤ p.2) (bump ty c)
  ∧ totalCount (bump ty c) = totalCount c + 1.
Proof.
  intros Hnd Hpos. split; [|split].
  - rewrite bump_keys. case_bool_decide as Hin; [done|].
    apply NoDup_app. split; [done|]. split; [|apply NoDup_singleton].
    intros x Hx ->%list_elem_of_singleton. done.
  - clear Hnd. induction Hpos as [|[ty' n] c Hp Hc IH]; simpl.
    + by repeat constructor.
    + destruct (decide (ty' = ty)); constructor; simpl in *; try done. lia.
  - clear. induction c as [|[ty' n] c IH]; simpl; [done|].
    destruct (decide (ty' = ty)); simpl; lia.
Qed.

Lemma recipeCounts_spec (acc : list (AtomType.t * Z)) (l : list AtomType.t) :
  NoDup (map fst acc) → Forall (λ p, 1 ≤ p.2) acc →
  NoDup (map fst (foldl (λ acc ty, bump ty acc) acc l))
  ∧ Forall (λ p, 1 ≤ p.2) (foldl (λ acc ty, bump ty acc) acc l)
  ∧ totalCount (foldl (λ acc ty, bump ty acc) acc l) = totalCount acc + Z.of_nat (length l).
Proof.
  revert acc. induction l as [|ty l IH]; intros acc Hnd Hpos; simpl.
  - repeat split; try done. lia.
  - destruct (bump_spec ty acc Hnd Hpos) as (Hnd' & Hpos' & Htot).
    destruct (IH (bump ty acc) Hnd' Hpos') as (? & ? & Hsum).
    repeat split; try done. lia.
Qed.

(** X21.  What a hint is asked for.  The counts that [getRecipeHint]
    sends for the atom types of the arena list every type that is in the
    store exactly once, with the number of stored atoms of that type; the
    counts are at least 1 and add up to the number of atoms; and the list
    is empty only for an empty arena, the case in which no request is
    made. *)
Theorem hint_counts_the_arena (s : State) :
  (∀ ty, countIn (recipeCounts (getAtomTypes s)) ty = typeCount ty (atoms s))
  ∧ NoDup (map fst (recipeCounts (getAtomTypes s)))
  ∧ Forall (λ p, 1 ≤ p.2) (recipeCounts (getAtomTypes s))
  ∧ totalCount (recipeCounts (getAtomTypes s)) = Z.of_nat (length (atoms s))
  ∧ (recipeCounts (getAtomTypes s) = [] ↔ atoms s = [])
  ∧ ∀ (generateContent : Request → Outcome (option string)) (trim : string → string),
      atoms s = [] →
      getRecipeHint generateContent trim (getAtomTypes s) = Returned "Wait for atoms to spawn!".
Proof.
  assert (Hcomp : recipeCounts (getAtomTypes s) = compositionOf (atoms s)).
  { unfold recipeCounts, getAtomTypes, compositionOf.
    generalize (@nil (AtomType.t * Z)) as acc.
    induction (atoms s) as [|a l IH]; intros acc; simpl; [done|]. apply IH. }
  destruct (recipeCounts_spec [] (getAtomTypes s)) as (Hnd & Hpos & Htot);
    [apply NoDup_nil_2|apply Forall_nil_2|].
  fold (recipeCounts (getAtomTypes s)) in Hnd, Hpos, Htot.
  split; [intros ty; rewrite Hcomp; apply compositionOf_count|].
  split; [done|]. split; [done|].
  split; [rewrite Htot; unfold getAtomTypes; rewrite length_map; simpl; lia|].
  split.
  - split.
    + intros Hnil. rewrite Hnil in Htot. simpl in Htot.
      unfold getAtomTypes in Htot. rewrite length_map in Htot.
      destruct (atoms s); [done|simpl in Htot; lia].
    + intros Hnil. unfold recipeCounts, getAtomTypes. by rewrite Hnil.
  - intros generateContent trim Hnil. unfold getRecipeHint, getAtomTypes. by rewrite Hnil.
Qed.

(** ** The lines of the bonds *)








(** ** The dragging flags *)

Lemma elem_of_alter_inv {A : Type} (f : A → A) (k : nat) (l : list A) (x : A) :
  x ∈ alter f k l →
  (∃ a, l !! k = Some a ∧ x = f a) ∨ (∃ m, m ≠ k ∧ l !! m = Some x).
Proof.
  intros (m & Hm)%list_elem_of_lookup. destruct (decide (m = k)) as [->|Hne].
  - rewrite list_lookup_alter_eq in Hm. destruct (l !! k) as [a|]; [|done].
    injection Hm as <-. left. by exists a.
  - rewrite list_lookup_alter_ne in Hm by done. right. by exists m.
Qed.

Lemma tracked_checkMolecules (s : State) : tracked s → tracked (checkMolecules s).1.
Proof.
  intros Hs. unfold checkMolecules. case_match; simpl; [|done].
  intros a Ha Hd. simpl in *.
  apply list_elem_of_In, filter_In in Ha as [Ha Hkeep]. apply list_elem_of_In in Ha.
  rewrite (Hs a Ha Hd). apply negb_true_iff in Hkeep. rewrite Hkeep.
  by rewrite andb_false_r.
Qed.

Lemma tracked_bondStep (env : TickEnv) (s : State) : tracked s → tracked (bondStep env s).1.
Proof.
  intros Hs. unfold bondStep. destruct (bondAttempt s) as [[[i d] [j n]]|]; [|done].
  pose proof (tracked_checkMolecules (createBond (new_bond_id env) i j d n s)) as Hc.
  destruct (checkMolecules _) as [s' effs]. simpl in *. apply Hc.
  intros a Ha Hd. simpl in *.
  apply elem_of_alter_inv in Ha as [(a1 & Ha1 & ->)|(m & _ & Ha)].
  - apply list_elem_of_lookup_2, elem_of_alter_inv in Ha1 as [(a0 & Ha0 & ->)|(m & _ & Ha1)].
    + apply (Hs a0); [by eapply list_elem_of_lookup_2|done].
    + apply (Hs a1); [by eapply list_elem_of_lookup_2|done].
  - apply list_elem_of_lookup_2, elem_of_alter_inv in Ha as [(a0 & Ha0 & ->)|(m' & _ & Ha)].
    + apply (Hs a0); [by eapply list_elem_of_lookup_2|done].
    + apply (Hs a); [by eapply list_elem_of_lookup_2|done].
Qed.

Lemma tracked_update (time : Z) (env : TickEnv) (s : State) :
  tracked s → tracked (update time env s).1.
Proof.
  intros Hs. unfold update, beforeBondStep.
  destruct (negb (gameActive s)); [done|].
  destruct (canvas env); [|done].
  destruct (spawnStep time env s) as [s1|] eqn:Hsp; [|done]. simpl.
  apply tracked_bondStep.
  assert (Hs1 : tracked s1).
  { revert Hsp. unfold spawnStep. case_match; [|by intros [= <-]].
    unfold spawnAtom. destruct (container env) as [[w h]|]; simpl; [|by intros [= <-]].
    destruct (pickType _) as [ty|]; simpl; [|done].
    destruct (spawnPosition _ _ _ _) as [x y]. intros [= <-].
    intros a Ha Hd. simpl in *. apply elem_of_app in Ha as [Ha|Ha]; [by apply Hs|].
    apply list_elem_of_singleton in Ha as ->. done. }
  intros a Ha Hd. simpl in *.
  apply list_elem_of_lookup in Ha as (i & Hi).
  apply list_lookup_imap_Some in Hi as (a0 & Ha0 & ->).
  apply (Hs1 a0); [by eapply list_elem_of_lookup_2|done].
Qed.

Lemma tracked_undo (s : State) : tracked s → tracked (undo s).
Proof.
  intros Hs a Ha Hd.
  assert (Hgen : ∀ stack ats bs,
            (∀ a, a ∈ ats → isDragging a = true → draggedAtom s = Some (atom_id a)) →
            ∀ a, a ∈ (undoLoop stack ats bs).1.2 → isDragging a = true →
                 draggedAtom s = Some (atom_id a)).
  { clear. induction stack as [|h stack IH]; intros ats bs Hats; simpl; [done|].
    destruct (findIndexed _ _) as [[k b]|]; [|by apply IH].
    destruct (truthy _); [|by apply IH]. simpl.
    assert (Hdecr : ∀ i l, (∀ a, a ∈ l → isDragging a = true → draggedAtom s = Some (atom_id a)) →
                           ∀ a, a ∈ decrFound i l → isDragging a = true →
                                draggedAtom s = Some (atom_id a)).
    { clear. intros i l Hl a Ha Hd. unfold decrFound in Ha.
      destruct (findIndexed _ _) as [[k a0]|]; [|by apply Hl].
      apply elem_of_alter_inv in Ha as [(a1 & Ha1 & ->)|(m & _ & Ha)].
      - apply (Hl a1); [by eapply list_elem_of_lookup_2|done].
      - apply (Hl a); [by eapply list_elem_of_lookup_2|done]. }
    by apply Hdecr, Hdecr. }
  rewrite undo_atoms in Ha.
  replace (draggedAtom (undo s)) with (draggedAtom s).
  - by apply (Hgen (rev (bondHistory s)) (atoms s) (bonds s) Hs).
  - unfold undo. by destruct (undoLoop _ _ _) as [[? ?] ?].
Qed.

Section Dragging.

Variables (cos sin : Q → Q) (atan2 : Q → Q → Q).

Lemma tracked_handlePointerUp (nudge : Q * Q) (s : State) :
  NoDup (map atom_id (atoms s)) → tracked s →
  tracked (handlePointerUp cos sin atan2 nudge s).1.
Proof.
  intros Hnd Hs. unfold handlePointerUp.
  destruct (draggedAtom s) as [d|] eqn:Hdrag; [|done].
  destruct (truthy (Some d)); [|exact Hs].
  assert (Hother : ∀ i atom m a, atoms s !! i = Some atom → atom_id atom = d →
                     m ≠ i → atoms s !! m = Some a → isDragging a = false).
  { intros i atom m a Hi Hid Hm Ha. apply not_true_is_false. intros Hd.
    assert (Heq : Some d = Some (atom_id a)).
    { rewrite <- Hdrag. apply Hs; [by eapply list_elem_of_lookup_2|done]. }
    injection Heq as Heq. apply Hm.
    apply (NoDup_lookup (map atom_id (atoms s)) m i d); [done| |].
    - rewrite list_lookup_fmap, Ha. simpl. by rewrite Heq.
    - rewrite list_lookup_fmap, Hi. simpl. by rewrite Hid. }
  destruct (findIndexed (has_id d) (atoms s)) as [[i atom]|] eqn:Hf.
  - apply findIndexed_Some in Hf as (Hi & Hid & _).
    unfold has_id in Hid. apply String.eqb_eq in Hid.
    assert (Hfree : ∀ a, a ∈ alter (setDragging false) i (atoms s) → isDragging a = false).
    { intros a Ha. apply elem_of_alter_inv in Ha as [(a0 & _ & ->)|(m & Hm & Ha)]; [done|].
      exact (Hother i atom m a Hi Hid Hm Ha). }
    destruct (findIndexed (isNearby atom) _) as [[j n]|].
    + destruct (negb _); simpl; intros a Ha Hd; simpl in *; exfalso.
      * apply elem_of_alter_inv in Ha as [(a1 & Ha1 & ->)|(m & _ & Ha)].
        -- apply list_elem_of_lookup_2, elem_of_alter_inv in Ha1
             as [(a0 & Ha0 & ->)|(m & _ & Ha1)].
           ++ simpl in Hd; rewrite Hfree in Hd; [done|by eapply list_elem_of_lookup_2].
           ++ simpl in Hd; rewrite Hfree in Hd; [done|by eapply list_elem_of_lookup_2].
        -- apply list_elem_of_lookup_2, elem_of_alter_inv in Ha
             as [(a0 & Ha0 & ->)|(m' & _ & Ha)].
           ++ simpl in Hd; rewrite Hfree in Hd; [done|by eapply list_elem_of_lookup_2].
           ++ simpl in Hd; rewrite Hfree in Hd; [done|by eapply list_elem_of_lookup_2].
      * apply elem_of_alter_inv in Ha as [(a0 & Ha0 & ->)|(m & _ & Ha)].
        -- simpl in Hd; rewrite Hfree in Hd; [done|by eapply list_elem_of_lookup_2].
        -- simpl in Hd; rewrite Hfree in Hd; [done|by eapply list_elem_of_lookup_2].
    + simpl. intros a Ha Hd. simpl in *. by rewrite Hfree in Hd.
  - simpl. intros a Ha Hd. simpl in *. exfalso.
    pose proof (proj1 (findIndexed_None _ _) Hf a Ha) as Hno.
    unfold has_id in Hno. apply String.eqb_neq in Hno. apply Hno.
    pose proof (Hs a Ha Hd) as Heq. rewrite Hdrag in Heq. by injection Heq.
Qed.

Lemma tracked_step (s : State) (e : Event) :
  NoDup (map atom_id (atoms s)) →
  match e with
  | PointerDown _ _ _ => draggedAtom s = None
  | _ => True
  end →
  tracked s → tracked (step cos sin atan2 s e).1.
Proof.
  intros Hnd He Hs. destruct e as [time env|rect cx cy|rect cx cy|nudge| |active]; simpl.
  - by apply tracked_update.
  - unfold handlePointerDown. destruct rect as [[l t]|]; [|done].
    destruct (findIndexed _ _) as [[k clicked]|] eqn:Hf; [|done].
    apply findIndexed_Some in Hf as (Hk & _).
    intros a Ha Hd. simpl in *.
    apply elem_of_alter_inv in Ha as [(a0 & Ha0 & ->)|(m & _ & Ha)].
    + simpl. congruence.
    + apply list_elem_of_lookup_2 in Ha. specialize (Hs a Ha Hd). congruence.
  - unfold handlePointerMove. by destruct rect as [[? ?]|].
  - by apply tracked_handlePointerUp.
  - by apply tracked_undo.
  - destruct active; [done|]. intros a Ha. by apply elem_of_nil in Ha.
Qed.

(** X23.  Input from a single pointer.  Along every run with fresh atom
    ids in which the pointer goes down only when nothing is held, every
    atom that is flagged as dragged is the atom that the drag reference
    names; so at most one atom follows the pointer, and none does once the
    reference is cleared. *)
Theorem one_atom_follows_the_pointer (es : list Event) :
  freshSpawns cos sin atan2 initial es → freeHand cos sin atan2 initial es →
  let s := (run cos sin atan2 initial es).1 in
  tracked s
  ∧ (∀ a b, a ∈ atoms s → b ∈ atoms s →
            isDragging a = true → isDragging b = true → a = b)
  ∧ (draggedAtom s = None → ∀ a, a ∈ atoms s → isDragging a = false).
Proof.
  intros Hfresh Hfree s.
  assert (Hnd : NoDup (map atom_id (atoms s))).
  { by destruct (consistent_run cos sin atan2 es initial Hfresh consistent_initial). }
  assert (Hall : ∀ es s0, freshSpawns cos sin atan2 s0 es → freeHand cos sin atan2 s0 es →
                          consistent s0 → tracked s0 →
                          tracked (run cos sin atan2 s0 es).1).
  { clear. induction es as [|e es IH]; intros s0 Hfresh Hfree Hcons Hs; simpl in *; [done|].
    destruct Hfresh as [He Hfresh]. destruct Hfree as [Hdown Hfree].
    pose proof (tracked_step s0 e (proj1 Hcons) Hdown Hs) as Hs1.
    pose proof (consistent_run cos sin atan2 [e] s0) as Hcons1. simpl in Hcons1.
    destruct (step cos sin atan2 s0 e) as [s1 effs1]. simpl in *.
    specialize (Hcons1 (conj He I) Hcons).
    specialize (IH s1 Hfresh Hfree Hcons1 Hs1). by destruct (run cos sin atan2 s1 es). }
  assert (Hs : tracked s).
  { apply Hall; [done|done|apply consistent_initial|].
    intros a Ha. by apply elem_of_nil in Ha. }
  split; [done|]. split.
  - intros a b Ha Hb Hda Hdb. apply (same_id_same_atom (atoms s)); try done.
    pose proof (Hs a Ha Hda) as E1. pose proof (Hs b Hb Hdb) as E2. congruence.
  - intros Hnone a Ha. apply not_true_is_false. intros Hd.
    pose proof (Hs a Ha Hd). congruence.
Qed.

End Dragging.

Lemma one_atom_follows_the_pointer_witness :
  (freshSpawns cos0 sin0 atan20 initial firstBond ∧ freeHand cos0 sin0 atan20 initial firstBond)
  ∧ draggedAtom (run cos0 sin0 atan20 initial firstBond).1 = Some "o4c8t3w6z"
  ∧ tracked (run cos0 sin0 atan20 initial firstBond).1.
Proof.
  assert (Hfresh : freshSpawns cos0 sin0 atan20 initial firstBond).
  { simpl. repeat split; compute_done. }
  assert (Hfree : freeHand cos0 sin0 atan20 initial firstBond).
  { simpl. repeat split; reflexivity. }
  split; [by split|]. split; [reflexivity|].
  exact (proj1 (one_atom_follows_the_pointer cos0 sin0 atan20 firstBond Hfresh Hfree)).
Defined.

(** A second pointer that goes down while an atom is held takes over the
    drag reference: the atom held first keeps its flag when both pointers
    are lifted. *)
Lemma second_pointer_orphans_flag :
  draggedAtom (run cos0 sin0 atan20 twoOxygens twoPointers).1 = None
  ∧ isDragging <$> atoms (run cos0 sin0 atan20 twoOxygens twoPointers).1 = [false; true].
Proof. split; reflexivity. Qed.
